(** * hello_tls: ClientHello encoder, ServerHello/Alert decoder and the
      cipher-suite enumeration driver of [hello_tls.py], embedded in Rocq.

    Python values are modelled as follows.
    - [bytes] is [list byte]; [b"".join(xs)] is [concat xs]; a slice
      [b[i:j]] with [0 <= i] is [slice b i j].
    - [int] is [Z]; [len] returns a [Z].
    - [str] is the list of its Unicode code points ([N]).
    - an [Enum] class is an inductive type with its table of wire values;
      calling the class on a value is [enum_call].
    - a raised exception is the left injection of [result]; statements are
      sequenced with [x <- c ;; k], in the source's evaluation order. *)

From Stdlib Require Import List ListDec Permutation ZArith NArith Lia Bool.
From Stdlib Require Import Init.Byte Strings.Byte.
Import ListNotations.
Open Scope Z_scope.

(** ** Python values *)

Abbreviation bytes := (list byte).
Abbreviation str := (list N).

Definition len {A : Type} (l : list A) : Z := Z.of_nat (length l).

(** [b[i:j]] for [0 <= i]; every slice of the source has this shape. *)
Definition slice {A : Type} (b : list A) (i j : Z) : list A :=
  firstn (Z.to_nat (j - i)) (skipn (Z.to_nat i) b).

(** [b[:j]] for [0 <= j]. *)
Definition slice_to {A : Type} (b : list A) (j : Z) : list A := slice b 0 j.

Definition byte_to_Z (b : byte) : Z := Z.of_N (Byte.to_N b).

Definition byte_of_N (n : N) : byte :=
  match Byte.of_N (n mod 256)%N with
  | Some b => b
  | None => x00
  end.

Definition byte_of_Z (z : Z) : byte := byte_of_N (Z.to_N (z mod 256)).

(** ** The four enumerations *)

Inductive Protocol : Set := SSLv3 | TLS_1_0 | TLS_1_1 | TLS_1_2 | TLS_1_3.

Inductive CipherSuite : Set :=
  (* TLS 1.3 cipher suites. *)
  | TLS_AES_128_GCM_SHA256
  | TLS_AES_256_GCM_SHA384
  | TLS_CHACHA20_POLY1305_SHA256
  | TLS_AES_128_CCM_SHA256
  | TLS_AES_128_CCM_8_SHA256
  | TLS_EMPTY_RENEGOTIATION_INFO_SCSV
  (* TLS 1.2 and lower cipher suites. *)
  | TLS_RSA_WITH_3DES_EDE_CBC_SHA
  | TLS_RSA_WITH_AES_128_CBC_SHA
  | TLS_RSA_WITH_AES_256_CBC_SHA
  | TLS_RSA_WITH_AES_128_GCM_SHA256
  | TLS_RSA_WITH_AES_256_GCM_SHA384
  | TLS_ECDHE_ECDSA_WITH_AES_128_CBC_SHA
  | TLS_ECDHE_ECDSA_WITH_AES_256_CBC_SHA
  | TLS_ECDHE_RSA_WITH_3DES_EDE_CBC_SHA
  | TLS_ECDHE_RSA_WITH_AES_128_CBC_SHA
  | TLS_ECDHE_RSA_WITH_AES_256_CBC_SHA
  | TLS_ECDHE_ECDSA_WITH_AES_128_GCM_SHA256
  | TLS_ECDHE_ECDSA_WITH_AES_256_GCM_SHA384
  | TLS_ECDHE_RSA_WITH_AES_128_GCM_SHA256
  | TLS_ECDHE_RSA_WITH_AES_256_GCM_SHA384
  | TLS_ECDHE_RSA_WITH_CHACHA20_POLY1305_SHA256
  | TLS_ECDHE_ECDSA_WITH_CHACHA20_POLY1305_SHA256.

Inductive AlertLevel : Set := WARNING | FATAL.

Inductive AlertDescription : Set :=
  | close_notify
  | unexpected_message
  | bad_record_mac
  | record_overflow
  | handshake_failure
  | bad_certificate
  | unsupported_certificate
  | certificate_revoked
  | certificate_expired
  | certificate_unknown
  | illegal_parameter
  | unknown_ca
  | access_denied
  | decode_error
  | decrypt_error
  | protocol_version
  | insufficient_security
  | internal_error
  | inappropriate_fallback
  | user_canceled
  | missing_extension
  | unsupported_extension
  | unrecognized_name
  | bad_certificate_status_response
  | unknown_psk_identity
  | certificate_required
  | no_application_protocol.

Definition Protocol_eq_dec (x y : Protocol) : {x = y} + {x <> y}.
Proof. decide equality. Defined.

Definition CipherSuite_eq_dec (x y : CipherSuite) : {x = y} + {x <> y}.
Proof. decide equality. Defined.

Definition AlertLevel_eq_dec (x y : AlertLevel) : {x = y} + {x <> y}.
Proof. decide equality. Defined.

Definition AlertDescription_eq_dec (x y : AlertDescription) : {x = y} + {x <> y}.
Proof. decide equality. Defined.

Definition bytes_eq_dec : forall x y : bytes, {x = y} + {x <> y} :=
  list_eq_dec Byte.byte_eq_dec.

(** ** Exceptions and the error monad *)

Inductive enum_class : Set := cProtocol | cCipherSuite | cAlertLevel | cAlertDescription.

(** The places of the program (and of the builtins it calls) that raise
    [ValueError]. *)
Inductive value_error : Set :=
  | Empty_response                    (* from_packet: 'Empty response' *)
  | Not_a_valid (c : enum_class)      (* Enum call on a value of no member *)
  | Max_of_empty                      (* max() of an empty sequence *)
  | Not_in_list                       (* list.remove(x): x not in list *)
  | Invalid_literal_for_int           (* int(port_str) *)
  | Pool_size                         (* ThreadPool(n) with n < 1 *)
  | Unpack_arity                      (* tuple unpacking of the wrong length *)
  | No_cipher_suite_accepted (p : Protocol).
                                      (* 'Server did not accept any cipher suite...' *)

Inductive exn : Set :=
  | ValueError (why : value_error)
  | AssertionError
  | struct_error
  | OverflowError
  | UnicodeEncodeError
  | OSError
  | ServerError (protocol : Protocol) (level : AlertLevel) (alert : AlertDescription).

Definition result (A : Type) : Type := (exn + A)%type.

Definition ret {A : Type} (a : A) : result A := inr a.
Definition raise {A : Type} (e : exn) : result A := inl e.
Definition bind {A B : Type} (c : result A) (k : A -> result B) : result B :=
  match c with
  | inl e => inl e
  | inr a => k a
  end.

Notation "x <- c ;; k" := (bind c (fun x => k))
  (at level 61, c at next level, right associativity).
Notation "c ;;; k" := (bind c (fun _ => k))
  (at level 61, right associativity).

Definition assert_ (b : bool) : result unit :=
  if b then ret tt else raise AssertionError.

(** [x in [a, b, c]] on ints. *)
Definition in_list (x : Z) (l : list Z) : bool := existsb (Z.eqb x) l.

(** ** Enum classes: members in definition order, with their values *)

Class PyEnum (A V : Type) : Type := {
  members : list A;
  value : A -> V;
  value_eq_dec : forall x y : V, {x = y} + {x <> y};
  class_of : enum_class
}.

(** [E(v)]: the first member whose value is [v], or [ValueError]. *)
Definition enum_call {A V : Type} `{PyEnum A V} (v : V) : result A :=
  match find (fun m => if value_eq_dec (value m) v then true else false) members with
  | Some m => ret m
  | None => raise (ValueError (Not_a_valid class_of))
  end.

#[export] Instance Protocol_enum : PyEnum Protocol bytes := {
  members := [SSLv3; TLS_1_0; TLS_1_1; TLS_1_2; TLS_1_3];
  value p :=
    match p with
    | SSLv3 => [x03; x00]
    | TLS_1_0 => [x03; x01]
    | TLS_1_1 => [x03; x02]
    | TLS_1_2 => [x03; x03]
    | TLS_1_3 => [x03; x04]
    end;
  value_eq_dec := bytes_eq_dec;
  class_of := cProtocol
}.

#[export] Instance CipherSuite_enum : PyEnum CipherSuite bytes := {
  members :=
    [TLS_AES_128_GCM_SHA256; TLS_AES_256_GCM_SHA384;
     TLS_CHACHA20_POLY1305_SHA256; TLS_AES_128_CCM_SHA256;
     TLS_AES_128_CCM_8_SHA256; TLS_EMPTY_RENEGOTIATION_INFO_SCSV;
     TLS_RSA_WITH_3DES_EDE_CBC_SHA; TLS_RSA_WITH_AES_128_CBC_SHA;
     TLS_RSA_WITH_AES_256_CBC_SHA; TLS_RSA_WITH_AES_128_GCM_SHA256;
     TLS_RSA_WITH_AES_256_GCM_SHA384; TLS_ECDHE_ECDSA_WITH_AES_128_CBC_SHA;
     TLS_ECDHE_ECDSA_WITH_AES_256_CBC_SHA; TLS_ECDHE_RSA_WITH_3DES_EDE_CBC_SHA;
     TLS_ECDHE_RSA_WITH_AES_128_CBC_SHA; TLS_ECDHE_RSA_WITH_AES_256_CBC_SHA;
     TLS_ECDHE_ECDSA_WITH_AES_128_GCM_SHA256;
     TLS_ECDHE_ECDSA_WITH_AES_256_GCM_SHA384;
     TLS_ECDHE_RSA_WITH_AES_128_GCM_SHA256;
     TLS_ECDHE_RSA_WITH_AES_256_GCM_SHA384;
     TLS_ECDHE_RSA_WITH_CHACHA20_POLY1305_SHA256;
     TLS_ECDHE_ECDSA_WITH_CHACHA20_POLY1305_SHA256];
  value c :=
    match c with
    | TLS_AES_128_GCM_SHA256 => [x13; x01]
    | TLS_AES_256_GCM_SHA384 => [x13; x02]
    | TLS_CHACHA20_POLY1305_SHA256 => [x13; x03]
    | TLS_AES_128_CCM_SHA256 => [x13; x04]
    | TLS_AES_128_CCM_8_SHA256 => [x13; x05]
    | TLS_EMPTY_RENEGOTIATION_INFO_SCSV => [x00; xff]
    | TLS_RSA_WITH_3DES_EDE_CBC_SHA => [x00; x0a]
    | TLS_RSA_WITH_AES_128_CBC_SHA => [x00; x2f]
    | TLS_RSA_WITH_AES_256_CBC_SHA => [x00; x35]
    | TLS_RSA_WITH_AES_128_GCM_SHA256 => [x00; x9c]
    | TLS_RSA_WITH_AES_256_GCM_SHA384 => [x00; x9d]
    | TLS_ECDHE_ECDSA_WITH_AES_128_CBC_SHA => [xc0; x09]
    | TLS_ECDHE_ECDSA_WITH_AES_256_CBC_SHA => [xc0; x0a]
    | TLS_ECDHE_RSA_WITH_3DES_EDE_CBC_SHA => [xc0; x12]
    | TLS_ECDHE_RSA_WITH_AES_128_CBC_SHA => [xc0; x13]
    | TLS_ECDHE_RSA_WITH_AES_256_CBC_SHA => [xc0; x14]
    | TLS_ECDHE_ECDSA_WITH_AES_128_GCM_SHA256 => [xc0; x2b]
    | TLS_ECDHE_ECDSA_WITH_AES_256_GCM_SHA384 => [xc0; x2c]
    | TLS_ECDHE_RSA_WITH_AES_128_GCM_SHA256 => [xc0; x2f]
    | TLS_ECDHE_RSA_WITH_AES_256_GCM_SHA384 => [xc0; x30]
    | TLS_ECDHE_RSA_WITH_CHACHA20_POLY1305_SHA256 => [xcc; xa8]
    | TLS_ECDHE_ECDSA_WITH_CHACHA20_POLY1305_SHA256 => [xcc; xa9]
    end;
  value_eq_dec := bytes_eq_dec;
  class_of := cCipherSuite
}.

#[export] Instance AlertLevel_enum : PyEnum AlertLevel Z := {
  members := [WARNING; FATAL];
  value l := match l with WARNING => 1 | FATAL => 2 end;
  value_eq_dec := Z.eq_dec;
  class_of := cAlertLevel
}.

#[export] Instance AlertDescription_enum : PyEnum AlertDescription Z := {
  members :=
    [close_notify; unexpected_message; bad_record_mac; record_overflow;
     handshake_failure; bad_certificate; unsupported_certificate;
     certificate_revoked; certificate_expired; certificate_unknown;
     illegal_parameter; unknown_ca; access_denied; decode_error;
     decrypt_error; protocol_version; insufficient_security; internal_error;
     inappropriate_fallback; user_canceled; missing_extension;
     unsupported_extension; unrecognized_name;
     bad_certificate_status_response; unknown_psk_identity;
     certificate_required; no_application_protocol];
  value a :=
    match a with
    | close_notify => 0
    | unexpected_message => 10
    | bad_record_mac => 20
    | record_overflow => 22
    | handshake_failure => 40
    | bad_certificate => 42
    | unsupported_certificate => 43
    | certificate_revoked => 44
    | certificate_expired => 45
    | certificate_unknown => 46
    | illegal_parameter => 47
    | unknown_ca => 48
    | access_denied => 49
    | decode_error => 50
    | decrypt_error => 51
    | protocol_version => 70
    | insufficient_security => 71
    | internal_error => 80
    | inappropriate_fallback => 86
    | user_canceled => 90
    | missing_extension => 109
    | unsupported_extension => 110
    | unrecognized_name => 112
    | bad_certificate_status_response => 113
    | unknown_psk_identity => 115
    | certificate_required => 116
    | no_application_protocol => 120
    end;
  value_eq_dec := Z.eq_dec;
  class_of := cAlertDescription
}.

(** ** Byte codec primitives *)

(** The [k] big-endian bytes of [n]. *)
Fixpoint be_bytes (k : nat) (n : Z) : bytes :=
  match k with
  | O => []
  | S k' => byte_of_Z (n / 256 ^ Z.of_nat k') :: be_bytes k' n
  end.

(** [n.to_bytes(k, byteorder="big")]: [OverflowError] when [n] is negative
    or does not fit in [k] bytes. *)
Definition to_bytes (k : nat) (n : Z) : result bytes :=
  if (0 <=? n) && (n <? 256 ^ Z.of_nat k)
  then ret (be_bytes k n)
  else raise OverflowError.

Definition to_uint24 (n : Z) : result bytes := to_bytes 3 n.
Definition to_uint8 (n : Z) : result bytes := to_bytes 1 n.
Definition to_uint16 (n : Z) : result bytes := to_bytes 2 n.

(** [int.from_bytes(b, byteorder="big")], for any length of [b]. *)
Definition from_uint8 (b : bytes) : Z :=
  fold_left (fun acc x => acc * 256 + byte_to_Z x) b 0.
Definition from_uint16 : bytes -> Z := from_uint8.

(** ** [struct.unpack] for the format codes the source uses

    A format ["!BHHB3sH32sB"] is the list of its codes; ["!"] is network
    byte order with no padding. *)

Inductive fmt_code : Set :=
  | fB                 (* B: unsigned char *)
  | fH                 (* H: unsigned short *)
  | fs (n : nat).      (* ns: n bytes *)

Inductive field : Set :=
  | VInt (n : Z)
  | VBytes (b : bytes).

Definition code_size (c : fmt_code) : nat :=
  match c with
  | fB => 1
  | fH => 2
  | fs n => n
  end.

Definition calcsize (fmt : list fmt_code) : Z :=
  Z.of_nat (list_sum (map code_size fmt)).

Fixpoint unpack_fields (fmt : list fmt_code) (b : bytes) : list field :=
  match fmt with
  | [] => []
  | c :: fmt' =>
      let raw := firstn (code_size c) b in
      (match c with
       | fB | fH => VInt (from_uint8 raw)
       | fs _ => VBytes raw
       end) :: unpack_fields fmt' (skipn (code_size c) b)
  end.

(** [struct.unpack(fmt, b)]: the buffer must have exactly the size of the
    format. *)
Definition unpack (fmt : list fmt_code) (b : bytes) : result (list field) :=
  if len b =? calcsize fmt then ret (unpack_fields fmt b) else raise struct_error.

(** ** ServerHello *)

Record ServerHello : Set := mkServerHello {
  protocol : Protocol;
  cipher_suite : CipherSuite
}.

(** ["!BHH"], ["!BB"] and ["!BHHB3sH32sB"]. *)
Definition alert_header_format : list fmt_code := [fB; fH; fH].
Definition alert_body_format : list fmt_code := [fB; fB].
Definition begin_format : list fmt_code := [fB; fH; fH; fB; fs 3; fH; fs 32; fB].

(** [ServerHello.from_packet]. *)
Definition from_packet (packet : bytes) : result ServerHello :=
  match packet with
  | [] => raise (ValueError Empty_response)
  | packet_0 :: _ =>
      if byte_to_Z packet_0 =? 0x15 then
        (* Alert record *)
        hdr <- unpack alert_header_format (slice_to packet 5) ;;
        match hdr with
        | [VInt record_type; VInt legacy_record_version; VInt length] =>
            assert_ (record_type =? 0x15) ;;;
            body <- unpack alert_body_format (slice packet 5 7) ;;
            match body with
            | [VInt alert_level_id; VInt alert_description_id] =>
                version <- to_uint16 legacy_record_version ;;
                p <- enum_call (A:=Protocol) version ;;
                l <- enum_call (A:=AlertLevel) alert_level_id ;;
                a <- enum_call (A:=AlertDescription) alert_description_id ;;
                raise (ServerError p l a)
            | _ => raise (ValueError Unpack_arity)
            end
        | _ => raise (ValueError Unpack_arity)
        end
      else
        assert_ (byte_to_Z packet_0 =? 0x16) ;;;
        let begin_length := calcsize begin_format in
        let begin_packet := slice_to packet begin_length in
        flds <- unpack begin_format begin_packet ;;
        match flds with
        | [VInt record_type; VInt legacy_record_version; VInt handshake_length;
           VInt handshake_type; VBytes server_hello_length;
           VInt server_version_int; VBytes server_random;
           VInt session_id_length] =>
            assert_ (record_type =? 0x16) ;;;
            assert_ (in_list legacy_record_version [0x0301; 0x0302; 0x0303]) ;;;
            assert_ (handshake_type =? 0x02) ;;;
            assert_ (in_list server_version_int [0x0301; 0x0302; 0x0303]) ;;;
            assert_ (in_list session_id_length [0; 0x20]) ;;;
            let cipher_suite_start := begin_length + session_id_length in
            let cipher_suite_id := slice packet cipher_suite_start (cipher_suite_start + 2) in
            version <- to_uint16 server_version_int ;;
            p <- enum_call (A:=Protocol) version ;;
            c <- enum_call (A:=CipherSuite) cipher_suite_id ;;
            ret (mkServerHello p c)
        | _ => raise (ValueError Unpack_arity)
        end
  end.

(** ** ClientHello *)

Record ClientHello : Type := mkClientHello {
  server_name : str;
  allowed_protocols : list Protocol;
  allowed_cipher_suites : list CipherSuite
}.

(** [s.encode("ascii")]: one byte per code point, [UnicodeEncodeError] at
    the first code point above 127. *)
Fixpoint encode_ascii (s : str) : result bytes :=
  match s with
  | [] => ret []
  | c :: s' =>
      if (c <? 128)%N
      then rest <- encode_ascii s' ;; ret (byte_of_N c :: rest)
      else raise UnicodeEncodeError
  end.

(** [a > b] on bytes objects: lexicographic on the unsigned bytes, a proper
    prefix being smaller. *)
Fixpoint bytes_gtb (a b : bytes) : bool :=
  match a, b with
  | [], _ => false
  | _ :: _, [] => true
  | x :: a', y :: b' =>
      if (Byte.to_N y <? Byte.to_N x)%N then true
      else if (Byte.to_N x <? Byte.to_N y)%N then false
      else bytes_gtb a' b'
  end.

(** [max(l, key=key)]: the first item with the greatest key; [ValueError]
    on an empty sequence. *)
Definition py_max {A K : Type} (gtb : K -> K -> bool) (key : A -> K) (l : list A)
  : result A :=
  match l with
  | [] => raise (ValueError Max_of_empty)
  | x :: xs =>
      ret (fold_left (fun best item => if gtb (key item) (key best) then item else best)
                     xs x)
  end.

Definition curves : bytes :=
  concat [
    [x00; x1d];  (* Curve "x25519". *)
    [x00; x17];  (* Curve "secp256r1". *)
    [x00; x1e];  (* Curve "x448". *)
    [x00; x18];  (* Curve "secp384r1". *)
    [x00; x19];  (* Curve "secp521r1". *)
    [x01; x00];  (* Curve "ffdhe2048". *)
    [x01; x01];  (* Curve "ffdhe3072". *)
    [x01; x02];  (* Curve "ffdhe4096". *)
    [x01; x03];  (* Curve "ffdhe6144". *)
    [x01; x04]   (* Curve "ffdhe8192". *)
  ].

Definition signature_algorithms : bytes :=
  concat [
    [x04; x03];  (* ECDSA-SECP256r1-SHA256 *)
    [x05; x03];  (* ECDSA-SECP384r1-SHA384 *)
    [x06; x03];  (* ECDSA-SECP521r1-SHA512 *)
    [x08; x07];  (* ED25519 *)
    [x08; x08];  (* ED448 *)
    [x08; x09];  (* RSA-PSS-PSS-SHA256 *)
    [x08; x0a];  (* RSA-PSS-PSS-SHA384 *)
    [x08; x0b];  (* RSA-PSS-PSS-SHA512 *)
    [x08; x04];  (* RSA-PSS-RSAE-SHA256 *)
    [x08; x05];  (* RSA-PSS-RSAE-SHA384 *)
    [x08; x06];  (* RSA-PSS-RSAE-SHA512 *)
    [x04; x01];  (* RSA-PKCS1-SHA256 *)
    [x05; x01];  (* RSA-PKCS1-SHA384 *)
    [x06; x01];  (* RSA-PKCS1-SHA512 *)
    [x02; x01];  (* RSA-PKCS1-SHA1 *)
    [x02; x03]   (* ECDSA-SHA1 *)
  ].

(** The two extensions the source writes as byte literals. *)
Definition psk_key_exchange_modes_extension : bytes :=
  [x00; x2d; x00; x02; x01; x01].

Definition key_share_extension : bytes :=
  [x00; x33; x00; x26; x00; x24; x00; x1d; x00; x20;
   x35; x80; x72; xd6; x36; x58; x80; xd1; xae; xea; x32; x9a; xdf; x91;
   x21; x38; x38; x51; xed; x21; xa2; x8e; x3b; x75; xe9; x65; xd0; xd2;
   xcd; x16; x62; x54].

Definition client_random : bytes :=
  [x00; x01; x02; x03; x04; x05; x06; x07; x08; x09; x0a; x0b; x0c; x0d;
   x0e; x0f; x10; x11; x12; x13; x14; x15; x16; x17; x18; x19; x1a; x1b;
   x1c; x1d; x1e; x1f].

Definition legacy_session_id : bytes :=
  [xe0; xe1; xe2; xe3; xe4; xe5; xe6; xe7; xe8; xe9; xea; xeb; xec; xed;
   xee; xef; xf0; xf1; xf2; xf3; xf4; xf5; xf6; xf7; xf8; xf9; xfa; xfb;
   xfc; xfd; xfe; xff].

(** [Protocol.TLS_1_3 in self.allowed_protocols]. *)
Definition offers_TLS_1_3 (self : ClientHello) : bool :=
  if in_dec Protocol_eq_dec TLS_1_3 (allowed_protocols self) then true else false.

(** Lines 180-190 of [make_packet]: the local [supported_version_extension]. *)
Definition supported_version_extension (self : ClientHello) : result bytes :=
  if offers_TLS_1_3 self then
    (* This extension is only available in TLS 1.3. *)
    let supported_versions := concat (map value (allowed_protocols self)) in
    ext_len <- to_uint16 (len supported_versions + 1) ;;
    list_len <- to_uint8 (len supported_versions) ;;
    ret (concat [
      [x00; x2b];      (* Extension type: supported version. *)
      ext_len;         (* Length of extension data. *)
      list_len;        (* Supported versions length. *)
      supported_versions
    ])
  else ret [].

(** Lines 192-246 of [make_packet]: the local [extensions]. *)
Definition extensions (self : ClientHello) : result bytes :=
  supported_version_extension <- supported_version_extension self ;;
  sni_ext_len <- to_uint16 (len (server_name self) + 5) ;;
  sni_list_len <- to_uint16 (len (server_name self) + 3) ;;
  sni_name_len <- to_uint16 (len (server_name self)) ;;
  sni_name <- encode_ascii (server_name self) ;;
  groups_ext_len <- to_uint16 (len curves + 2) ;;
  groups_list_len <- to_uint16 (len curves) ;;
  sig_ext_len <- to_uint16 (len signature_algorithms + 2) ;;
  sig_list_len <- to_uint16 (len signature_algorithms) ;;
  ret (concat [
    [x00; x00];        (* Extension type: server_name. *)
    sni_ext_len;       (* Length of extension data. *)
    sni_list_len;      (* Length of server_name list. *)
    [x00];             (* Name type: host_name. *)
    sni_name_len;      (* Length of host_name. *)
    sni_name;

    [x00; x05];        (* Extension type: status_request. *)
    [x00; x05];        (* Length of extension data. *)
    [x01];             (* Certificate status type: OCSP. *)
    [x00; x00];        (* Responder ID list length. *)
    [x00; x00];        (* Request extension information length. *)

    [x00; x0b];        (* Extension type: EC point formats. *)
    [x00; x04];        (* Length of extension data. *)
    [x03];             (* Length of EC point formats list. *)
    [x00];             (* EC point format: uncompressed. *)
    [x01];             (* EC point format: ansiX962_compressed_prime. *)
    [x02];             (* EC point format: ansiX962_compressed_char2. *)

    [x00; x0a];        (* Extension type: supported groups. *)
    groups_ext_len;    (* Length of extension data. *)
    groups_list_len;   (* Length of supported groups list. *)
    curves;

    [x00; x23];        (* Extension type: session ticket. *)
    [x00; x00];        (* No session ticket data follows. *)

    [x00; x16];        (* Extension type: encrypt-then-MAC. *)
    [x00; x00];        (* Length of extension data. *)

    [x00; x17];        (* Extension type: extended master secret. *)
    [x00; x00];        (* No extension data follows. *)

    [x00; x0d];        (* Extension type: signature algorithms. *)
    sig_ext_len;       (* Length of extension data. *)
    sig_list_len;      (* Length of algorithm list. *)
    signature_algorithms;

    [xff; x01];        (* Extension type: renegotiation_info. *)
    [x00; x01];        (* Length of extension data. *)
    [x00];             (* Renegotiation info length. *)

    [x00; x12];        (* Extension type: SCT. *)
    [x00; x00];        (* Length of extension data. *)

    supported_version_extension;   (* Present only in TLS 1.3. *)

    (* TODO: PSK key exchange modes extension. *)
    psk_key_exchange_modes_extension;

    (* TODO: key share extension. *)
    key_share_extension
  ]).

(** Lines 248-250: the local [client_hello_version] after the TLS 1.3 test. *)
Definition client_hello_version (self : ClientHello) : result Protocol :=
  v <- py_max bytes_gtb value (allowed_protocols self) ;;
  if Protocol_eq_dec v TLS_1_3 then ret TLS_1_2 else ret v.

(** Line 270: the local [record_version]. *)
Definition record_version (client_hello_version : Protocol) : Protocol :=
  if Protocol_eq_dec client_hello_version SSLv3 then SSLv3 else TLS_1_0.

(** [ClientHello.make_packet]. *)
Definition make_packet (self : ClientHello) : result bytes :=
  let cipher_suites := concat (map value (allowed_cipher_suites self)) in
  extensions <- extensions self ;;
  client_hello_version <- client_hello_version self ;;
  cipher_suites_len <- to_uint16 (len cipher_suites) ;;
  extensions_len <- to_uint16 (len extensions) ;;
  let client_hello := concat [
    value client_hello_version;  (* Legacy client version: max TLS 1.2. *)
    client_random;               (* "Random". *)
    [x20];                       (* Legacy session ID length. *)
    legacy_session_id;           (* Legacy session ID. *)
    cipher_suites_len;
    cipher_suites;
    [x01];                       (* Legacy compression methods length. *)
    [x00];                       (* Legacy compression method: null. *)
    extensions_len;
    extensions
  ] in
  client_hello_len <- to_uint24 (len client_hello) ;;
  let handshake := concat [
    [x01];                       (* Handshake type: Client Hello. *)
    client_hello_len;
    client_hello
  ] in
  let record_version := record_version client_hello_version in
  handshake_len <- to_uint16 (len handshake) ;;
  let record := concat [
    [x16];                       (* Record type: handshake. *)
    value record_version;        (* Legacy record version: max TLS 1.0. *)
    handshake_len;
    handshake
  ] in
  ret record.

(** ** What the driver calls outside the program

    [int] on a [str] ([None] is its [ValueError]) and the socket calls of
    [ClientHello.send]. The network, with the servers behind it, is a state
    [World] that every socket call may read and change; a failed call is an
    [OSError]. *)

Class Runtime : Type := {
  int : str -> option Z;
  Timeout : Type;
  World : Type;
  (* socket.create_connection((host, port), timeout=timeout) *)
  create_connection : World -> str -> Z -> Timeout -> World * bool;
  (* s.send(packet) followed by s.recv(4096) *)
  send_recv : World -> bytes -> World * option bytes;
  (* leaving the [with] block *)
  close : World -> World
}.

(** [ClientHello.send]. The packet is built once the connection is open. *)
Definition send `{Runtime} (self : ClientHello) (port : Z) (server_name_arg : option str)
    (timeout : Timeout) (w : World) : World * result ServerHello :=
  let host :=
    match server_name_arg with
    | None => server_name self
    | Some name => name
    end in
  let (w1, connected) := create_connection w host port timeout in
  if connected then
    match make_packet self with
    | inl e => (close w1, inl e)
    | inr packet =>
        let (w2, received) := send_recv w1 packet in
        (close w2,
         match received with
         | Some response => from_packet response
         | None => raise OSError
         end)
    end
  else (w1, raise OSError).

Definition colon : N := 58%N.

(** [sep in s]. *)
Definition contains (sep : N) (s : str) : bool := existsb (N.eqb sep) s.

(** [s.split(sep, 1)]: at most one split, at the first separator. *)
Fixpoint split_once (sep : N) (s : str) : list str :=
  match s with
  | [] => [[]]
  | c :: s' =>
      if (c =? sep)%N then [[]; s']
      else
        match split_once sep s' with
        | head :: tail => (c :: head) :: tail
        | [] => [[c]]
        end
  end.

(** [_parse_host]. *)
Definition _parse_host `{Runtime} (host : str) (port : Z) : result (str * Z) :=
  if contains colon host then
    match split_once colon host with
    | [server_name; port_str] =>
        match int port_str with
        | Some n => ret (server_name, n)
        | None => raise (ValueError Invalid_literal_for_int)
        end
    | _ => raise (ValueError Unpack_arity)
    end
  else ret (host, port).

(** [l.remove(x)]: drops the first occurrence, [ValueError] when there is
    none. *)
Fixpoint py_remove (x : CipherSuite) (l : list CipherSuite) : result (list CipherSuite) :=
  match l with
  | [] => raise (ValueError Not_in_list)
  | y :: l' =>
      if CipherSuite_eq_dec y x then ret l'
      else l'' <- py_remove x l' ;; ret (y :: l'')
  end.

(** How one pass through the body of [while True] ends. *)
Inductive outcome : Type :=
  | Continue (remaining_cipher_suites : list CipherSuite)
  | Break
  | Raise (e : exn).

(** One pass through the loop body of [enumerate_subset], on the shared
    [accepted_cipher_suites] and the worker's own [remaining_cipher_suites]. *)
Definition loop_body `{Runtime} (server_name : str) (protocol : Protocol) (port : Z)
    (timeout : Timeout) (w : World) (accepted_cipher_suites : list CipherSuite)
    (remaining_cipher_suites : list CipherSuite)
  : World * list CipherSuite * outcome :=
  let client_hello := mkClientHello server_name [protocol] remaining_cipher_suites in
  let (w', r) := send client_hello port None timeout w in
  match r with
  | inl (ServerError p l alert) =>
      if AlertDescription_eq_dec alert handshake_failure
      then (w', accepted_cipher_suites, Break)
      else (w', accepted_cipher_suites, Raise (ServerError p l alert))
  | inl e => (w', accepted_cipher_suites, Raise e)
  | inr server_hello =>
      let accepted' := accepted_cipher_suites ++ [cipher_suite server_hello] in
      match py_remove (cipher_suite server_hello) remaining_cipher_suites with
      | inr remaining' => (w', accepted', Continue remaining')
      | inl e => (w', accepted', Raise e)
      end
  end.

(** ** The thread pool

    [pool.map(enumerate_subset, cipher_suite_parts)] runs one call of
    [enumerate_subset] per part. A call is [Running] on its part until its
    loop breaks or raises. The threads interleave at the passes of the loop
    body: a schedule names, pass by pass, the call that takes the next one.
    [map] returns when every call has ended, and raises the first exception
    a call raised. *)

Inductive worker : Type :=
  | Running (remaining_cipher_suites : list CipherSuite)
  | Ended.

Record pool `{Runtime} : Type := mkPool {
  world : World;
  accepted_cipher_suites : list CipherSuite;
  workers : list worker;
  first_raised : option exn
}.

Arguments mkPool {_} _ _ _ _.

Fixpoint set_nth {A : Type} (i : nat) (x : A) (l : list A) : list A :=
  match l, i with
  | [], _ => []
  | _ :: l', O => x :: l'
  | y :: l', S i' => y :: set_nth i' x l'
  end.

Section Pool.
Context `{Runtime}.
Variables (server_name : str) (protocol : Protocol) (port : Z) (timeout : Timeout).

(** Call [i] takes one pass of its loop; a call that has ended does
    nothing. *)
Definition step (i : nat) (st : pool) : pool :=
  match nth_error (workers st) i with
  | Some (Running remaining) =>
      let '(w', accepted', out) :=
        loop_body server_name protocol port timeout (world st)
                  (accepted_cipher_suites st) remaining in
      mkPool w' accepted'
        (set_nth i (match out with Continue remaining' => Running remaining' | _ => Ended end)
                 (workers st))
        (match first_raised st, out with
         | None, Raise e => Some e
         | earlier, _ => earlier
         end)
  | _ => st
  end.

Definition run_schedule (schedule : list nat) (st : pool) : pool :=
  fold_left (fun st i => step i st) schedule st.

Fixpoint steps (n : nat) (i : nat) (st : pool) : pool :=
  match n with
  | O => st
  | S n' => steps n' i (step i st)
  end.

(** Call [i] runs until it ends: every pass that continues removes one
    cipher suite from its part. *)
Definition run_to_end (i : nat) (st : pool) : pool :=
  match nth_error (workers st) i with
  | Some (Running remaining) => steps (S (length remaining)) i st
  | _ => st
  end.

(** [map] waits for the calls still running. *)
Definition join (st : pool) : pool :=
  fold_left (fun st i => run_to_end i st) (seq 0 (length (workers st))) st.

Definition pool_map (schedule : list nat) (w : World)
    (accepted : list CipherSuite) (parts : list (list CipherSuite)) : pool :=
  join (run_schedule schedule (mkPool w accepted (map Running parts) None)).
End Pool.

(** [range(n)]. *)
Definition range (n : Z) : list Z := map Z.of_nat (seq 0 (Z.to_nat n)).

(** [enumerate(l)]. *)
Definition enumerate {A : Type} (l : list A) : list (Z * A) :=
  combine (map Z.of_nat (seq 0 (length l))) l.

(** Line 322. *)
Definition cipher_suite_parts (max_workers : Z) : list (list CipherSuite) :=
  map (fun n =>
         map snd (filter (fun ic => fst ic mod max_workers =? n)
                         (enumerate (members (A:=CipherSuite)))))
      (range max_workers).

(** [enumerate_ciphers_suites], with the schedule of its thread pool and the
    network it runs against. [ThreadPool(n)] is a [ValueError] for [n < 1]. *)
Definition enumerate_ciphers_suites `{Runtime} (schedule : list nat) (w : World)
    (host : str) (protocol : Protocol) (port : Z) (max_workers : Z)
    (timeout : Timeout) : World * result (list CipherSuite) :=
  match _parse_host host port with
  | inl e => (w, inl e)
  | inr (server_name, port) =>
      let cipher_suite_parts := cipher_suite_parts max_workers in
      if max_workers <? 1 then (w, raise (ValueError Pool_size))
      else
        let st := pool_map server_name protocol port timeout schedule w
                           [] cipher_suite_parts in
        (world st,
         match first_raised st with
         | Some e => raise e
         | None =>
             match accepted_cipher_suites st with
             | [] => raise (ValueError (No_cipher_suite_accepted protocol))
             | _ :: _ => ret (accepted_cipher_suites st)
             end
         end)
  end.

(** ** Definitions used to state the properties *)

(** A handshake record as a server would send it: a ServerHello whose
    [server_version] field encodes [p] and whose cipher-suite code follows
    the session ID; the two length fields, the random, the session ID and
    whatever follows the cipher suite are free. *)
Definition synthetic_server_hello (record_version : Protocol)
    (handshake_length server_hello_length : bytes) (p : Protocol)
    (server_random session_id : bytes) (c : CipherSuite) (tail : bytes) : bytes :=
  concat [
    [x16];
    value record_version;
    handshake_length;
    [x02];
    server_hello_length;
    value p;
    server_random;
    [byte_of_Z (len session_id)];
    session_id;
    value c;
    tail
  ].

(** The checks of lines 126-129 on the unpacked fields. *)
Definition passes_checks (legacy_record_version handshake_type server_version_int
    session_id_length : Z) : Prop :=
  In legacy_record_version [0x0301; 0x0302; 0x0303]
  /\ handshake_type = 0x02
  /\ In server_version_int [0x0301; 0x0302; 0x0303]
  /\ In session_id_length [0; 0x20].

(** ** Definitions used to state and prove the properties, continued *)

(** Peels the first element off a list known to be long enough. *)
Ltac peel l H :=
  destruct l as [| ? l]; [ simpl in H; lia | simpl in H ].

Ltac peel_n n l H :=
  match n with
  | O => idtac
  | S ?n' => peel l H; peel_n n' l H
  end.

(** What C5 says of alert records: every buffer that starts with 0x15 makes
    [from_packet] raise a [ServerError]. *)
Definition alert_raises_ServerError (packet : bytes) : Prop :=
  hd_error packet = Some x15 ->
  exists p l a, from_packet packet = inl (ServerError p l a).

(** An extension on the wire: {type: uint16, length: uint16, payload}. *)
Definition extension_block (ext : Z * bytes) : bytes :=
  be_bytes 2 (fst ext) ++ be_bytes 2 (len (snd ext)) ++ snd ext.

(** Reads a sequence of extension blocks back; [None] when the bytes are not
    such a sequence. Every block takes at least four bytes, so the length
    of the input is fuel enough. *)
Fixpoint parse_extensions_fuel (fuel : nat) (b : bytes) : option (list (Z * bytes)) :=
  match b with
  | [] => Some []
  | t1 :: t2 :: l1 :: l2 :: rest =>
      match fuel with
      | O => None
      | S fuel' =>
          let n := Z.to_nat (from_uint16 [l1; l2]) in
          if (n <=? length rest)%nat
          then option_map (cons (from_uint16 [t1; t2], firstn n rest))
                          (parse_extensions_fuel fuel' (skipn n rest))
          else None
      end
  | _ => None
  end.

Definition parse_extensions (b : bytes) : option (list (Z * bytes)) :=
  parse_extensions_fuel (length b) b.

(** The extension types of a block sequence, in order. *)
Definition extension_types (b : bytes) : option (list Z) :=
  option_map (map fst) (parse_extensions b).

(** IANA extension types. *)
Definition ext_server_name : Z := 0.
Definition ext_status_request : Z := 5.
Definition ext_supported_groups : Z := 10.
Definition ext_ec_point_formats : Z := 11.
Definition ext_signature_algorithms : Z := 13.
Definition ext_signed_certificate_timestamp : Z := 18.
Definition ext_encrypt_then_mac : Z := 22.
Definition ext_extended_master_secret : Z := 23.
Definition ext_session_ticket : Z := 35.
Definition ext_supported_versions : Z := 43.
Definition ext_psk_key_exchange_modes : Z := 45.
Definition ext_key_share : Z := 51.
Definition ext_renegotiation_info : Z := 65281.

(** The extensions [make_packet] writes, as (type, payload) pairs. *)
Definition extension_list (self : ClientHello) : list (Z * bytes) :=
  let n := len (server_name self) in
  [ (ext_server_name,
     be_bytes 2 (n + 3) ++ [x00] ++ be_bytes 2 n ++ map byte_of_N (server_name self));
    (ext_status_request, [x01; x00; x00; x00; x00]);
    (ext_ec_point_formats, [x03; x00; x01; x02]);
    (ext_supported_groups, be_bytes 2 (len curves) ++ curves);
    (ext_session_ticket, []);
    (ext_encrypt_then_mac, []);
    (ext_extended_master_secret, []);
    (ext_signature_algorithms, be_bytes 2 (len signature_algorithms) ++ signature_algorithms);
    (ext_renegotiation_info, [x00]);
    (ext_signed_certificate_timestamp, []) ]
  ++ (if offers_TLS_1_3 self
      then [ (ext_supported_versions,
              be_bytes 1 (2 * len (allowed_protocols self))
              ++ concat (map value (allowed_protocols self))) ]
      else [])
  ++ [ (ext_psk_key_exchange_modes, [x01; x01]);
       (ext_key_share, skipn 4 key_share_extension) ].

Definition supported_versions_blocks (self : ClientHello) : list (Z * bytes) :=
  if offers_TLS_1_3 self
  then [ (ext_supported_versions,
          be_bytes 1 (2 * len (allowed_protocols self))
          ++ concat (map value (allowed_protocols self))) ]
  else [].

(** Size of the supported_versions extension. *)
Definition supported_versions_size (self : ClientHello) : Z :=
  if offers_TLS_1_3 self then 5 + 2 * len (allowed_protocols self) else 0.

(** Size of the handshake message [make_packet] builds: 236 fixed bytes,
    the cipher suites, the server name and the supported_versions
    extension. *)
Definition handshake_size (self : ClientHello) : Z :=
  236 + 2 * len (allowed_cipher_suites self) + len (server_name self)
  + supported_versions_size self.

(** The record [make_packet] returns, given the legacy version [v], the
    cipher-suite bytes and the extension bytes. *)
Definition client_hello_layout (v : Protocol) (cipher_suites ext : bytes) : bytes :=
  value v ++ client_random ++ [x20] ++ legacy_session_id
  ++ be_bytes 2 (len cipher_suites) ++ cipher_suites ++ [x01] ++ [x00]
  ++ be_bytes 2 (len ext) ++ ext.

Definition record_layout (v : Protocol) (cipher_suites ext : bytes) : bytes :=
  [x16] ++ value (record_version v)
  ++ be_bytes 2 (len ([x01] ++ be_bytes 3 (len (client_hello_layout v cipher_suites ext))
                      ++ client_hello_layout v cipher_suites ext))
  ++ [x01] ++ be_bytes 3 (len (client_hello_layout v cipher_suites ext))
  ++ client_hello_layout v cipher_suites ext.

(** [m] is a greatest element of [l] for the order of the wire values. *)
Definition is_maximum (m : Protocol) (l : list Protocol) : Prop :=
  In m l /\ forall p, In p l -> bytes_gtb (value p) (value m) = false.

(** The lower of two protocol versions. *)
Definition lower (p q : Protocol) : Protocol :=
  if bytes_gtb (value p) (value q) then q else p.

(** Where the two legacy versions sit in a handshake record: the record
    header is {type: 1 byte, version: 2, length: 2}, the handshake header
    {type: 1, length: 3}, and the ClientHello body starts with its version. *)
Definition legacy_record_version_field (packet : bytes) : bytes := slice packet 1 3.
Definition legacy_client_version_field (packet : bytes) : bytes := slice packet 9 11.

(** "a.b" *)
Definition a_dot_b : str := [97; 46; 98]%N.

(** What C2 says of a ClientHello without TLS 1.3: none of
    supported_versions, psk_key_exchange_modes and key_share is among the
    extensions [make_packet] writes. *)
Definition no_TLS_1_3_extensions_without_TLS_1_3 (self : ClientHello) : Prop :=
  ~ In TLS_1_3 (allowed_protocols self) ->
  forall ext types,
    extensions self = inr ext ->
    extension_types ext = Some types ->
    ~ In ext_supported_versions types
    /\ ~ In ext_psk_key_exchange_modes types
    /\ ~ In ext_key_share types.

Definition ascii_encodable (s : str) : Prop := Forall (fun c => (c < 128)%N) s.

(** What C8 says: the invariants of the data model are enough for
    [make_packet] to return. *)
Definition make_packet_returns (self : ClientHello) : Prop :=
  allowed_protocols self <> [] ->
  allowed_cipher_suites self <> [] ->
  ascii_encodable (server_name self) ->
  exists packet, make_packet self = inr packet.

(** A server name of 65300 letters "a". *)
Definition long_server_name : str := repeat 97%N (Z.to_nat 65300).

(** [int] as far as the examples call it: the number a string of ASCII
    digits writes, and its [ValueError] on a string that holds a letter. *)
Fixpoint decimal_digits (s : str) (acc : Z) : option Z :=
  match s with
  | [] => Some acc
  | c :: s' =>
      if ((48 <=? c) && (c <=? 57))%N
      then decimal_digits s' (10 * acc + Z.of_N (c - 48))
      else None
  end.

Definition decimal (s : str) : option Z :=
  match s with
  | [] => None
  | _ :: _ => decimal_digits s 0
  end.

(** Every connection succeeds and receives the next response of a script;
    when the script is over the receive fails. *)
Definition scripted : Runtime := {|
  int := decimal;
  Timeout := unit;
  World := list bytes;
  create_connection := fun w _ _ _ => (w, true);
  send_recv := fun w _ =>
    match w with
    | [] => ([], None)
    | response :: w' => (w', Some response)
    end;
  close := fun w => w
|}.

Definition alert_record (l : AlertLevel) (a : AlertDescription) : bytes :=
  [x15; x03; x03; x00; x02; byte_of_Z (value l); byte_of_Z (value a)].

Definition server_hello_record (c : CipherSuite) : bytes :=
  synthetic_server_hello TLS_1_2 [x00; x4e] [x00; x00; x4a] TLS_1_2
    client_random legacy_session_id c [x00; x00; x00].

(** "example.com" and "example.com:8443" *)
Definition example_com : str :=
  [101; 120; 97; 109; 112; 108; 101; 46; 99; 111; 109]%N.
Definition example_com_8443 : str := example_com ++ [58; 56; 52; 52; 51]%N.

(** An Enum class whose call inverts [value]: no two members share a value
    and [members] lists every member once. *)
Definition one_to_one (A V : Type) `{PyEnum A V} : Prop :=
  (forall (m : A) (v : V), enum_call v = inr m <-> value m = v)
  /\ (forall m m' : A, value m = value m' -> m = m')
  /\ (forall m : A, In m members)
  /\ NoDup (members (A:=A)).

(** An alert record as a server sends it; the length field is free. *)
Definition synthetic_alert (p : Protocol) (length_field : bytes) (l : AlertLevel)
    (a : AlertDescription) (tail : bytes) : bytes :=
  concat [
    [x15];
    value p;
    length_field;
    [byte_of_Z (value l)];
    [byte_of_Z (value a)];
    tail
  ].

(** The two-byte codes of a cipher-suite list, read back. *)
Fixpoint decode_cipher_suites (b : bytes) : result (list CipherSuite) :=
  match b with
  | [] => ret []
  | b1 :: b2 :: rest =>
      c <- enum_call (A:=CipherSuite) [b1; b2] ;;
      cs <- decode_cipher_suites rest ;;
      ret (c :: cs)
  | [_] => raise struct_error
  end.

(** The cipher suites a ClientHello record offers: the uint16 length at
    offset 76 (after the record and handshake headers, the version, the
    random and the session ID) and the codes that follow it. *)
Definition offered_cipher_suites (packet : bytes) : result (list CipherSuite) :=
  decode_cipher_suites (slice packet 78 (78 + from_uint16 (slice packet 76 78))).

(** The cipher suites a call of [enumerate_subset] still has to offer. *)
Definition remaining_of (w : worker) : list CipherSuite :=
  match w with
  | Running remaining => remaining
  | Ended => []
  end.

(** ** A server to run the driver against *)

Definition supports (supported : list CipherSuite) (c : CipherSuite) : bool :=
  if in_dec CipherSuite_eq_dec c supported then true else false.

(** A server that supports the cipher suites [supported]: it answers a
    ClientHello with a ServerHello for the first cipher suite of the offer
    that it supports, and with a fatal handshake_failure alert when it
    supports none of them or cannot read the offer. *)
Definition server_reply (supported : list CipherSuite) (packet : bytes) : bytes :=
  match offered_cipher_suites packet with
  | inr offered =>
      match find (supports supported) offered with
      | Some c => server_hello_record c
      | None => alert_record FATAL handshake_failure
      end
  | inl _ => alert_record FATAL handshake_failure
  end.

(** A letter, a digit or a hyphen. *)
Definition is_letter_digit_hyphen (c : N) : bool :=
  (((48 <=? c) && (c <=? 57)) || ((65 <=? c) && (c <=? 90))
   || ((97 <=? c) && (c <=? 122)) || (c =? 45))%N.

Definition dot : N := 46%N.

(** The labels of a host name, [current] characters into the label being
    read: every label has 1 to 63 letters, digits and hyphens. *)
Fixpoint labels_ok (s : str) (current : nat) : bool :=
  match s with
  | [] => ((1 <=? current) && (current <=? 63))%nat
  | c :: s' =>
      if (c =? dot)%N
      then ((1 <=? current) && (current <=? 63))%nat && labels_ok s' 0
      else is_letter_digit_hyphen c && labels_ok s' (S current)
  end.

(** A host name the resolver takes: dot-separated labels of 1 to 63
    letters, digits and hyphens, at most 253 characters in all. (The IDNA
    encoding that [socket.create_connection] applies to the host raises
    [UnicodeError] on an empty label or one of more than 63 characters.) *)
Definition valid_host_name (host : str) : bool :=
  labels_ok host 0 && (length host <=? 253)%nat.

(** A TCP port one can connect to. *)
Definition valid_port (port : Z) : bool := (1 <=? port) && (port <=? 65535).

(** The network with such a server behind every valid host name and port;
    a connection to any other address fails. Its state counts the
    connections made. *)
Definition honest_server (supported : list CipherSuite) : Runtime := {|
  int := decimal;
  Timeout := unit;
  World := nat;
  create_connection := fun w host port _ =>
    if valid_host_name host && valid_port port then (S w, true) else (w, false);
  send_recv := fun w packet => (w, Some (server_reply supported packet));
  close := fun w => w
|}.

Definition has_ended (w : worker) : bool :=
  match w with
  | Ended => true
  | Running _ => false
  end.

(** What every pass against [honest_server supported] keeps, for any number
    [n] of workers: nothing has been raised, no list of cipher suites has
    grown, the accepted cipher suites with the supported ones still to
    offer are the supported cipher suites, and every connection either
    accepted a cipher suite or ended a worker. *)
Definition honest_invariant (supported : list CipherSuite) (n : nat)
    (st : pool (H:=honest_server supported)) : Prop :=
  first_raised st = None
  /\ length (workers st) = n
  /\ Forall (fun wk => (length (remaining_of wk) <= 22)%nat) (workers st)
  /\ Permutation
       (accepted_cipher_suites st
        ++ flat_map (fun wk => filter (supports supported) (remaining_of wk)) (workers st))
       (filter (supports supported) (members (A:=CipherSuite)))
  /\ world st
     = (length (accepted_cipher_suites st) + length (filter has_ended (workers st)))%nat.

(** What every pass keeps when there is one worker: the accepted cipher
    suites followed by the supported ones still to offer are the supported
    cipher suites in the order of the enumeration. *)
Definition honest_invariant_single (supported : list CipherSuite)
    (st : pool (H:=honest_server supported)) : Prop :=
  (exists remaining,
     workers st = [Running remaining]
     /\ (length remaining <= 22)%nat
     /\ accepted_cipher_suites st ++ filter (supports supported) remaining
        = filter (supports supported) (members (A:=CipherSuite)))
  \/ (workers st = [Ended]
      /\ accepted_cipher_suites st = filter (supports supported) (members (A:=CipherSuite))).

(** ** The addresses the driver connects to

    [logged R] is the runtime [R] with a log kept next to its network: every
    [socket.create_connection] call appends its address to the log, whether
    the connection is made or not; nothing else reads or writes the log. *)
Definition logged (R : Runtime) : Runtime := {|
  int := @int R;
  Timeout := @Timeout R;
  World := (@World R * list (str * Z))%type;
  create_connection := fun w host port timeout =>
    let (w', connected) := @create_connection R (fst w) host port timeout in
    ((w', snd w ++ [(host, port)]), connected);
  send_recv := fun w packet =>
    let (w', received) := @send_recv R (fst w) packet in
    ((w', snd w), received);
  close := fun w => (@close R (fst w), snd w)
|}.

(** The pool without the log. *)
Definition forget_log {R : Runtime} (st : pool (H:=logged R)) : pool (H:=R) :=
  mkPool (fst (world st)) (accepted_cipher_suites st) (workers st) (first_raised st).

(** The addresses of the [socket.create_connection] calls of one call of
    [enumerate_ciphers_suites], in the order of the calls. *)
Definition connections {R : Runtime} (schedule : list nat) (w : @World R)
    (host : str) (protocol : Protocol) (port : Z) (max_workers : Z)
    (timeout : @Timeout R) : list (str * Z) :=
  snd (fst (enumerate_ciphers_suites (H:=logged R) schedule (w, []) host protocol
              port max_workers timeout)).

(** The host string [a:b]. *)
Definition a_colon_b : str := [97; 58; 98]%N.

(** The host string [example.com:8443] at its first ':'. *)
Definition port_8443 : str := [56; 52; 52; 51]%N.

(** C10 as stated, for a host string with a ':': the string splits at its
    first ':' into a name and a port, and the call connects there, whatever
    the port argument is. *)
Definition connects_to_port_of_host (R : Runtime) (host : str) : Prop :=
  contains colon host = true ->
  exists (name port_str : str) (n : Z),
    host = name ++ colon :: port_str
    /\ contains colon name = false
    /\ forall schedule w protocol port max_workers timeout,
         1 <= max_workers ->
         let log := connections (R:=R) schedule w host protocol port max_workers
                      timeout in
         log <> [] /\ Forall (eq (name, n)) log.

(** ** Lemmas on the Python values *)

Lemma bind_inr {A B : Type} (c : result A) (k : A -> result B) (b : B) :
  bind c k = inr b -> exists a, c = inr a /\ k a = inr b.
Proof.
  destruct c as [e | a]; simpl; intros Hb; [discriminate | eauto].
Qed.

Lemma byte_of_N_to_N (b : byte) : byte_of_N (Byte.to_N b) = b.
Proof.
  unfold byte_of_N.
  pose proof (Byte.to_N_bounded b) as Hb.
  rewrite N.mod_small by lia.
  now rewrite Byte.of_to_N.
Qed.

Lemma to_N_byte_of_N (n : N) : Byte.to_N (byte_of_N n) = (n mod 256)%N.
Proof.
  unfold byte_of_N.
  destruct (Byte.of_N (n mod 256)) as [b |] eqn:E.
  - now apply Byte.to_of_N.
  - apply Byte.of_N_None_iff in E.
    pose proof (N.mod_upper_bound n 256). lia.
Qed.

Lemma byte_to_Z_range (b : byte) : 0 <= byte_to_Z b < 256.
Proof.
  unfold byte_to_Z. pose proof (Byte.to_N_bounded b). lia.
Qed.

Lemma byte_of_Z_to_Z (b : byte) : byte_of_Z (byte_to_Z b) = b.
Proof.
  unfold byte_of_Z.
  rewrite Z.mod_small by apply byte_to_Z_range.
  unfold byte_to_Z. rewrite N2Z.id. apply byte_of_N_to_N.
Qed.

Lemma byte_to_Z_of_Z (z : Z) : byte_to_Z (byte_of_Z z) = z mod 256.
Proof.
  unfold byte_to_Z, byte_of_Z.
  rewrite to_N_byte_of_N.
  pose proof (Z.mod_pos_bound z 256 ltac:(lia)) as Hz.
  rewrite N.mod_small by lia.
  lia.
Qed.

Lemma byte_to_Z_inj (a b : byte) : byte_to_Z a = byte_to_Z b -> a = b.
Proof.
  intros E. rewrite <- (byte_of_Z_to_Z a), <- (byte_of_Z_to_Z b). now rewrite E.
Qed.

Lemma len_nonneg {A : Type} (l : list A) : 0 <= len l.
Proof. unfold len. lia. Qed.

Lemma len_app {A : Type} (l l' : list A) : len (l ++ l') = len l + len l'.
Proof. unfold len. rewrite length_app. lia. Qed.

Lemma len_slice_to {A : Type} (b : list A) (j : Z) :
  0 <= j -> len (slice_to b j) = Z.min j (len b).
Proof.
  intros Hj. unfold slice_to, slice, len. simpl skipn.
  rewrite length_firstn. lia.
Qed.

(** ** The decoder on the two record types *)

Lemma unpack_short (fmt : list fmt_code) (packet : bytes) :
  len packet < calcsize fmt ->
  unpack fmt (slice_to packet (calcsize fmt)) = inl struct_error.
Proof.
  intros Hlen. unfold unpack.
  rewrite len_slice_to by (unfold calcsize; lia).
  destruct (Z.eqb_spec (Z.min (calcsize fmt) (len packet)) (calcsize fmt)); [lia | reflexivity].
Qed.

Lemma unpack_begin_format (packet : bytes) :
  (44 <= length packet)%nat ->
  unpack begin_format (slice_to packet (calcsize begin_format))
  = inr [VInt (from_uint8 (slice packet 0 1));
         VInt (from_uint16 (slice packet 1 3));
         VInt (from_uint16 (slice packet 3 5));
         VInt (from_uint8 (slice packet 5 6));
         VBytes (slice packet 6 9);
         VInt (from_uint16 (slice packet 9 11));
         VBytes (slice packet 11 43);
         VInt (from_uint8 (slice packet 43 44))].
Proof.
  intros Hlen.
  peel_n 44%nat packet Hlen.
  reflexivity.
Qed.

(** [from_packet] on a handshake record that holds the whole fixed prefix. *)
Lemma from_packet_handshake (packet : bytes) :
  hd_error packet = Some x16 ->
  (44 <= length packet)%nat ->
  from_packet packet =
    (assert_ (in_list (from_uint16 (slice packet 1 3)) [0x0301; 0x0302; 0x0303]) ;;;
     assert_ (from_uint8 (slice packet 5 6) =? 0x02) ;;;
     assert_ (in_list (from_uint16 (slice packet 9 11)) [0x0301; 0x0302; 0x0303]) ;;;
     assert_ (in_list (from_uint8 (slice packet 43 44)) [0; 0x20]) ;;;
     version <- to_uint16 (from_uint16 (slice packet 9 11)) ;;
     p <- enum_call (A:=Protocol) version ;;
     c <- enum_call (A:=CipherSuite)
            (slice packet (44 + from_uint8 (slice packet 43 44))
                          (44 + from_uint8 (slice packet 43 44) + 2)) ;;
     ret (mkServerHello p c)).
Proof.
  intros Hhd Hlen.
  destruct packet as [| b rest]; [discriminate |].
  injection Hhd as ->.
  unfold from_packet.
  change (byte_to_Z x16 =? 21) with false.
  change (byte_to_Z x16 =? 22) with true.
  cbv zeta.
  change (assert_ true) with (@ret unit tt).
  unfold bind at 1.
  unfold ret at 1.
  rewrite unpack_begin_format by assumption.
  unfold bind at 1.
  change (from_uint8 (slice (x16 :: rest) 0 1) =? 22) with true.
  change (assert_ true) with (@ret unit tt).
  unfold bind at 1, ret at 1.
  change (calcsize begin_format) with 44.
  reflexivity.
Qed.

Lemma to_uint16_from_uint16 (b1 b2 : byte) :
  to_uint16 (from_uint16 [b1; b2]) = inr [b1; b2].
Proof.
  pose proof (byte_to_Z_range b1) as H1.
  pose proof (byte_to_Z_range b2) as H2.
  assert (E : from_uint16 [b1; b2] = byte_to_Z b1 * 256 + byte_to_Z b2)
    by (unfold from_uint16, from_uint8; simpl fold_left; lia).
  rewrite E. clear E.
  unfold to_uint16, to_bytes.
  change (256 ^ Z.of_nat 2) with 65536.
  destruct (Z.leb_spec 0 (byte_to_Z b1 * 256 + byte_to_Z b2)); [| lia].
  destruct (Z.ltb_spec (byte_to_Z b1 * 256 + byte_to_Z b2) 65536); [| lia].
  simpl andb. cbv iota. unfold ret. f_equal.
  unfold be_bytes.
  change (256 ^ Z.of_nat 1) with 256.
  change (256 ^ Z.of_nat 0) with 1.
  rewrite Z.div_1_r.
  replace ((byte_to_Z b1 * 256 + byte_to_Z b2) / 256) with (byte_to_Z b1)
    by (apply Z.div_unique with (r := byte_to_Z b2); lia).
  rewrite byte_of_Z_to_Z.
  f_equal. f_equal.
  apply byte_to_Z_inj.
  rewrite byte_to_Z_of_Z.
  symmetry. apply Z.mod_unique with (q := byte_to_Z b1); lia.
Qed.

(** [from_packet] on an alert record that holds its seven bytes. *)
Lemma from_packet_alert (packet : bytes) :
  hd_error packet = Some x15 ->
  (7 <= length packet)%nat ->
  from_packet packet =
    (p <- enum_call (A:=Protocol) (slice packet 1 3) ;;
     l <- enum_call (A:=AlertLevel) (from_uint8 (slice packet 5 6)) ;;
     a <- enum_call (A:=AlertDescription) (from_uint8 (slice packet 6 7)) ;;
     raise (ServerError p l a)).
Proof.
  intros Hhd Hlen.
  destruct packet as [| b rest]; [discriminate |].
  injection Hhd as ->.
  simpl in Hlen.
  peel_n 6%nat rest Hlen.
  unfold from_packet.
  change (byte_to_Z x15 =? 21) with true. cbv iota.
  change (unpack alert_header_format (slice_to (x15 :: b :: b0 :: b1 :: b2 :: b3 :: b4 :: rest) 5))
    with (@inr exn _ [VInt 21; VInt (from_uint16 [b; b0]); VInt (from_uint16 [b1; b2])]).
  unfold bind at 1.
  change (assert_ (21 =? 21)) with (@ret unit tt).
  unfold bind at 1, ret at 1.
  change (unpack alert_body_format (slice (x15 :: b :: b0 :: b1 :: b2 :: b3 :: b4 :: rest) 5 7))
    with (@inr exn _ [VInt (from_uint8 [b3]); VInt (from_uint8 [b4])]).
  unfold bind at 1.
  rewrite to_uint16_from_uint16.
  reflexivity.
Qed.

Lemma from_packet_alert_short (packet : bytes) :
  hd_error packet = Some x15 ->
  (length packet < 7)%nat ->
  from_packet packet = inl struct_error.
Proof.
  intros Hhd Hlen.
  destruct packet as [| b rest]; [discriminate |].
  injection Hhd as ->.
  do 6 (destruct rest as [| ? rest]; [reflexivity |]).
  simpl in Hlen. lia.
Qed.

Lemma from_packet_handshake_short (packet : bytes) :
  hd_error packet = Some x16 ->
  (length packet < 44)%nat ->
  from_packet packet = inl struct_error.
Proof.
  intros Hhd Hlen.
  destruct packet as [| b rest]; [discriminate |].
  injection Hhd as ->.
  unfold from_packet.
  change (byte_to_Z x16 =? 21) with false.
  change (byte_to_Z x16 =? 22) with true.
  cbv zeta.
  change (assert_ true) with (@ret unit tt).
  unfold bind at 1, ret at 1.
  rewrite unpack_short; [reflexivity |].
  unfold len. change (calcsize begin_format) with 44. lia.
Qed.

(** ** Lemmas on enum calls *)

Lemma enum_call_inv {A V : Type} `{PyEnum A V} (v : V) (m : A) :
  enum_call v = inr m -> value m = v.
Proof.
  unfold enum_call.
  destruct (find _ members) as [m' |] eqn:E; [| discriminate].
  intros [= <-].
  apply find_some in E as [_ E].
  now destruct (value_eq_dec (value m') v).
Qed.


Lemma enum_call_cases {A V : Type} `{PyEnum A V} (v : V) :
  (exists m, enum_call v = inr m)
  \/ enum_call v = inl (ValueError (Not_a_valid class_of)).
Proof.
  unfold enum_call. destruct (find _ members); eauto.
Qed.

Lemma Protocol_call_value (p : Protocol) : enum_call (value p) = inr p.
Proof. destruct p; reflexivity. Qed.

Lemma CipherSuite_call_value (c : CipherSuite) : enum_call (value c) = inr c.
Proof. destruct c; reflexivity. Qed.

Lemma AlertLevel_call_value (l : AlertLevel) : enum_call (value l) = inr l.
Proof. destruct l; reflexivity. Qed.

Lemma AlertDescription_call_value (a : AlertDescription) : enum_call (value a) = inr a.
Proof. destruct a; reflexivity. Qed.

Lemma in_list_In (x : Z) (l : list Z) : in_list x l = true <-> In x l.
Proof.
  unfold in_list. rewrite existsb_exists. split.
  - intros (y & Hy & E). apply Z.eqb_eq in E. now subst.
  - intros Hx. exists x. split; [assumption | apply Z.eqb_refl].
Qed.


Lemma assert_false_bind {B : Type} (b : bool) (k : result B) :
  b = false -> (assert_ b ;;; k) = inl AssertionError.
Proof. now intros ->. Qed.

Lemma assert_bind_inr {B : Type} (b : bool) (k : result B) (r : B) :
  (assert_ b ;;; k) = inr r -> b = true /\ k = inr r.
Proof. destruct b; [auto | discriminate]. Qed.

(** ** Properties of the decoder *)

(** C3: on a buffer whose first byte is 0x16, [from_packet] returns only if
    the unpacked legacy_record_version is TLS 1.0/1.1/1.2, handshake_type
    is 0x02, server_version is TLS 1.0/1.1/1.2 and session_id_length is 0
    or 32; a buffer whose fields violate one of these checks fails with
    [AssertionError], and one too short to hold the fields fails with
    [struct.error]; neither produces a ServerHello. *)
Theorem from_packet_handshake_checks (packet : bytes) :
  hd_error packet = Some x16 ->
  (forall hello, from_packet packet = inr hello ->
     exists record_type legacy_record_version handshake_length handshake_type
            server_hello_length server_version_int server_random session_id_length,
       unpack begin_format (slice_to packet (calcsize begin_format))
       = inr [VInt record_type; VInt legacy_record_version; VInt handshake_length;
              VInt handshake_type; VBytes server_hello_length;
              VInt server_version_int; VBytes server_random; VInt session_id_length]
       /\ passes_checks legacy_record_version handshake_type server_version_int
                        session_id_length)
  /\ (forall record_type legacy_record_version handshake_length handshake_type
             server_hello_length server_version_int server_random session_id_length,
       unpack begin_format (slice_to packet (calcsize begin_format))
       = inr [VInt record_type; VInt legacy_record_version; VInt handshake_length;
              VInt handshake_type; VBytes server_hello_length;
              VInt server_version_int; VBytes server_random; VInt session_id_length] ->
       ~ passes_checks legacy_record_version handshake_type server_version_int
                       session_id_length ->
       from_packet packet = inl AssertionError)
  /\ (len packet < calcsize begin_format -> from_packet packet = inl struct_error).
Proof.
  intros Hhd.
  destruct (Nat.lt_ge_cases (length packet) 44) as [Hshort | Hlong].
  - pose proof (from_packet_handshake_short packet Hhd Hshort) as E.
    assert (Hlen : len packet < calcsize begin_format)
      by (unfold len; change (calcsize begin_format) with 44; lia).
    repeat split.
    + intros hello Hok. congruence.
    + intros. rewrite unpack_short in * by assumption. discriminate.
    + intros _. exact E.
  - rewrite (from_packet_handshake packet Hhd Hlong).
    rewrite (unpack_begin_format packet Hlong).
    repeat split.
    + intros hello Hok.
      apply assert_bind_inr in Hok as [H1 Hok].
      apply assert_bind_inr in Hok as [H2 Hok].
      apply assert_bind_inr in Hok as [H3 Hok].
      apply assert_bind_inr in Hok as [H4 Hok].
      do 8 eexists. split; [reflexivity |].
      unfold passes_checks.
      rewrite <- !in_list_In. rewrite <- Z.eqb_eq. auto.
    + intros rt lrv hl ht shl sv rnd sid [= _ <- _ <- _ <- _ <-] Hbad.
      destruct (in_list (from_uint16 (slice packet 1 3)) [769; 770; 771]) eqn:H1;
        [| reflexivity].
      destruct (from_uint8 (slice packet 5 6) =? 2) eqn:H2; [| reflexivity].
      destruct (in_list (from_uint16 (slice packet 9 11)) [769; 770; 771]) eqn:H3;
        [| reflexivity].
      destruct (in_list (from_uint8 (slice packet 43 44)) [0; 32]) eqn:H4;
        [| reflexivity].
      exfalso. apply Hbad. unfold passes_checks.
      rewrite <- !in_list_In. rewrite <- Z.eqb_eq. auto.
    + unfold len. change (calcsize begin_format) with 44. lia.
Qed.

Lemma from_packet_handshake_checks_witness :
  (exists legacy_record_version handshake_type server_version_int session_id_length,
     passes_checks legacy_record_version handshake_type server_version_int
                   session_id_length)
  /\ from_packet
       (synthetic_server_hello TLS_1_2 [x00; x2f] [x00; x00; x2b] TLS_1_2
          client_random [xaa] TLS_AES_128_GCM_SHA256 [])
     = inl AssertionError.
Proof.
  split.
  - destruct (from_packet_handshake_checks
                (synthetic_server_hello TLS_1_2 [x00; x4e] [x00; x00; x4a] TLS_1_2
                   client_random legacy_session_id TLS_AES_128_GCM_SHA256 [])
                eq_refl) as (Hok & _ & _).
    destruct (Hok (mkServerHello TLS_1_2 TLS_AES_128_GCM_SHA256) eq_refl)
      as (_ & lrv & _ & ht & _ & sv & _ & sid & _ & Hchecks).
    exists lrv, ht, sv, sid. exact Hchecks.
  - destruct (from_packet_handshake_checks
                (synthetic_server_hello TLS_1_2 [x00; x2f] [x00; x00; x2b] TLS_1_2
                   client_random [xaa] TLS_AES_128_GCM_SHA256 [])
                eq_refl) as (_ & Hbad & _).
    eapply Hbad.
    + vm_compute. reflexivity.
    + unfold passes_checks. simpl. intros (_ & _ & _ & [Hsid | [Hsid | []]]); discriminate.
Defined.

(** C4: for every protocol [p] among TLS 1.0/1.1/1.2, every cipher suite
    [c] and every session ID of length 0 or 32, decoding a well-formed
    handshake record whose server_version field encodes [p] and whose
    cipher-suite code follows the session ID yields
    [ServerHello(protocol=p, cipher_suite=c)]. *)
Theorem from_packet_synthetic_round_trip (record_version p : Protocol) (c : CipherSuite)
    (handshake_length server_hello_length server_random session_id tail : bytes) :
  In record_version [TLS_1_0; TLS_1_1; TLS_1_2] ->
  In p [TLS_1_0; TLS_1_1; TLS_1_2] ->
  length handshake_length = 2%nat ->
  length server_hello_length = 3%nat ->
  length server_random = 32%nat ->
  In (length session_id) [0%nat; 32%nat] ->
  from_packet (synthetic_server_hello record_version handshake_length
                 server_hello_length p server_random session_id c tail)
  = inr (mkServerHello p c).
Proof.
  intros Hv Hp Hhl Hshl Hrnd Hsid.
  peel_n 2%nat handshake_length Hhl.
  destruct handshake_length; [| discriminate].
  peel_n 3%nat server_hello_length Hshl.
  destruct server_hello_length; [| discriminate].
  peel_n 32%nat server_random Hrnd.
  destruct server_random; [| discriminate].
  destruct Hsid as [Hsid | [Hsid | []]]; symmetry in Hsid.
  - destruct session_id; [| discriminate].
    simpl in Hv, Hp.
    destruct Hv as [<- | [<- | [<- | []]]]; destruct Hp as [<- | [<- | [<- | []]]];
      destruct c; vm_compute; reflexivity.
  - peel_n 32%nat session_id Hsid.
    destruct session_id; [| discriminate].
    simpl in Hv, Hp.
    destruct Hv as [<- | [<- | [<- | []]]]; destruct Hp as [<- | [<- | [<- | []]]];
      destruct c; vm_compute; reflexivity.
Qed.

Lemma from_packet_synthetic_round_trip_witness :
  from_packet (synthetic_server_hello TLS_1_0 [x00; x4e] [x00; x00; x4a] TLS_1_1
                 client_random legacy_session_id
                 TLS_ECDHE_RSA_WITH_AES_256_GCM_SHA384 [x00; x00; x05])
  = inr (mkServerHello TLS_1_1 TLS_ECDHE_RSA_WITH_AES_256_GCM_SHA384).
Proof.
  apply from_packet_synthetic_round_trip.
  - simpl. auto.
  - simpl. auto.
  - reflexivity.
  - reflexivity.
  - reflexivity.
  - simpl. auto.
Defined.

Lemma slice_length {A : Type} (b : list A) (i j : Z) :
  0 <= i <= j -> j <= len b -> length (slice b i j) = Z.to_nat (j - i).
Proof.
  intros Hij Hj. unfold slice, len in *.
  rewrite length_firstn, length_skipn. lia.
Qed.

Lemma length_two {A : Type} (l : list A) :
  length l = 2%nat -> exists x y, l = [x; y].
Proof.
  destruct l as [| x [| y [| z l]]]; try discriminate. eauto.
Qed.

Lemma alert_never_returns (packet : bytes) (hello : ServerHello) :
  hd_error packet = Some x15 -> from_packet packet <> inr hello.
Proof.
  intros Hhd Hok.
  destruct (Nat.lt_ge_cases (length packet) 7) as [Hshort | Hlong].
  - rewrite from_packet_alert_short in Hok by assumption. discriminate.
  - rewrite from_packet_alert in Hok by assumption.
    apply bind_inr in Hok as (p & _ & Hok).
    apply bind_inr in Hok as (l & _ & Hok).
    apply bind_inr in Hok as (a & _ & Hok).
    discriminate.
Qed.

Lemma from_packet_other_record_type (b : byte) (rest : bytes) :
  b <> x15 -> b <> x16 -> from_packet (b :: rest) = inl AssertionError.
Proof.
  intros H15 H16.
  unfold from_packet.
  destruct (Z.eqb_spec (byte_to_Z b) 21) as [E |].
  - destruct H15. now apply byte_to_Z_inj.
  - destruct (Z.eqb_spec (byte_to_Z b) 22) as [E |]; [| reflexivity].
    destruct H16. now apply byte_to_Z_inj.
Qed.

(** C5, counterexample: a warning alert no_renegotiation (100), a code the
    enumeration does not list, ends in the [ValueError] of the Enum call. *)
Lemma alert_raises_ServerError_counterexample :
  ~ alert_raises_ServerError [x15; x03; x03; x00; x02; x01; x64].
Proof.
  intros Hclaim.
  destruct (Hclaim eq_refl) as (p & l & a & E).
  vm_compute in E. discriminate.
Qed.

(** C5, amended: [from_packet] fails with [ValueError('Empty response')] on
    an empty buffer. On a buffer whose first byte is 0x15 it never returns
    normally; it raises [ServerError(p, l, a)] exactly when the buffer holds
    the seven bytes of the alert record and [p], [l], [a] are the members
    with the record's legacy version, level and description codes, and it
    fails with [struct.error] when the buffer is shorter. On a buffer whose
    first byte is neither 0x15 nor 0x16 it fails with [AssertionError]. *)
Theorem from_packet_record_type :
  from_packet [] = inl (ValueError Empty_response)
  /\ (forall packet, hd_error packet = Some x15 ->
        (forall hello, from_packet packet <> inr hello)
        /\ (forall p l a,
              from_packet packet = inl (ServerError p l a)
              <-> 7 <= len packet
                  /\ value p = slice packet 1 3
                  /\ value l = from_uint8 (slice packet 5 6)
                  /\ value a = from_uint8 (slice packet 6 7))
        /\ (len packet < 7 -> from_packet packet = inl struct_error))
  /\ (forall b rest, b <> x15 -> b <> x16 ->
        from_packet (b :: rest) = inl AssertionError).
Proof.
  split; [reflexivity |]. split.
  - intros packet Hhd. split; [| split].
    + intros hello. now apply alert_never_returns.
    + intros p l a.
      destruct (Nat.lt_ge_cases (length packet) 7) as [Hshort | Hlong].
      * rewrite from_packet_alert_short by assumption.
        unfold len. split; [discriminate | lia].
      * rewrite from_packet_alert by assumption. split.
        -- intros E.
           destruct (enum_call_cases (A:=Protocol) (slice packet 1 3))
             as [[p' Ep] | Ep]; rewrite Ep in E; [| discriminate].
           destruct (enum_call_cases (A:=AlertLevel) (from_uint8 (slice packet 5 6)))
             as [[l' El] | El]; unfold bind at 1 in E; rewrite El in E; [| discriminate].
           destruct (enum_call_cases (A:=AlertDescription) (from_uint8 (slice packet 6 7)))
             as [[a' Ea] | Ea]; unfold bind at 1 in E; rewrite Ea in E; [| discriminate].
           unfold bind, raise in E. injection E as <- <- <-.
           apply enum_call_inv in Ep, El, Ea.
           unfold len. repeat split; auto; lia.
        -- intros (_ & <- & <- & <-).
           rewrite Protocol_call_value. unfold bind at 1.
           rewrite AlertLevel_call_value. unfold bind at 1.
           rewrite AlertDescription_call_value. reflexivity.
    + intros Hshort. apply from_packet_alert_short; [assumption |].
      unfold len in Hshort. lia.
  - apply from_packet_other_record_type.
Qed.

Lemma from_packet_record_type_witness :
  from_packet [x15; x03; x03; x00; x02; x02; x46]
  = inl (ServerError TLS_1_2 FATAL protocol_version)
  /\ from_packet [x15; x03; x03] = inl struct_error
  /\ from_packet [x17; x03; x03; x00; x01; x00] = inl AssertionError.
Proof.
  destruct from_packet_record_type as (_ & Halert & Hother).
  split; [| split].
  - destruct (Halert [x15; x03; x03; x00; x02; x02; x46] eq_refl) as (_ & Hraise & _).
    apply Hraise. unfold len. simpl. repeat split. lia.
  - destruct (Halert [x15; x03; x03] eq_refl) as (_ & _ & Hshort).
    apply Hshort. unfold len. simpl. lia.
  - apply Hother; discriminate.
Defined.



(** ** Lemmas on the byte codec *)

Lemma to_bytes_ok (k : nat) (n : Z) :
  0 <= n < 256 ^ Z.of_nat k -> to_bytes k n = inr (be_bytes k n).
Proof.
  intros Hn. unfold to_bytes.
  destruct (Z.leb_spec 0 n); [| lia].
  destruct (Z.ltb_spec n (256 ^ Z.of_nat k)); [reflexivity | lia].
Qed.

Lemma to_bytes_inr (k : nat) (n : Z) (b : bytes) :
  to_bytes k n = inr b -> 0 <= n < 256 ^ Z.of_nat k /\ b = be_bytes k n.
Proof.
  unfold to_bytes.
  destruct (Z.leb_spec 0 n); [| discriminate].
  destruct (Z.ltb_spec n (256 ^ Z.of_nat k)); [| discriminate].
  intros [= <-]. auto.
Qed.

Lemma to_bytes_overflow (k : nat) (n : Z) :
  256 ^ Z.of_nat k <= n -> to_bytes k n = inl OverflowError.
Proof.
  intros Hn. unfold to_bytes.
  destruct (Z.ltb_spec n (256 ^ Z.of_nat k)); [lia |].
  now rewrite andb_false_r.
Qed.

Lemma length_be_bytes (k : nat) (n : Z) : length (be_bytes k n) = k.
Proof. induction k; simpl; congruence. Qed.

Lemma from_uint16_be_bytes (n : Z) :
  0 <= n < 65536 -> from_uint16 (be_bytes 2 n) = n.
Proof.
  intros Hn. unfold from_uint16, from_uint8, be_bytes. simpl fold_left.
  rewrite !byte_to_Z_of_Z.
  change (256 ^ Z.of_nat 1) with 256. change (256 ^ Z.of_nat 0) with 1.
  rewrite Z.div_1_r.
  assert (Hq : 0 <= n / 256 < 256)
    by (split; [apply Z.div_pos; lia | apply Z.div_lt_upper_bound; lia]).
  rewrite (Z.mod_small (n / 256)) by assumption.
  pose proof (Z.div_mod n 256 ltac:(lia)). lia.
Qed.

Lemma encode_ascii_ok (s : str) :
  Forall (fun c => (c < 128)%N) s -> encode_ascii s = inr (map byte_of_N s).
Proof.
  induction 1 as [| c s Hc _ IH]; [reflexivity |].
  simpl. destruct (N.ltb_spec c 128); [| lia].
  now rewrite IH.
Qed.

Lemma encode_ascii_inr (s : str) (b : bytes) :
  encode_ascii s = inr b ->
  Forall (fun c => (c < 128)%N) s /\ b = map byte_of_N s.
Proof.
  revert b. induction s as [| c s IH]; intros b.
  - intros [= <-]. auto.
  - simpl. destruct (N.ltb_spec c 128); [| discriminate].
    intros E. apply bind_inr in E as (rest & Erest & [= <-]).
    destruct (IH rest Erest) as [Hs ->]. auto.
Qed.

Lemma encode_ascii_non_ascii (s : str) :
  Exists (fun c => (128 <= c)%N) s -> encode_ascii s = inl UnicodeEncodeError.
Proof.
  induction s as [| c s IH]; intros Hs.
  - inversion Hs.
  - simpl. destruct (N.ltb_spec c 128) as [Hc |]; [| reflexivity].
    inversion Hs; subst; [lia |]. now rewrite IH.
Qed.

Lemma len_values {A : Type} `{PyEnum A bytes} (l : list A) :
  (forall m : A, length (value m) = 2%nat) ->
  len (concat (map value l)) = 2 * len l.
Proof.
  intros Hv. unfold len.
  induction l as [| m l IH]; [reflexivity |].
  simpl. rewrite length_app, Hv. lia.
Qed.

Lemma Protocol_value_length (p : Protocol) : length (value p) = 2%nat.
Proof. now destruct p. Qed.

Lemma CipherSuite_value_length (c : CipherSuite) : length (value c) = 2%nat.
Proof. now destruct c. Qed.

(** ** Extension blocks *)

Lemma firstn_length_app {A : Type} (l l' : list A) : firstn (length l) (l ++ l') = l.
Proof. induction l; simpl; congruence. Qed.

Lemma skipn_length_app {A : Type} (l l' : list A) : skipn (length l) (l ++ l') = l'.
Proof. induction l; simpl; congruence. Qed.

Lemma be_bytes_2 (n : Z) : be_bytes 2 n = [byte_of_Z (n / 256); byte_of_Z n].
Proof.
  unfold be_bytes.
  change (256 ^ Z.of_nat 1) with 256. change (256 ^ Z.of_nat 0) with 1.
  now rewrite Z.div_1_r.
Qed.

Lemma parse_extensions_fuel_block (fuel : nat) (t : Z) (payload tail : bytes) :
  0 <= t < 65536 ->
  len payload < 65536 ->
  parse_extensions_fuel (S fuel) (extension_block (t, payload) ++ tail)
  = option_map (cons (t, payload)) (parse_extensions_fuel fuel tail).
Proof.
  intros Ht Hp.
  pose proof (from_uint16_be_bytes t Ht) as Et.
  pose proof (from_uint16_be_bytes (len payload)
                (conj (len_nonneg payload) Hp)) as El.
  unfold extension_block. cbn [fst snd].
  rewrite !be_bytes_2 in *.
  cbn [app parse_extensions_fuel].
  rewrite Et, El.
  unfold len. rewrite !Nat2Z.id.
  destruct (Nat.leb_spec (length payload) (length (payload ++ tail)))
    as [_ | Hbad]; [| rewrite length_app in Hbad; lia].
  now rewrite firstn_length_app, skipn_length_app.
Qed.

Lemma parse_extensions_fuel_blocks (exts : list (Z * bytes)) (fuel : nat) :
  Forall (fun ext => 0 <= fst ext < 65536 /\ len (snd ext) < 65536) exts ->
  (length exts <= fuel)%nat ->
  parse_extensions_fuel fuel (concat (map extension_block exts)) = Some exts.
Proof.
  intros Hwf. revert fuel.
  induction Hwf as [| [t payload] exts [Ht Hp] _ IH]; intros fuel Hfuel.
  - now destruct fuel.
  - simpl in Ht, Hp, Hfuel.
    destruct fuel as [| fuel]; [lia |].
    cbn [map concat].
    rewrite parse_extensions_fuel_block by assumption.
    rewrite IH by lia. reflexivity.
Qed.

Lemma length_concat_blocks (exts : list (Z * bytes)) :
  (length exts <= length (concat (map extension_block exts)))%nat.
Proof.
  induction exts as [| ext exts IH]; [reflexivity |].
  cbn [map concat length]. unfold extension_block at 1.
  rewrite !length_app, !length_be_bytes. lia.
Qed.

(** Parsing the encoding of well-formed blocks returns the blocks. *)
Lemma parse_extensions_blocks (exts : list (Z * bytes)) :
  Forall (fun ext => 0 <= fst ext < 65536 /\ len (snd ext) < 65536) exts ->
  parse_extensions (concat (map extension_block exts)) = Some exts.
Proof.
  intros Hwf. apply parse_extensions_fuel_blocks; [assumption |].
  apply length_concat_blocks.
Qed.

(** ** The extensions of [make_packet] as blocks *)

Lemma len_be_bytes (k : nat) (n : Z) : len (be_bytes k n) = Z.of_nat k.
Proof. unfold len. now rewrite length_be_bytes. Qed.

Lemma len_map {A B : Type} (f : A -> B) (l : list A) : len (map f l) = len l.
Proof. unfold len. now rewrite length_map. Qed.

Lemma supported_version_extension_ok (self : ClientHello) :
  (offers_TLS_1_3 self = true -> 2 * len (allowed_protocols self) < 256) ->
  supported_version_extension self
  = inr (concat (map extension_block (supported_versions_blocks self))).
Proof.
  intros Hk. unfold supported_version_extension, supported_versions_blocks.
  destruct (offers_TLS_1_3 self); [| reflexivity].
  specialize (Hk eq_refl).
  pose proof (len_nonneg (allowed_protocols self)) as H0.
  rewrite (len_values (allowed_protocols self) Protocol_value_length).
  unfold to_uint16, to_uint8.
  rewrite !to_bytes_ok by (simpl Z.pow; lia).
  unfold bind. unfold ret. f_equal.
  cbn [map concat]. unfold extension_block. cbn [fst snd].
  rewrite len_app, len_be_bytes.
  rewrite (len_values (allowed_protocols self) Protocol_value_length).
  replace (Z.of_nat 1 + 2 * len (allowed_protocols self))
    with (2 * len (allowed_protocols self) + 1) by lia.
  rewrite <- !app_assoc. reflexivity.
Qed.

Lemma supported_version_extension_inr (self : ClientHello) (sv : bytes) :
  supported_version_extension self = inr sv ->
  offers_TLS_1_3 self = true -> 2 * len (allowed_protocols self) < 256.
Proof.
  unfold supported_version_extension. intros E Hoffers.
  rewrite Hoffers in E.
  apply bind_inr in E as (l1 & _ & E).
  apply bind_inr in E as (l2 & E & _).
  apply to_bytes_inr in E as [E _].
  rewrite (len_values (allowed_protocols self) Protocol_value_length) in E.
  simpl Z.pow in E. lia.
Qed.

Lemma extension_list_split (self : ClientHello) :
  extension_list self
  = (ext_server_name,
     be_bytes 2 (len (server_name self) + 3) ++ [x00]
     ++ be_bytes 2 (len (server_name self)) ++ map byte_of_N (server_name self))
    :: [ (ext_status_request, [x01; x00; x00; x00; x00]);
         (ext_ec_point_formats, [x03; x00; x01; x02]);
         (ext_supported_groups, be_bytes 2 (len curves) ++ curves);
         (ext_session_ticket, []);
         (ext_encrypt_then_mac, []);
         (ext_extended_master_secret, []);
         (ext_signature_algorithms,
          be_bytes 2 (len signature_algorithms) ++ signature_algorithms);
         (ext_renegotiation_info, [x00]);
         (ext_signed_certificate_timestamp, []) ]
    ++ supported_versions_blocks self
    ++ [ (ext_psk_key_exchange_modes, [x01; x01]);
         (ext_key_share, skipn 4 key_share_extension) ].
Proof. reflexivity. Qed.

Lemma server_name_block (s : str) :
  extension_block
    (ext_server_name,
     be_bytes 2 (len s + 3) ++ [x00] ++ be_bytes 2 (len s) ++ map byte_of_N s)
  = [x00; x00] ++ be_bytes 2 (len s + 5)
    ++ be_bytes 2 (len s + 3) ++ [x00] ++ be_bytes 2 (len s) ++ map byte_of_N s.
Proof.
  unfold extension_block. cbn [fst snd].
  rewrite !len_app, !len_be_bytes, len_map.
  replace (Z.of_nat 2 + (len [x00] + (Z.of_nat 2 + len s))) with (len s + 5)
    by (change (len [x00]) with 1; lia).
  reflexivity.
Qed.

Lemma extensions_ok (self : ClientHello) :
  Forall (fun c => (c < 128)%N) (server_name self) ->
  len (server_name self) + 5 < 65536 ->
  (offers_TLS_1_3 self = true -> 2 * len (allowed_protocols self) < 256) ->
  extensions self = inr (concat (map extension_block (extension_list self))).
Proof.
  intros Hascii Hn Hk.
  pose proof (len_nonneg (server_name self)) as H0.
  unfold extensions.
  rewrite supported_version_extension_ok by assumption.
  unfold bind at 1.
  unfold to_uint16.
  rewrite !(to_bytes_ok 2 (len (server_name self) + 5)) by (simpl Z.pow; lia).
  unfold bind at 1.
  rewrite !(to_bytes_ok 2 (len (server_name self) + 3)) by (simpl Z.pow; lia).
  unfold bind at 1.
  rewrite !(to_bytes_ok 2 (len (server_name self))) by (simpl Z.pow; lia).
  unfold bind at 1.
  rewrite encode_ascii_ok by assumption.
  unfold bind at 1.
  change (to_bytes 2 (len curves + 2)) with (@inr exn bytes [x00; x16]).
  change (to_bytes 2 (len curves)) with (@inr exn bytes [x00; x14]).
  change (to_bytes 2 (len signature_algorithms + 2)) with (@inr exn bytes [x00; x22]).
  change (to_bytes 2 (len signature_algorithms)) with (@inr exn bytes [x00; x20]).
  unfold bind. unfold ret. f_equal.
  rewrite extension_list_split.
  cbn [map]. rewrite !map_app. cbn [concat]. rewrite !concat_app.
  rewrite server_name_block.
  rewrite <- !app_assoc.
  reflexivity.
Qed.

Lemma extensions_inr (self : ClientHello) (ext : bytes) :
  extensions self = inr ext ->
  Forall (fun c => (c < 128)%N) (server_name self)
  /\ len (server_name self) + 5 < 65536
  /\ (offers_TLS_1_3 self = true -> 2 * len (allowed_protocols self) < 256)
  /\ ext = concat (map extension_block (extension_list self)).
Proof.
  intros E.
  assert (Hbounds : Forall (fun c => (c < 128)%N) (server_name self)
                    /\ len (server_name self) + 5 < 65536
                    /\ (offers_TLS_1_3 self = true ->
                        2 * len (allowed_protocols self) < 256)).
  { unfold extensions in E.
    apply bind_inr in E as (sv & Esv & E).
    apply bind_inr in E as (l1 & E1 & E).
    apply bind_inr in E as (l2 & _ & E).
    apply bind_inr in E as (l3 & _ & E).
    apply bind_inr in E as (name & Ename & _).
    apply to_bytes_inr in E1 as [E1 _]. simpl Z.pow in E1.
    apply encode_ascii_inr in Ename as [Hascii _].
    repeat split; [assumption | lia |].
    now apply supported_version_extension_inr with (sv := sv). }
  destruct Hbounds as (Hascii & Hn & Hk).
  repeat split; try assumption.
  rewrite extensions_ok in E by assumption.
  now injection E.
Qed.

Lemma len_extension_list (self : ClientHello) :
  len (concat (map extension_block (extension_list self)))
  = 159 + len (server_name self) + supported_versions_size self.
Proof.
  rewrite extension_list_split.
  cbn [map]. rewrite !map_app. cbn [concat]. rewrite !concat_app.
  rewrite server_name_block.
  rewrite !len_app, !len_be_bytes, len_map.
  assert (Hsv : len (concat (map extension_block (supported_versions_blocks self)))
                = supported_versions_size self).
  { unfold supported_versions_blocks, supported_versions_size.
    destruct (offers_TLS_1_3 self); [| reflexivity].
    cbn [map concat]. unfold extension_block. cbn [fst snd].
    rewrite !len_app, !len_be_bytes.
    rewrite (len_values (allowed_protocols self) Protocol_value_length).
    change (len []) with 0. lia. }
  rewrite Hsv.
  match goal with
  | |- context [len (concat (map extension_block ?l)) + (_ + len (concat (map extension_block ?l')))] =>
      change (len (concat (map extension_block l))) with 102;
      change (len (concat (map extension_block l'))) with 48
  end.
  change (len [x00; x00]) with 2. change (len [x00]) with 1.
  lia.
Qed.

Lemma len_client_hello_layout (v : Protocol) (cipher_suites ext : bytes) :
  len (client_hello_layout v cipher_suites ext) = 73 + len cipher_suites + len ext.
Proof.
  unfold client_hello_layout.
  rewrite !len_app, !len_be_bytes.
  unfold len at 1. rewrite Protocol_value_length.
  change (len client_random) with 32. change (len legacy_session_id) with 32.
  change (len [x20]) with 1. change (len [x01]) with 1. change (len [x00]) with 1.
  lia.
Qed.

Lemma make_packet_unfold (self : ClientHello) :
  make_packet self =
    (ext <- extensions self ;;
     v <- client_hello_version self ;;
     let cipher_suites := concat (map value (allowed_cipher_suites self)) in
     _ <- to_uint16 (len cipher_suites) ;;
     _ <- to_uint16 (len ext) ;;
     _ <- to_uint24 (len (client_hello_layout v cipher_suites ext)) ;;
     _ <- to_uint16 (len ([x01] ++ be_bytes 3 (len (client_hello_layout v cipher_suites ext))
                          ++ client_hello_layout v cipher_suites ext)) ;;
     ret (record_layout v cipher_suites ext)).
Proof.
  unfold make_packet.
  destruct (extensions self) as [e | ext]; [reflexivity |].
  destruct (client_hello_version self) as [e | v]; [reflexivity |].
  cbn [bind]. cbv zeta.
  unfold to_uint16, to_uint24.
  destruct (to_bytes 2 (len (concat (map value (allowed_cipher_suites self)))))
    as [e | l1] eqn:E1; [reflexivity |].
  apply to_bytes_inr in E1 as [_ ->].
  cbn [bind].
  destruct (to_bytes 2 (len ext)) as [e | l2] eqn:E2; [reflexivity |].
  apply to_bytes_inr in E2 as [_ ->].
  cbn [bind].
  assert (Ech : concat
                  [value v; client_random; [x20]; legacy_session_id;
                   be_bytes 2 (len (concat (map value (allowed_cipher_suites self))));
                   concat (map value (allowed_cipher_suites self));
                   [x01]; [x00]; be_bytes 2 (len ext); ext]
                = client_hello_layout v (concat (map value (allowed_cipher_suites self))) ext).
  { unfold client_hello_layout. cbn [concat]. rewrite app_nil_r. reflexivity. }
  rewrite Ech.
  destruct (to_bytes 3 _) as [e | l3] eqn:E3; [reflexivity |].
  apply to_bytes_inr in E3 as [_ ->].
  cbn [bind].
  assert (Ehs : forall x y : bytes, concat [[x01]; x; y] = [x01] ++ x ++ y).
  { intros x y. cbn [concat]. now rewrite app_nil_r. }
  rewrite Ehs.
  destruct (to_bytes 2 _) as [e | l4] eqn:E4; [reflexivity |].
  apply to_bytes_inr in E4 as [_ ->].
  cbn [bind]. unfold ret. f_equal.
  unfold record_layout. cbn [concat]. rewrite app_nil_r. reflexivity.
Qed.

Lemma len_handshake (self : ClientHello) (v : Protocol) :
  let cipher_suites := concat (map value (allowed_cipher_suites self)) in
  let ext := concat (map extension_block (extension_list self)) in
  len ([x01] ++ be_bytes 3 (len (client_hello_layout v cipher_suites ext))
       ++ client_hello_layout v cipher_suites ext)
  = handshake_size self.
Proof.
  cbv zeta.
  rewrite !len_app, len_be_bytes, len_client_hello_layout, len_extension_list.
  rewrite (len_values (allowed_cipher_suites self) CipherSuite_value_length).
  unfold handshake_size. change (len [x01]) with 1. lia.
Qed.

Lemma supported_versions_size_nonneg (self : ClientHello) :
  0 <= supported_versions_size self.
Proof.
  unfold supported_versions_size.
  pose proof (len_nonneg (allowed_protocols self)).
  destruct (offers_TLS_1_3 self); lia.
Qed.

Lemma make_packet_ok (self : ClientHello) (v : Protocol) :
  client_hello_version self = inr v ->
  Forall (fun c => (c < 128)%N) (server_name self) ->
  (offers_TLS_1_3 self = true -> 2 * len (allowed_protocols self) < 256) ->
  handshake_size self < 65536 ->
  make_packet self
  = inr (record_layout v (concat (map value (allowed_cipher_suites self)))
                       (concat (map extension_block (extension_list self)))).
Proof.
  intros Ev Hascii Hk Hsize.
  pose proof (len_nonneg (server_name self)) as H0.
  pose proof (len_nonneg (allowed_cipher_suites self)) as H1.
  pose proof (supported_versions_size_nonneg self) as H2.
  unfold handshake_size in Hsize.
  rewrite make_packet_unfold.
  rewrite extensions_ok by (assumption || lia).
  cbn [bind]. rewrite Ev. cbn [bind]. cbv zeta.
  rewrite len_handshake, len_client_hello_layout, len_extension_list.
  rewrite (len_values (allowed_cipher_suites self) CipherSuite_value_length).
  unfold to_uint16, to_uint24.
  rewrite !to_bytes_ok by (unfold handshake_size; simpl Z.pow; lia).
  reflexivity.
Qed.

Lemma make_packet_inr (self : ClientHello) (packet : bytes) :
  make_packet self = inr packet ->
  exists v,
    client_hello_version self = inr v
    /\ Forall (fun c => (c < 128)%N) (server_name self)
    /\ (offers_TLS_1_3 self = true -> 2 * len (allowed_protocols self) < 256)
    /\ handshake_size self < 65536
    /\ extensions self = inr (concat (map extension_block (extension_list self)))
    /\ packet = record_layout v (concat (map value (allowed_cipher_suites self)))
                              (concat (map extension_block (extension_list self))).
Proof.
  intros E. rewrite make_packet_unfold in E.
  apply bind_inr in E as (ext & Eext & E).
  apply bind_inr in E as (v & Ev & E).
  cbv zeta in E.
  apply bind_inr in E as (l1 & _ & E).
  apply bind_inr in E as (l2 & _ & E).
  apply bind_inr in E as (l3 & _ & E).
  apply bind_inr in E as (l4 & E4 & E).
  injection E as <-.
  pose proof Eext as Eext'.
  apply extensions_inr in Eext as (Hascii & Hn & Hk & ->).
  apply to_bytes_inr in E4 as [E4 _].
  rewrite len_handshake in E4. simpl Z.pow in E4.
  exists v. repeat split; try assumption. lia.
Qed.

(** ** The legacy version *)

Lemma gtb_trans (p q r : Protocol) :
  bytes_gtb (value p) (value q) = false ->
  bytes_gtb (value q) (value r) = false ->
  bytes_gtb (value p) (value r) = false.
Proof. destruct p, q, r; simpl; intros; reflexivity || discriminate. Qed.

Lemma gtb_lt_le (p q r : Protocol) :
  bytes_gtb (value q) (value p) = true ->
  bytes_gtb (value q) (value r) = false ->
  bytes_gtb (value p) (value r) = false.
Proof. destruct p, q, r; simpl; intros; reflexivity || discriminate. Qed.

Lemma gtb_irrefl (p : Protocol) : bytes_gtb (value p) (value p) = false.
Proof. now destruct p. Qed.

Lemma fold_max_spec (xs : list Protocol) (x0 : Protocol) :
  let m := fold_left (fun best item =>
                        if bytes_gtb (value item) (value best) then item else best)
                     xs x0 in
  In m (x0 :: xs)
  /\ bytes_gtb (value x0) (value m) = false
  /\ forall p, In p xs -> bytes_gtb (value p) (value m) = false.
Proof.
  revert x0. induction xs as [| y ys IH]; intros x0; cbn [fold_left].
  - repeat split; [now left | apply gtb_irrefl | intros p []].
  - cbv zeta in IH.
    destruct (bytes_gtb (value y) (value x0)) eqn:Eyx.
    + destruct (IH y) as (Hin & Hy & Hys).
      repeat split.
      * right. exact Hin.
      * now apply gtb_lt_le with (q := y).
      * intros p [<- | Hp]; auto.
    + destruct (IH x0) as (Hin & Hx & Hys).
      repeat split.
      * destruct Hin as [<- | Hin]; [now left | right; now right].
      * exact Hx.
      * intros p [<- | Hp]; [| auto].
        now apply gtb_trans with (q := x0).
Qed.

Lemma py_max_is_maximum (l : list Protocol) (m : Protocol) :
  py_max bytes_gtb value l = inr m -> is_maximum m l.
Proof.
  destruct l as [| x0 xs]; [discriminate |].
  unfold py_max. intros [= <-].
  destruct (fold_max_spec xs x0) as (Hin & Hx & Hxs).
  split; [exact Hin |].
  intros p [<- | Hp]; auto.
Qed.

Lemma py_max_nonempty (l : list Protocol) :
  l <> [] -> exists m, py_max bytes_gtb value l = inr m.
Proof.
  destruct l as [| x0 xs]; [congruence |]. intros _. eexists. reflexivity.
Qed.

Lemma client_hello_version_inr (self : ClientHello) (v : Protocol) :
  client_hello_version self = inr v ->
  exists m, is_maximum m (allowed_protocols self) /\ v = lower TLS_1_2 m.
Proof.
  unfold client_hello_version. intros E.
  apply bind_inr in E as (m & Em & E).
  exists m. split; [now apply py_max_is_maximum |].
  destruct (Protocol_eq_dec m TLS_1_3) as [-> | Hm].
  - injection E as <-. reflexivity.
  - injection E as <-. now destruct m.
Qed.

Lemma client_hello_version_nonempty (self : ClientHello) :
  allowed_protocols self <> [] -> exists v, client_hello_version self = inr v.
Proof.
  intros Hne. unfold client_hello_version.
  destruct (py_max_nonempty _ Hne) as [m ->]. cbn [bind].
  destruct (Protocol_eq_dec m TLS_1_3); eexists; reflexivity.
Qed.

Lemma client_hello_version_empty (self : ClientHello) :
  allowed_protocols self = [] ->
  client_hello_version self = inl (ValueError Max_of_empty).
Proof. unfold client_hello_version. now intros ->. Qed.

Lemma record_layout_versions (v : Protocol) (cipher_suites ext : bytes) :
  legacy_record_version_field (record_layout v cipher_suites ext)
  = value (record_version v)
  /\ legacy_client_version_field (record_layout v cipher_suites ext) = value v.
Proof.
  unfold record_layout, client_hello_layout.
  rewrite be_bytes_2.
  generalize (len ([x01] ++ be_bytes 3 (len (value v ++ client_random ++ [x20]
                ++ legacy_session_id ++ be_bytes 2 (len cipher_suites) ++ cipher_suites
                ++ [x01] ++ [x00] ++ be_bytes 2 (len ext) ++ ext))
              ++ value v ++ client_random ++ [x20] ++ legacy_session_id
              ++ be_bytes 2 (len cipher_suites) ++ cipher_suites
              ++ [x01] ++ [x00] ++ be_bytes 2 (len ext) ++ ext)).
  generalize (len (value v ++ client_random ++ [x20] ++ legacy_session_id
                   ++ be_bytes 2 (len cipher_suites) ++ cipher_suites
                   ++ [x01] ++ [x00] ++ be_bytes 2 (len ext) ++ ext)).
  intros n3 n2.
  destruct v; split; reflexivity.
Qed.

(** ** Properties of the encoder *)

(** C1: for every ClientHello with non-empty allowed_protocols, the legacy
    client version that [make_packet] writes is the lower of TLS 1.2 and the
    maximum of the allowed protocols (TLS 1.2 when that maximum is TLS 1.3),
    and the record-layer version is SSLv3 exactly when that legacy version
    is SSLv3, and TLS 1.0 otherwise. *)
Theorem make_packet_legacy_versions (self : ClientHello) (packet : bytes) :
  allowed_protocols self <> [] ->
  make_packet self = inr packet ->
  exists m,
    is_maximum m (allowed_protocols self)
    /\ legacy_client_version_field packet = value (lower TLS_1_2 m)
    /\ (m = TLS_1_3 -> legacy_client_version_field packet = value TLS_1_2)
    /\ (lower TLS_1_2 m = SSLv3 -> legacy_record_version_field packet = value SSLv3)
    /\ (lower TLS_1_2 m <> SSLv3 -> legacy_record_version_field packet = value TLS_1_0).
Proof.
  intros _ E.
  apply make_packet_inr in E as (v & Ev & _ & _ & _ & _ & ->).
  apply client_hello_version_inr in Ev as (m & Hmax & ->).
  destruct (record_layout_versions (lower TLS_1_2 m)
              (concat (map value (allowed_cipher_suites self)))
              (concat (map extension_block (extension_list self)))) as [Hr Hc].
  exists m. rewrite Hr, Hc. unfold record_version.
  split; [exact Hmax |]. split; [reflexivity |]. split; [| split].
  - now intros ->.
  - intros Hlow. now destruct (Protocol_eq_dec (lower TLS_1_2 m) SSLv3).
  - intros Hlow. now destruct (Protocol_eq_dec (lower TLS_1_2 m) SSLv3).
Qed.

Lemma make_packet_legacy_versions_witness :
  exists packet m,
    make_packet (mkClientHello a_dot_b [TLS_1_1; TLS_1_3; TLS_1_0]
                               [TLS_AES_128_GCM_SHA256]) = inr packet
    /\ is_maximum m [TLS_1_1; TLS_1_3; TLS_1_0]
    /\ legacy_client_version_field packet = [x03; x03]
    /\ legacy_record_version_field packet = [x03; x01].
Proof.
  destruct (make_packet (mkClientHello a_dot_b [TLS_1_1; TLS_1_3; TLS_1_0]
                                       [TLS_AES_128_GCM_SHA256]))
    as [e | packet] eqn:E; [vm_compute in E; discriminate |].
  destruct (make_packet_legacy_versions
              (mkClientHello a_dot_b [TLS_1_1; TLS_1_3; TLS_1_0]
                             [TLS_AES_128_GCM_SHA256])
              packet ltac:(discriminate) E) as (m & Hmax & Hc & _ & _ & Hr).
  exists packet, m.
  assert (Em : m = TLS_1_3).
  { destruct Hmax as [Hin Hge]. specialize (Hge TLS_1_3 ltac:(simpl; auto)).
    destruct m; try discriminate Hge. reflexivity. }
  subst m.
  split; [reflexivity |]. split; [exact Hmax |]. split; [exact Hc |].
  apply Hr. discriminate.
Defined.

Lemma extension_list_well_formed (self : ClientHello) :
  len (server_name self) + 5 < 65536 ->
  (offers_TLS_1_3 self = true -> 2 * len (allowed_protocols self) < 256) ->
  Forall (fun ext => 0 <= fst ext < 65536 /\ len (snd ext) < 65536)
         (extension_list self).
Proof.
  intros Hn Hk.
  pose proof (len_nonneg (server_name self)) as H0.
  rewrite extension_list_split.
  apply Forall_cons.
  { cbn [fst snd]. split; [unfold ext_server_name; lia |].
    rewrite !len_app, !len_be_bytes, len_map. change (len [x00]) with 1. lia. }
  apply Forall_app. split.
  { repeat apply Forall_cons; try apply Forall_nil; cbn [fst snd];
      (split; [vm_compute; split; [discriminate | reflexivity] | reflexivity]). }
  apply Forall_app. split.
  - unfold supported_versions_blocks.
    destruct (offers_TLS_1_3 self); [| apply Forall_nil].
    specialize (Hk eq_refl).
    apply Forall_cons; [| apply Forall_nil].
    cbn [fst snd]. split; [unfold ext_supported_versions; lia |].
    rewrite len_app, len_be_bytes.
    rewrite (len_values (allowed_protocols self) Protocol_value_length). lia.
  - repeat apply Forall_cons; try apply Forall_nil; cbn [fst snd];
      (split; [vm_compute; split; [discriminate | reflexivity] | reflexivity]).
Qed.

Lemma extension_types_of_list (self : ClientHello) :
  map fst (extension_list self)
  = [ext_server_name; ext_status_request; ext_ec_point_formats;
     ext_supported_groups; ext_session_ticket; ext_encrypt_then_mac;
     ext_extended_master_secret; ext_signature_algorithms;
     ext_renegotiation_info; ext_signed_certificate_timestamp]
    ++ (if offers_TLS_1_3 self then [ext_supported_versions] else [])
    ++ [ext_psk_key_exchange_modes; ext_key_share].
Proof.
  unfold extension_list. rewrite !map_app.
  destruct (offers_TLS_1_3 self); reflexivity.
Qed.

Lemma len_Protocol_value (p : Protocol) : len (value p) = 2.
Proof. now destruct p. Qed.

Lemma record_layout_suffix (v : Protocol) (cipher_suites ext : bytes) :
  exists pre,
    record_layout v cipher_suites ext = pre ++ ext
    /\ len pre = 82 + len cipher_suites.
Proof.
  exists ([x16] ++ value (record_version v)
          ++ be_bytes 2 (len ([x01] ++ be_bytes 3 (len (client_hello_layout v cipher_suites ext))
                              ++ client_hello_layout v cipher_suites ext))
          ++ [x01] ++ be_bytes 3 (len (client_hello_layout v cipher_suites ext))
          ++ value v ++ client_random ++ [x20] ++ legacy_session_id
          ++ be_bytes 2 (len cipher_suites) ++ cipher_suites ++ [x01] ++ [x00]
          ++ be_bytes 2 (len ext)).
  split.
  - unfold record_layout. unfold client_hello_layout at 3.
    rewrite <- !app_assoc. reflexivity.
  - rewrite !len_app, !len_be_bytes, !len_Protocol_value.
    change (len client_random) with 32. change (len legacy_session_id) with 32.
    change (len [x16]) with 1. change (len [x20]) with 1.
    change (len [x01]) with 1. change (len [x00]) with 1.
    lia.
Qed.

(** ** The extensions block *)

(** C2, counterexample: a ClientHello for TLS 1.2 only still carries the
    psk_key_exchange_modes and key_share extensions. *)
Lemma no_TLS_1_3_extensions_counterexample :
  ~ no_TLS_1_3_extensions_without_TLS_1_3
      (mkClientHello a_dot_b [TLS_1_2] [TLS_RSA_WITH_AES_128_GCM_SHA256]).
Proof.
  intros Hclaim.
  assert (Hno : ~ In TLS_1_3 [TLS_1_2]) by (intros [H | []]; discriminate).
  destruct (Hclaim Hno _ _ eq_refl eq_refl) as (_ & Hpsk & _).
  apply Hpsk. vm_compute. tauto.
Qed.

(** C2, amended: the extensions block [make_packet] writes holds, in this
    order, server_name, status_request, ec_point_formats, supported_groups,
    session_ticket, encrypt_then_mac, extended_master_secret,
    signature_algorithms, renegotiation_info, signed_certificate_timestamp,
    then supported_versions exactly when TLS 1.3 is among allowed_protocols,
    then psk_key_exchange_modes and key_share, which are written whether or
    not TLS 1.3 is allowed. *)
Theorem make_packet_extension_order (self : ClientHello) (packet : bytes) :
  make_packet self = inr packet ->
  exists pre ext,
    extensions self = inr ext
    /\ packet = pre ++ ext
    /\ len pre = 82 + 2 * len (allowed_cipher_suites self)
    /\ extension_types ext
       = Some ([ext_server_name; ext_status_request; ext_ec_point_formats;
                ext_supported_groups; ext_session_ticket; ext_encrypt_then_mac;
                ext_extended_master_secret; ext_signature_algorithms;
                ext_renegotiation_info; ext_signed_certificate_timestamp]
               ++ (if in_dec Protocol_eq_dec TLS_1_3 (allowed_protocols self)
                   then [ext_supported_versions] else [])
               ++ [ext_psk_key_exchange_modes; ext_key_share]).
Proof.
  intros E.
  apply make_packet_inr in E as (v & _ & _ & Hk & Hsize & Eext & ->).
  destruct (record_layout_suffix v (concat (map value (allowed_cipher_suites self)))
              (concat (map extension_block (extension_list self))))
    as (pre & Epre & Hpre).
  exists pre, (concat (map extension_block (extension_list self))).
  split; [exact Eext |]. split; [exact Epre |]. split.
  - rewrite Hpre.
    now rewrite (len_values (allowed_cipher_suites self) CipherSuite_value_length).
  - unfold extension_types.
    rewrite parse_extensions_blocks.
    + cbn [option_map]. rewrite extension_types_of_list.
      unfold offers_TLS_1_3.
      now destruct (in_dec Protocol_eq_dec TLS_1_3 (allowed_protocols self)).
    + apply extension_list_well_formed; [| assumption].
      pose proof (len_nonneg (allowed_cipher_suites self)).
      pose proof (supported_versions_size_nonneg self).
      unfold handshake_size in Hsize. lia.
Qed.

Lemma make_packet_extension_order_witness :
  exists packet ext,
    make_packet (mkClientHello a_dot_b [TLS_1_2] [TLS_RSA_WITH_AES_128_GCM_SHA256])
    = inr packet
    /\ extension_types ext
       = Some [0; 5; 11; 10; 35; 22; 23; 13; 65281; 18; 45; 51].
Proof.
  destruct (make_packet (mkClientHello a_dot_b [TLS_1_2]
                                       [TLS_RSA_WITH_AES_128_GCM_SHA256]))
    as [e | packet] eqn:E; [vm_compute in E; discriminate |].
  destruct (make_packet_extension_order _ packet E) as (pre & ext & _ & _ & _ & Htypes).
  exists packet, ext. split; [reflexivity |]. exact Htypes.
Defined.

(** ** Totality of the encoder *)

(** C8, counterexample: with a server name of 65300 ASCII characters the
    handshake message outgrows the 16-bit record length and
    [to_uint16(len(handshake))] raises [OverflowError]. *)
Lemma make_packet_returns_counterexample :
  ~ make_packet_returns
      (mkClientHello long_server_name [TLS_1_2] [TLS_RSA_WITH_AES_128_GCM_SHA256]).
Proof.
  intros Hclaim.
  destruct Hclaim as [packet E].
  - discriminate.
  - discriminate.
  - apply Forall_forall. intros c Hc.
    apply repeat_spec in Hc. now subst c.
  - vm_compute in E. discriminate.
Qed.

(** C8, amended: [make_packet] returns a byte sequence, raising nothing, for
    every ClientHello whose allowed_protocols and allowed_cipher_suites are
    non-empty, whose server_name is ASCII-encodable, and whose sizes fit the
    length fields: at most 127 allowed protocols when TLS 1.3 is among
    them, and a handshake message of at most 65535 bytes. Conversely a
    ClientHello for which it returns has non-empty allowed_protocols, an
    ASCII-encodable server_name and these sizes. *)
Theorem make_packet_total (self : ClientHello) :
  (allowed_protocols self <> [] ->
   allowed_cipher_suites self <> [] ->
   ascii_encodable (server_name self) ->
   (In TLS_1_3 (allowed_protocols self) -> len (allowed_protocols self) <= 127) ->
   handshake_size self <= 65535 ->
   exists packet,
     make_packet self = inr packet /\ len packet = 5 + handshake_size self)
  /\ (forall packet,
        make_packet self = inr packet ->
        allowed_protocols self <> []
        /\ ascii_encodable (server_name self)
        /\ (In TLS_1_3 (allowed_protocols self) -> len (allowed_protocols self) <= 127)
        /\ handshake_size self <= 65535).
Proof.
  assert (Hoffers : offers_TLS_1_3 self = true <-> In TLS_1_3 (allowed_protocols self)).
  { unfold offers_TLS_1_3.
    destruct (in_dec Protocol_eq_dec TLS_1_3 (allowed_protocols self));
      split; auto; discriminate. }
  split.
  - intros Hp _ Hascii Hk Hsize.
    destruct (client_hello_version_nonempty self Hp) as [v Ev].
    eexists. split.
    + apply make_packet_ok with (v := v); try assumption; [| lia].
      intros H. apply Hoffers in H. specialize (Hk H). lia.
    + unfold record_layout.
      rewrite len_handshake.
      rewrite !len_app, !len_be_bytes, len_client_hello_layout, len_extension_list,
        len_Protocol_value.
      rewrite (len_values (allowed_cipher_suites self) CipherSuite_value_length).
      unfold handshake_size.
      change (len [x16]) with 1. change (len [x01]) with 1. lia.
  - intros packet E.
    apply make_packet_inr in E as (v & Ev & Hascii & Hk & Hsize & _ & _).
    split; [| split; [exact Hascii | split; [| lia]]].
    + intros Hnil. rewrite client_hello_version_empty in Ev by assumption.
      discriminate.
    + intros H. apply Hoffers in H. specialize (Hk H). lia.
Qed.

Lemma make_packet_total_witness :
  (exists packet,
     make_packet (mkClientHello a_dot_b [TLS_1_3; TLS_1_2]
                                [TLS_AES_128_GCM_SHA256; TLS_AES_256_GCM_SHA384])
     = inr packet
     /\ len packet = 257)
  /\ handshake_size (mkClientHello a_dot_b [TLS_1_2] [TLS_RSA_WITH_AES_128_GCM_SHA256])
     <= 65535.
Proof.
  split.
  - destruct (make_packet_total
                (mkClientHello a_dot_b [TLS_1_3; TLS_1_2]
                               [TLS_AES_128_GCM_SHA256; TLS_AES_256_GCM_SHA384]))
      as [Hok _].
    apply Hok.
    + discriminate.
    + discriminate.
    + unfold ascii_encodable, a_dot_b. simpl.
      repeat (apply Forall_cons; [reflexivity |]). apply Forall_nil.
    + intros _. unfold len. simpl. lia.
    + vm_compute. discriminate.
  - destruct (make_packet_total
                (mkClientHello a_dot_b [TLS_1_2] [TLS_RSA_WITH_AES_128_GCM_SHA256]))
      as [_ Hinv].
    destruct (make_packet (mkClientHello a_dot_b [TLS_1_2]
                                         [TLS_RSA_WITH_AES_128_GCM_SHA256]))
      as [e | packet] eqn:E; [vm_compute in E; discriminate |].
    now destruct (Hinv packet eq_refl) as (_ & _ & _ & Hsize).
Defined.

(** ** The worker loop and the pool *)

Lemma py_remove_length (x : CipherSuite) (l l' : list CipherSuite) :
  py_remove x l = inr l' -> length l = S (length l').
Proof.
  revert l'. induction l as [| y l IH]; intros l'; [discriminate |].
  simpl. destruct (CipherSuite_eq_dec y x).
  - now intros [= <-].
  - intros E. apply bind_inr in E as (l'' & E & [= <-]).
    simpl. f_equal. now apply IH.
Qed.

Lemma length_set_nth {A : Type} (i : nat) (x : A) (l : list A) :
  length (set_nth i x l) = length l.
Proof.
  revert i. induction l as [| y l IH]; intros [| i]; simpl; auto.
Qed.

Lemma nth_error_set_nth_eq {A : Type} (i : nat) (x : A) (l : list A) :
  (i < length l)%nat -> nth_error (set_nth i x l) i = Some x.
Proof.
  revert i. induction l as [| y l IH]; intros [| i] Hi; simpl in *; try lia; auto.
  apply IH. lia.
Qed.

Lemma nth_error_set_nth_neq {A : Type} (i j : nat) (x : A) (l : list A) :
  i <> j -> nth_error (set_nth i x l) j = nth_error l j.
Proof.
  revert i j. induction l as [| y l IH]; intros [| i] [| j] Hij; simpl; auto.
  congruence.
Qed.

Section PoolFacts.
Context `{Runtime}.
Variables (server_name : str) (protocol : Protocol) (port : Z) (timeout : Timeout).

Local Abbreviation body := (loop_body server_name protocol port timeout).
Local Abbreviation step1 := (step server_name protocol port timeout).
Local Abbreviation stepsN := (steps server_name protocol port timeout).
Local Abbreviation run := (run_schedule server_name protocol port timeout).
Local Abbreviation to_end := (run_to_end server_name protocol port timeout).
Local Abbreviation joined := (join server_name protocol port timeout).

(** A pass either ends the call or leaves it a shorter list. *)
Lemma loop_body_shrinks (w w' : World)
    (accepted accepted' remaining remaining' : list CipherSuite) :
  body w accepted remaining = (w', accepted', Continue remaining') ->
  length remaining = S (length remaining').
Proof.
  unfold loop_body.
  destruct (send _ port None timeout w) as [w1 [e | hello]].
  - destruct e; try (intros [=]; fail).
    destruct (AlertDescription_eq_dec alert handshake_failure); intros [=].
  - destruct (py_remove (cipher_suite hello) remaining) as [e | r] eqn:E;
      intros [= _ _ <-].
    now apply py_remove_length in E.
Qed.

Lemma step_length (i : nat) (st : pool) :
  length (workers (step1 i st)) = length (workers st).
Proof.
  unfold step.
  destruct (nth_error (workers st) i) as [[remaining |] |]; try reflexivity.
  destruct (body (world st) (accepted_cipher_suites st) remaining) as [[w' acc'] out].
  cbn [workers]. apply length_set_nth.
Qed.

Lemma step_other (i j : nat) (st : pool) :
  i <> j -> nth_error (workers (step1 i st)) j = nth_error (workers st) j.
Proof.
  intros Hij. unfold step.
  destruct (nth_error (workers st) i) as [[remaining |] |]; try reflexivity.
  destruct (body (world st) (accepted_cipher_suites st) remaining) as [[w' acc'] out].
  cbn [workers]. now apply nth_error_set_nth_neq.
Qed.

Lemma step_ended (i : nat) (st : pool) :
  nth_error (workers st) i = Some Ended -> step1 i st = st.
Proof. unfold step. now intros ->. Qed.

Lemma step_keeps_ended (i j : nat) (st : pool) :
  nth_error (workers st) j = Some Ended ->
  nth_error (workers (step1 i st)) j = Some Ended.
Proof.
  intros Hj. destruct (Nat.eq_dec i j) as [-> | Hij].
  - now rewrite step_ended.
  - now rewrite step_other.
Qed.

(** After a pass, call [i] has ended or runs on a shorter list. *)
Lemma step_progress (i : nat) (st : pool) (remaining : list CipherSuite) :
  nth_error (workers st) i = Some (Running remaining) ->
  nth_error (workers (step1 i st)) i = Some Ended
  \/ exists remaining',
       nth_error (workers (step1 i st)) i = Some (Running remaining')
       /\ length remaining = S (length remaining').
Proof.
  intros Hi.
  assert (Hlt : (i < length (workers st))%nat)
    by (apply nth_error_Some; congruence).
  unfold step. rewrite Hi.
  destruct (body (world st) (accepted_cipher_suites st) remaining)
    as [[w' acc'] out] eqn:E.
  cbn [workers]. rewrite nth_error_set_nth_eq by assumption.
  destruct out as [remaining' | |]; auto.
  right. exists remaining'. split; [reflexivity |].
  now apply loop_body_shrinks in E.
Qed.

Lemma steps_ended (n i : nat) (st : pool) :
  nth_error (workers st) i = Some Ended -> stepsN n i st = st.
Proof.
  revert st. induction n as [| n IH]; intros st Hi; [reflexivity |].
  cbn [steps]. rewrite step_ended by assumption. now apply IH.
Qed.

Lemma steps_end (n i : nat) (st : pool) (remaining : list CipherSuite) :
  nth_error (workers st) i = Some (Running remaining) ->
  (length remaining < n)%nat ->
  nth_error (workers (stepsN n i st)) i = Some Ended.
Proof.
  revert st remaining. induction n as [| n IH]; intros st remaining Hi Hn; [lia |].
  cbn [steps].
  destruct (step_progress i st remaining Hi) as [Hend | (remaining' & Hrun & Hlen)].
  - now rewrite steps_ended.
  - apply IH with (remaining := remaining'); [assumption | lia].
Qed.

Lemma steps_length (n i : nat) (st : pool) :
  length (workers (stepsN n i st)) = length (workers st).
Proof.
  revert st. induction n as [| n IH]; intros st; [reflexivity |].
  cbn [steps]. now rewrite IH, step_length.
Qed.

Lemma steps_keeps_ended (n i j : nat) (st : pool) :
  nth_error (workers st) j = Some Ended ->
  nth_error (workers (stepsN n i st)) j = Some Ended.
Proof.
  revert st. induction n as [| n IH]; intros st Hj; [assumption |].
  cbn [steps]. apply IH. now apply step_keeps_ended.
Qed.

Lemma run_to_end_length (i : nat) (st : pool) :
  length (workers (to_end i st)) = length (workers st).
Proof.
  unfold run_to_end.
  destruct (nth_error (workers st) i) as [[remaining |] |]; try reflexivity.
  apply steps_length.
Qed.

Lemma run_to_end_keeps_ended (i j : nat) (st : pool) :
  nth_error (workers st) j = Some Ended ->
  nth_error (workers (to_end i st)) j = Some Ended.
Proof.
  intros Hj. unfold run_to_end.
  destruct (nth_error (workers st) i) as [[remaining |] |]; try assumption.
  now apply steps_keeps_ended.
Qed.

Lemma run_to_end_ends (i : nat) (st : pool) :
  (i < length (workers st))%nat ->
  nth_error (workers (to_end i st)) i = Some Ended.
Proof.
  intros Hi. unfold run_to_end.
  destruct (nth_error (workers st) i) as [[remaining |] |] eqn:E.
  - apply steps_end with (remaining := remaining); [assumption | lia].
  - assumption.
  - apply nth_error_None in E. lia.
Qed.

Lemma fold_run_to_end (js : list nat) (st : pool) :
  let st' := fold_left (fun st i => to_end i st) js st in
  length (workers st') = length (workers st)
  /\ (forall j, nth_error (workers st) j = Some Ended ->
                nth_error (workers st') j = Some Ended)
  /\ (forall j, In j js -> (j < length (workers st))%nat ->
                nth_error (workers st') j = Some Ended).
Proof.
  revert st. induction js as [| i js IH]; intros st; cbn [fold_left].
  - repeat split; auto. intros j [].
  - destruct (IH (to_end i st)) as (Hlen & Hkeep & Hends).
    cbv zeta. rewrite run_to_end_length in *.
    repeat split.
    + exact Hlen.
    + intros j Hj. apply Hkeep. now apply run_to_end_keeps_ended.
    + intros j [<- | Hj] Hlt.
      * apply Hkeep. now apply run_to_end_ends.
      * now apply Hends.
Qed.

(** When [map] returns, every call of [enumerate_subset] has ended. *)
Lemma join_all_ended (st : pool) (j : nat) (wk : worker) :
  nth_error (workers (joined st)) j = Some wk -> wk = Ended.
Proof.
  intros Hj. unfold join in *.
  destruct (fold_run_to_end (seq 0 (length (workers st))) st) as (Hlen & _ & Hends).
  cbv zeta in *.
  assert (Hlt : (j < length (workers st))%nat).
  { rewrite <- Hlen. apply nth_error_Some. congruence. }
  rewrite Hends in Hj; [congruence | | assumption].
  apply in_seq. lia.
Qed.
End PoolFacts.

Section FirstRaised.
Context `{Runtime}.
Variables (server_name : str) (protocol : Protocol) (port : Z) (timeout : Timeout).

Local Abbreviation step1 := (step server_name protocol port timeout).
Local Abbreviation stepsN := (steps server_name protocol port timeout).
Local Abbreviation run := (run_schedule server_name protocol port timeout).
Local Abbreviation to_end := (run_to_end server_name protocol port timeout).
Local Abbreviation joined := (join server_name protocol port timeout).

(** The first exception raised stays the one [map] will raise. *)
Lemma step_first_raised (i : nat) (st : pool) (e : exn) :
first_raised st = Some e -> first_raised (step1 i st) = Some e.
Proof.
intros He. unfold step.
destruct (nth_error (workers st) i) as [[remaining |] |]; try assumption.
destruct (loop_body _ _ _ _ _ _ _) as [[w' acc'] out].
cbn [first_raised]. now rewrite He.
Qed.

Lemma steps_first_raised (n i : nat) (st : pool) (e : exn) :
first_raised st = Some e -> first_raised (stepsN n i st) = Some e.
Proof.
revert st. induction n as [| n IH]; intros st He; [assumption |].
cbn [steps]. apply IH. now apply step_first_raised.
Qed.

Lemma run_schedule_first_raised (schedule : list nat) (st : pool) (e : exn) :
first_raised st = Some e -> first_raised (run schedule st) = Some e.
Proof.
revert st. induction schedule as [| i schedule IH]; intros st He; [assumption |].
cbn [run_schedule fold_left]. apply IH. now apply step_first_raised.
Qed.

Lemma run_to_end_first_raised (i : nat) (st : pool) (e : exn) :
first_raised st = Some e -> first_raised (to_end i st) = Some e.
Proof.
intros He. unfold run_to_end.
destruct (nth_error (workers st) i) as [[remaining |] |]; try assumption.
now apply steps_first_raised.
Qed.

Lemma join_first_raised (st : pool) (e : exn) :
first_raised st = Some e -> first_raised (joined st) = Some e.
Proof.
unfold join. generalize (seq 0 (length (workers st))). intros js. revert st.
induction js as [| i js IH]; intros st He; [assumption |].
cbn [fold_left]. apply IH. now apply run_to_end_first_raised.
Qed.

Lemma run_schedule_app (s1 s2 : list nat) (st : pool) :
run (s1 ++ s2) st = run s2 (run s1 st).
Proof. unfold run_schedule. apply fold_left_app. Qed.

(** Waiting on calls that have all ended changes nothing. *)
Lemma join_ended (st : pool) :
(forall j wk, nth_error (workers st) j = Some wk -> wk = Ended) ->
joined st = st.
Proof.
intros Hall. unfold join. generalize (seq 0 (length (workers st))). intros js.
induction js as [| i js IH]; [reflexivity |].
cbn [fold_left].
replace (to_end i st) with st; [exact IH |].
unfold run_to_end.
destruct (nth_error (workers st) i) as [[remaining |] |] eqn:E; try reflexivity.
specialize (Hall i _ E). discriminate.
Qed.

Lemma steps_as_schedule (n i : nat) (st : pool) :
stepsN n i st = run (repeat i n) st.
Proof.
revert st. induction n as [| n IH]; intros st; [reflexivity |].
cbn [steps repeat]. now rewrite IH.
Qed.

(** The wait of [map] is itself a schedule. *)
Lemma join_as_schedule (st : pool) : exists schedule, joined st = run schedule st.
Proof.
unfold join. generalize (seq 0 (length (workers st))). intros js. revert st.
induction js as [| i js IH]; intros st.
- exists []. reflexivity.
- cbn [fold_left].
  destruct (IH (to_end i st)) as [s2 E2].
  assert (E1 : exists s1, to_end i st = run s1 st).
  { unfold run_to_end.
    destruct (nth_error (workers st) i) as [[remaining |] |].
    - eexists. apply steps_as_schedule.
    - now exists [].
    - now exists []. }
  destruct E1 as [s1 E1].
  exists (s1 ++ s2). rewrite run_schedule_app, <- E1. exact E2.
Qed.
End FirstRaised.

(** Every run of the pool is the run of a schedule that takes every call to
    its end. *)
Lemma pool_map_complete_schedule `{Runtime} (server_name : str) (protocol : Protocol)
    (port : Z) (timeout : Timeout) (schedule : list nat) (w : World)
    (accepted : list CipherSuite) (parts : list (list CipherSuite)) :
  exists schedule',
    pool_map server_name protocol port timeout schedule w accepted parts
    = run_schedule server_name protocol port timeout (schedule ++ schedule')
        (mkPool w accepted (map Running parts) None)
    /\ pool_map server_name protocol port timeout (schedule ++ schedule') w accepted parts
       = pool_map server_name protocol port timeout schedule w accepted parts.
Proof.
  unfold pool_map.
  destruct (join_as_schedule server_name protocol port timeout
              (run_schedule server_name protocol port timeout schedule
                 (mkPool w accepted (map Running parts) None))) as [s' E].
  exists s'. rewrite run_schedule_app, <- E. split; [reflexivity |].
  apply join_ended. intros j wk. apply join_all_ended.
Qed.

(** ** Properties of the driver *)


(** C7: [enumerate_ciphers_suites] never returns an empty list. When it
    returns, every call of [enumerate_subset] has ended, none has raised,
    and the list is the shared list of accepted cipher suites, which is not
    empty; when that list is empty at the end of the run the function
    raises: the [ValueError] 'Server did not accept any cipher suite' unless
    a call raised before. *)
Theorem enumerate_never_returns_empty `{Runtime} (schedule : list nat) (w : World)
    (host : str) (protocol : Protocol) (port max_workers : Z) (timeout : Timeout) :
  (forall accepted,
     snd (enumerate_ciphers_suites schedule w host protocol port max_workers timeout)
     = inr accepted ->
     accepted <> [])
  /\ (forall server_name port',
        _parse_host host port = inr (server_name, port') ->
        1 <= max_workers ->
        let st := pool_map server_name protocol port' timeout schedule w []
                    (cipher_suite_parts max_workers) in
        (forall j wk, nth_error (workers st) j = Some wk -> wk = Ended)
        /\ (accepted_cipher_suites st = [] ->
            snd (enumerate_ciphers_suites schedule w host protocol port max_workers
                   timeout)
            = inl (match first_raised st with
                   | Some e => e
                   | None => ValueError (No_cipher_suite_accepted protocol)
                   end))
        /\ (forall accepted,
              snd (enumerate_ciphers_suites schedule w host protocol port max_workers
                     timeout) = inr accepted ->
              accepted = accepted_cipher_suites st /\ first_raised st = None)).
Proof.
  split.
  - intros accepted. unfold enumerate_ciphers_suites.
    destruct (_parse_host host port) as [e | [server_name port']]; [discriminate |].
    destruct (max_workers <? 1); [discriminate |].
    cbn [snd].
    destruct (first_raised _); [discriminate |].
    destruct (accepted_cipher_suites _) as [| c cs]; [discriminate |].
    intros [= <-]. discriminate.
  - intros server_name port' Hhost Hworkers st.
    split; [| split].
    + intros j wk. apply join_all_ended.
    + intros Hempty. unfold enumerate_ciphers_suites. rewrite Hhost.
      destruct (Z.ltb_spec max_workers 1); [lia |].
      cbn [snd]. fold st. rewrite Hempty.
      now destruct (first_raised st).
    + intros accepted. unfold enumerate_ciphers_suites. rewrite Hhost.
      destruct (Z.ltb_spec max_workers 1); [lia |].
      cbn [snd]. fold st.
      destruct (first_raised st); [discriminate |].
      destruct (accepted_cipher_suites st) as [| c cs]; [discriminate |].
      now intros [= <-].
Qed.


Lemma enumerate_never_returns_empty_witness :
  [TLS_AES_256_GCM_SHA384] <> []
  /\ snd (enumerate_ciphers_suites (H:=scripted) []
            [alert_record FATAL handshake_failure] example_com TLS_1_3 443 1 tt)
     = inl (ValueError (No_cipher_suite_accepted TLS_1_3)).
Proof.
  split.
  - destruct (enumerate_never_returns_empty (H:=scripted) []
                [server_hello_record TLS_AES_256_GCM_SHA384;
                 alert_record FATAL handshake_failure]
                example_com TLS_1_3 443 1 tt) as [Hne _].
    apply Hne. vm_compute. reflexivity.
  - destruct (enumerate_never_returns_empty (H:=scripted) []
                [alert_record FATAL handshake_failure]
                example_com TLS_1_3 443 1 tt) as [_ Hrun].
    destruct (Hrun example_com 443 eq_refl ltac:(lia)) as (_ & Hempty & _).
    apply Hempty. vm_compute. reflexivity.
Defined.

(** ** Host strings *)

Lemma contains_In (sep : N) (s : str) : contains sep s = true <-> In sep s.
Proof.
  unfold contains. rewrite existsb_exists. split.
  - intros (c & Hc & E). apply N.eqb_eq in E. now subst.
  - intros Hs. exists sep. split; [assumption | apply N.eqb_refl].
Qed.

Lemma split_once_spec (sep : N) (s : str) :
  contains sep s = true ->
  exists head tail,
    split_once sep s = [head; tail] /\ s = head ++ sep :: tail /\ ~ In sep head.
Proof.
  induction s as [| c s IH]; [discriminate |].
  cbn [contains existsb split_once].
  destruct (N.eqb_spec c sep) as [-> | Hc].
  - intros _. exists [], s. repeat split. intros [].
  - destruct (N.eqb_spec sep c) as [E |]; [congruence |].
    cbn [orb]. intros Hs.
    destruct (IH Hs) as (head & tail & -> & -> & Hhead).
    exists (c :: head), tail. repeat split.
    intros [E | Hin]; [congruence | contradiction].
Qed.

Lemma split_once_app (sep : N) (head tail : str) :
  contains sep head = false ->
  split_once sep (head ++ sep :: tail) = [head; tail].
Proof.
  induction head as [| c head IH]; cbn [contains existsb split_once app].
  - intros _. now rewrite N.eqb_refl.
  - intros Hc. apply orb_false_elim in Hc as [Hc Hhead].
    rewrite N.eqb_sym, Hc. now rewrite (IH Hhead).
Qed.

Lemma contains_app (sep : N) (head tail : str) :
  contains sep (head ++ sep :: tail) = true.
Proof. apply contains_In, in_elt. Qed.

(** With a ':' in the host, [_parse_host] returns the name before the
    first ':' with [int] of what follows it, whatever the port argument. *)
Lemma _parse_host_split `{Runtime} (name port_str : str) (port : Z) :
  contains colon name = false ->
  _parse_host (name ++ colon :: port_str) port
  = match int port_str with
    | Some n => inr (name, n)
    | None => inl (ValueError Invalid_literal_for_int)
    end.
Proof.
  intros Hname. unfold _parse_host.
  rewrite contains_app, (split_once_app _ _ _ Hname).
  now destruct (int port_str).
Qed.

Lemma _parse_host_plain `{Runtime} (host : str) (port : Z) :
  contains colon host = false -> _parse_host host port = inr (host, port).
Proof. intros Hcolon. unfold _parse_host. now rewrite Hcolon. Qed.

(** A host with a ':' splits at the first one. *)
Lemma host_split (host : str) :
  contains colon host = true ->
  exists name port_str,
    host = name ++ colon :: port_str /\ contains colon name = false.
Proof.
  intros Hcolon.
  destruct (split_once_spec colon host Hcolon) as (name & port_str & _ & Ehost & Hname).
  exists name, port_str. split; [exact Ehost |].
  destruct (contains colon name) eqn:E; [| reflexivity].
  apply contains_In in E. contradiction.
Qed.

(** ** More on the byte codec *)

Lemma from_uint8_acc (b : bytes) (a : Z) :
  fold_left (fun acc x => acc * 256 + byte_to_Z x) b a
  = a * 256 ^ len b + from_uint8 b.
Proof.
  unfold from_uint8. revert a.
  induction b as [| x b IH]; intros a.
  - simpl. change (len (@nil byte)) with 0. lia.
  - cbn [fold_left]. rewrite IH, (IH (0 * 256 + byte_to_Z x)).
    replace (len (x :: b)) with (len b + 1) by (unfold len; simpl length; lia).
    rewrite Z.pow_add_r by (pose proof (len_nonneg b); lia).
    lia.
Qed.

Lemma from_uint8_cons (x : byte) (b : bytes) :
  from_uint8 (x :: b) = byte_to_Z x * 256 ^ len b + from_uint8 b.
Proof.
  unfold from_uint8 at 1. cbn [fold_left]. rewrite from_uint8_acc. lia.
Qed.

Lemma from_uint8_range (b : bytes) : 0 <= from_uint8 b < 256 ^ len b.
Proof.
  induction b as [| x b IH].
  - unfold from_uint8. simpl. change (len (@nil byte)) with 0. lia.
  - rewrite from_uint8_cons.
    replace (len (x :: b)) with (len b + 1) by (unfold len; simpl length; lia).
    rewrite Z.pow_add_r by (pose proof (len_nonneg b); lia).
    pose proof (byte_to_Z_range x). nia.
Qed.

Lemma from_uint8_be_bytes (k : nat) (n : Z) :
  from_uint8 (be_bytes k n) = n mod 256 ^ Z.of_nat k.
Proof.
  induction k as [| k IH].
  - unfold from_uint8. simpl. now rewrite Z.mod_1_r.
  - cbn [be_bytes]. rewrite from_uint8_cons, len_be_bytes, IH, byte_to_Z_of_Z.
    rewrite Nat2Z.inj_succ, Z.pow_succ_r by lia.
    rewrite (Z.mul_comm 256), Z.rem_mul_r by lia.
    lia.
Qed.

Lemma from_uint8_inj (b b' : bytes) :
  length b = length b' -> from_uint8 b = from_uint8 b' -> b = b'.
Proof.
  revert b'. induction b as [| x b IH]; intros [| x' b'] Hlen E; try discriminate.
  - reflexivity.
  - injection Hlen as Hlen.
    rewrite !from_uint8_cons in E.
    assert (Hl : len b = len b') by (unfold len; now rewrite Hlen).
    rewrite <- Hl in E.
    pose proof (from_uint8_range b) as Hb.
    pose proof (from_uint8_range b') as Hb'. rewrite <- Hl in Hb'.
    assert (Hx : byte_to_Z x = byte_to_Z x') by nia.
    f_equal.
    + now apply byte_to_Z_inj.
    + apply IH; [assumption | nia].
Qed.

(** X1: [n.to_bytes(k, "big")] returns exactly [k] bytes that
    [int.from_bytes] reads back as [n] when [0 <= n < 256^k], and raises
    [OverflowError] for every other [n]; so do [to_uint8], [to_uint16] and
    [to_uint24] with [from_uint8]/[from_uint16]. *)
Theorem to_bytes_from_bytes (k : nat) (n : Z) :
  (0 <= n < 256 ^ Z.of_nat k ->
   exists b, to_bytes k n = inr b /\ length b = k /\ from_uint8 b = n)
  /\ (n < 0 \/ 256 ^ Z.of_nat k <= n -> to_bytes k n = inl OverflowError).
Proof.
  split.
  - intros Hn. exists (be_bytes k n).
    split; [now apply to_bytes_ok |].
    split; [apply length_be_bytes |].
    rewrite from_uint8_be_bytes. now apply Z.mod_small.
  - intros Hn. unfold to_bytes.
    destruct (Z.leb_spec 0 n); destruct (Z.ltb_spec n (256 ^ Z.of_nat k));
      try reflexivity; lia.
Qed.

Lemma to_bytes_from_bytes_witness :
  (exists b, to_uint24 197 = inr b /\ length b = 3%nat /\ from_uint8 b = 197)
  /\ to_uint16 65536 = inl OverflowError
  /\ to_uint8 (-1) = inl OverflowError.
Proof.
  split; [| split].
  - destruct (to_bytes_from_bytes 3 197) as [Hok _]. apply Hok. simpl. lia.
  - destruct (to_bytes_from_bytes 2 65536) as [_ Hbad]. apply Hbad. simpl. lia.
  - destruct (to_bytes_from_bytes 1 (-1)) as [_ Hbad]. apply Hbad. lia.
Defined.

(** X2: writing back what [int.from_bytes] read gives the bytes again:
    [from_uint8(b).to_bytes(len(b), "big") == b] for every byte string, and
    two byte strings of one length that read as the same integer are
    equal. *)
Theorem from_bytes_to_bytes (b : bytes) :
  to_bytes (length b) (from_uint8 b) = inr b
  /\ forall b', length b' = length b -> from_uint8 b' = from_uint8 b -> b' = b.
Proof.
  split.
  - pose proof (from_uint8_range b) as Hb. unfold len in Hb.
    rewrite to_bytes_ok by assumption. f_equal.
    apply from_uint8_inj; [apply length_be_bytes |].
    rewrite from_uint8_be_bytes. now apply Z.mod_small.
  - intros b' Hlen E. now apply from_uint8_inj.
Qed.

Lemma from_bytes_to_bytes_witness :
  to_bytes 3 (from_uint8 [x00; x01; xf4]) = inr [x00; x01; xf4]
  /\ [x13; x01] = [x13; x01].
Proof.
  split.
  - destruct (from_bytes_to_bytes [x00; x01; xf4]) as [Hback _]. exact Hback.
  - destruct (from_bytes_to_bytes [x13; x01]) as [_ Hinj].
    apply Hinj; reflexivity.
Defined.

(** ** More on the enumerations and the decoder *)

Ltac nodup_members :=
  repeat (apply NoDup_cons; [simpl; intuition discriminate |]); apply NoDup_nil.

(** X3: each of the four enumerations maps one to one to its wire code:
    calling the class on a value returns a member exactly when that is the
    member's value, no two members share a value, and the member list holds
    every member once. *)
Theorem enums_one_to_one :
  one_to_one Protocol bytes
  /\ one_to_one CipherSuite bytes
  /\ one_to_one AlertLevel Z
  /\ one_to_one AlertDescription Z.
Proof.
  assert (Hgen : forall (A V : Type) (E : PyEnum A V),
             (forall m : A, enum_call (value m) = inr m) ->
             (forall m : A, In m members) ->
             NoDup (members (A:=A)) ->
             one_to_one A V).
  { intros A V E Hcall Hall Hnodup. repeat split.
    - apply enum_call_inv.
    - intros <-. apply Hcall.
    - intros m m' Ev. pose proof (Hcall m) as Em. rewrite Ev, Hcall in Em.
      now injection Em.
    - exact Hall.
    - exact Hnodup. }
  split; [| split; [| split]].
  - apply Hgen; [apply Protocol_call_value | | nodup_members].
    intros m. destruct m; simpl; tauto.
  - apply Hgen; [apply CipherSuite_call_value | | nodup_members].
    intros m. destruct m; simpl; tauto.
  - apply Hgen; [apply AlertLevel_call_value | | nodup_members].
    intros m. destruct m; simpl; tauto.
  - apply Hgen; [apply AlertDescription_call_value | | nodup_members].
    intros m. destruct m; simpl; tauto.
Qed.

Lemma enums_one_to_one_witness :
  enum_call (A:=CipherSuite) [xc0; x2f] = inr TLS_ECDHE_RSA_WITH_AES_128_GCM_SHA256
  /\ enum_call (A:=AlertDescription) 40 = inr handshake_failure.
Proof.
  destruct enums_one_to_one as (_ & (Hc & _) & _ & (Ha & _)).
  split.
  - apply Hc. reflexivity.
  - apply Ha. reflexivity.
Defined.

Lemma slice_app_within {A : Type} (b tail : list A) (i j : Z) :
  0 <= i -> j <= len b -> slice (b ++ tail) i j = slice b i j.
Proof.
  intros Hi Hj. unfold slice, len in *.
  destruct (Z.le_gt_cases j i) as [Hji | Hij].
  - now replace (Z.to_nat (j - i)) with 0%nat by lia.
  - rewrite skipn_app, firstn_app.
    replace (Z.to_nat i - length b)%nat with 0%nat by lia.
    replace (Z.to_nat (j - i) - length (skipn (Z.to_nat i) b))%nat with 0%nat
      by (rewrite length_skipn; lia).
    cbn [skipn firstn]. now rewrite app_nil_r.
Qed.

Lemma slice_length_le {A : Type} (b : list A) (i j : Z) :
  0 <= i -> length (slice b i j) = Z.to_nat (j - i) -> (j <= i \/ j <= len b).
Proof.
  intros Hi. unfold slice, len. rewrite length_firstn, length_skipn. lia.
Qed.

(** What a returned ServerHello says of the buffer. *)
Lemma from_packet_inr (packet : bytes) (hello : ServerHello) :
  from_packet packet = inr hello ->
  hd_error packet = Some x16
  /\ (44 <= length packet)%nat
  /\ In (from_uint16 (slice packet 9 11)) [0x0301; 0x0302; 0x0303]
  /\ In (from_uint8 (slice packet 43 44)) [0; 0x20]
  /\ value (protocol hello) = slice packet 9 11
  /\ value (cipher_suite hello)
     = slice packet (44 + from_uint8 (slice packet 43 44))
                    (44 + from_uint8 (slice packet 43 44) + 2).
Proof.
  intros Hok.
  assert (Hhd : hd_error packet = Some x16).
  { destruct packet as [| b rest]; [discriminate |].
    destruct (Byte.byte_eq_dec b x15) as [-> | H15].
    - now destruct (alert_never_returns (x15 :: rest) hello eq_refl).
    - destruct (Byte.byte_eq_dec b x16) as [-> | H16]; [reflexivity |].
      rewrite from_packet_other_record_type in Hok by assumption.
      discriminate. }
  destruct (Nat.lt_ge_cases (length packet) 44) as [Hshort | Hlong].
  { rewrite from_packet_handshake_short in Hok by assumption. discriminate. }
  rewrite (from_packet_handshake packet Hhd Hlong) in Hok.
  apply assert_bind_inr in Hok as [_ Hok].
  apply assert_bind_inr in Hok as [_ Hok].
  apply assert_bind_inr in Hok as [H3 Hok].
  apply assert_bind_inr in Hok as [H4 Hok].
  apply in_list_In in H3, H4.
  assert (Hlen : length (slice packet 9 11) = 2%nat)
    by (rewrite slice_length; unfold len; lia).
  apply length_two in Hlen as (b1 & b2 & E). rewrite E in *.
  rewrite to_uint16_from_uint16 in Hok. unfold bind at 1 in Hok.
  apply bind_inr in Hok as (p & Ep & Hok).
  apply bind_inr in Hok as (c & Ec & Hok).
  injection Hok as <-. cbn [protocol cipher_suite].
  apply enum_call_inv in Ep, Ec. auto 10.
Qed.

(** X4: the protocol of a returned ServerHello is one of TLS 1.0, 1.1 and
    1.2, never SSLv3 and never TLS 1.3: it is read from the legacy
    server_version field only. *)
Theorem from_packet_protocol_legacy (packet : bytes) (hello : ServerHello) :
  from_packet packet = inr hello ->
  In (protocol hello) [TLS_1_0; TLS_1_1; TLS_1_2].
Proof.
  intros Hok.
  apply from_packet_inr in Hok as (_ & _ & Hsv & _ & Hp & _).
  rewrite <- Hp in Hsv.
  destruct (protocol hello); simpl; auto;
    simpl in Hsv; destruct Hsv as [E | [E | [E | []]]]; discriminate E.
Qed.

Lemma from_packet_protocol_legacy_witness :
  In TLS_1_1 [TLS_1_0; TLS_1_1; TLS_1_2].
Proof.
  apply (from_packet_protocol_legacy
           (synthetic_server_hello TLS_1_2 [x00; x2e] [x00; x00; x2a] TLS_1_1
              client_random [] TLS_AES_128_GCM_SHA256 [])
           (mkServerHello TLS_1_1 TLS_AES_128_GCM_SHA256)).
  reflexivity.
Defined.

Lemma bind_inl {A B : Type} (c : result A) (k : A -> result B) (e : exn) :
  bind c k = inl e -> c = inl e \/ exists a, c = inr a /\ k a = inl e.
Proof. destruct c as [e' | a]; simpl; intros E; [left; congruence | eauto]. Qed.

Lemma assert_inl (b : bool) (e : exn) : assert_ b = inl e -> e = AssertionError.
Proof. destruct b; [discriminate | now intros [= <-]]. Qed.

Lemma to_bytes_inl (k : nat) (n : Z) (e : exn) :
  to_bytes k n = inl e -> e = OverflowError.
Proof. unfold to_bytes. destruct (_ && _); [discriminate | now intros [= <-]]. Qed.

Lemma enum_call_inl {A V : Type} `{PyEnum A V} (v : V) (e : exn) :
  enum_call v = inl e -> e = ValueError (Not_a_valid class_of).
Proof.
  destruct (enum_call_cases (A:=A) v) as [[m E] | E]; rewrite E;
    [discriminate | now intros [= <-]].
Qed.

(** A handshake record never ends in a [ServerError]. *)
Lemma handshake_raises_no_ServerError (packet : bytes) (p : Protocol) (l : AlertLevel)
    (a : AlertDescription) :
  hd_error packet = Some x16 -> from_packet packet <> inl (ServerError p l a).
Proof.
  intros Hhd Herr.
  destruct (Nat.lt_ge_cases (length packet) 44) as [Hshort | Hlong].
  { rewrite from_packet_handshake_short in Herr by assumption. discriminate. }
  rewrite (from_packet_handshake packet Hhd Hlong) in Herr.
  repeat (apply bind_inl in Herr as [Herr | (? & _ & Herr)];
          [apply assert_inl in Herr; discriminate |]).
  apply bind_inl in Herr as [Herr | (? & _ & Herr)];
    [apply to_bytes_inl in Herr; discriminate |].
  apply bind_inl in Herr as [Herr | (? & _ & Herr)];
    [apply enum_call_inl in Herr; discriminate |].
  apply bind_inl in Herr as [Herr | (? & _ & Herr)];
    [apply enum_call_inl in Herr; discriminate |].
  discriminate.
Qed.

(** X5: [from_packet] reads nothing past the cipher suite of a handshake
    record or past the seventh byte of an alert record: a buffer that
    decodes to a ServerHello, or to a ServerError, decodes to the same with
    any bytes appended. *)
Theorem from_packet_ignores_tail (packet tail : bytes) :
  (forall hello, from_packet packet = inr hello ->
                 from_packet (packet ++ tail) = inr hello)
  /\ (forall p l a, from_packet packet = inl (ServerError p l a) ->
                    from_packet (packet ++ tail) = inl (ServerError p l a)).
Proof.
  split.
  - intros hello Hok. pose proof Hok as Hinv.
    apply from_packet_inr in Hinv as (Hhd & Hlong & _ & Hsid & _ & Hc).
    assert (Hhd' : hd_error (packet ++ tail) = Some x16)
      by (destruct packet; [discriminate | exact Hhd]).
    assert (Hlong' : (44 <= length (packet ++ tail))%nat)
      by (rewrite length_app; lia).
    rewrite <- Hok.
    rewrite (from_packet_handshake _ Hhd' Hlong'), (from_packet_handshake _ Hhd Hlong).
    assert (Hlen : 44 <= len packet) by (unfold len; lia).
    assert (Hsid' : 0 <= from_uint8 (slice packet 43 44))
      by (destruct Hsid as [E | [E | []]]; rewrite <- E; lia).
    assert (Hfit : 44 + from_uint8 (slice packet 43 44) + 2 <= len packet).
    { apply (f_equal (@length _)) in Hc.
      rewrite CipherSuite_value_length in Hc. symmetry in Hc.
      destruct (slice_length_le packet (44 + from_uint8 (slice packet 43 44))
                  (44 + from_uint8 (slice packet 43 44) + 2)) as [Hbad | Hfit];
        [lia | rewrite Hc; f_equal; lia | lia | exact Hfit]. }
    rewrite !(slice_app_within packet tail 1 3) by lia.
    rewrite !(slice_app_within packet tail 5 6) by lia.
    rewrite !(slice_app_within packet tail 9 11) by lia.
    rewrite !(slice_app_within packet tail 43 44) by lia.
    rewrite (slice_app_within packet tail) by lia.
    reflexivity.
  - intros p l a Herr.
    destruct packet as [| b rest]; [discriminate |].
    destruct (Byte.byte_eq_dec b x15) as [-> | H15].
    + destruct (Nat.lt_ge_cases (length (x15 :: rest)) 7) as [Hshort | Hlong].
      { rewrite from_packet_alert_short in Herr by (reflexivity || assumption).
        discriminate. }
      rewrite <- Herr.
      rewrite (from_packet_alert ((x15 :: rest) ++ tail) eq_refl)
        by (rewrite length_app; lia).
      rewrite (from_packet_alert (x15 :: rest) eq_refl Hlong).
      assert (Hlen : 7 <= len (x15 :: rest)) by (unfold len; lia).
      now rewrite !(slice_app_within (x15 :: rest) tail) by lia.
    + destruct (Byte.byte_eq_dec b x16) as [-> | H16].
      * destruct (Nat.lt_ge_cases (length (x16 :: rest)) 44) as [Hshort | Hlong].
        { rewrite from_packet_handshake_short in Herr by (reflexivity || assumption).
          discriminate. }
        now destruct (handshake_raises_no_ServerError (x16 :: rest) p l a eq_refl).
      * rewrite from_packet_other_record_type in Herr by assumption. discriminate.
Qed.

Lemma from_packet_ignores_tail_witness :
  from_packet (server_hello_record TLS_AES_128_GCM_SHA256 ++ [xff; x01; x00; x01; x00])
  = inr (mkServerHello TLS_1_2 TLS_AES_128_GCM_SHA256)
  /\ from_packet (alert_record FATAL handshake_failure ++ [x15; x03; x03])
     = inl (ServerError TLS_1_2 FATAL handshake_failure).
Proof.
  split.
  - destruct (from_packet_ignores_tail (server_hello_record TLS_AES_128_GCM_SHA256)
                [xff; x01; x00; x01; x00]) as [Hok _].
    apply Hok. reflexivity.
  - destruct (from_packet_ignores_tail (alert_record FATAL handshake_failure)
                [x15; x03; x03]) as [_ Herr].
    apply Herr. reflexivity.
Defined.

(** X6: an alert record decodes to its fields: for every protocol, level
    and description, the record made of 0x15, the protocol's code, any
    two-byte length, the level code and the description code raises
    [ServerError] with that protocol, level and description, whatever
    follows. *)
Theorem from_packet_synthetic_alert (p : Protocol) (l : AlertLevel) (a : AlertDescription)
    (length_field tail : bytes) :
  length length_field = 2%nat ->
  from_packet (synthetic_alert p length_field l a tail) = inl (ServerError p l a).
Proof.
  intros Hlen.
  apply length_two in Hlen as (l1 & l2 & ->).
  rewrite from_packet_alert.
  - assert (Ep : slice (synthetic_alert p [l1; l2] l a tail) 1 3 = value p)
      by (destruct p; reflexivity).
    assert (El : from_uint8 (slice (synthetic_alert p [l1; l2] l a tail) 5 6) = value l)
      by (destruct p, l; reflexivity).
    assert (Ea : from_uint8 (slice (synthetic_alert p [l1; l2] l a tail) 6 7) = value a)
      by (destruct p, a; reflexivity).
    rewrite Ep, El, Ea.
    rewrite Protocol_call_value. unfold bind at 1.
    rewrite AlertLevel_call_value. unfold bind at 1.
    rewrite AlertDescription_call_value. reflexivity.
  - now destruct p.
  - destruct p; simpl; lia.
Qed.

Lemma from_packet_synthetic_alert_witness :
  from_packet (synthetic_alert TLS_1_0 [x00; x02] WARNING close_notify [x17])
  = inl (ServerError TLS_1_0 WARNING close_notify).
Proof. apply from_packet_synthetic_alert. reflexivity. Defined.

(** ** More on the encoder *)

Lemma len_record_layout (self : ClientHello) (v : Protocol) :
  len (record_layout v (concat (map value (allowed_cipher_suites self)))
                     (concat (map extension_block (extension_list self))))
  = 5 + handshake_size self.
Proof.
  unfold record_layout.
  rewrite len_handshake.
  rewrite !len_app, !len_be_bytes, len_client_hello_layout, len_extension_list,
    len_Protocol_value.
  rewrite (len_values (allowed_cipher_suites self) CipherSuite_value_length).
  unfold handshake_size.
  change (len [x16]) with 1. change (len [x01]) with 1. lia.
Qed.

Lemma record_layout_fields (v : Protocol) (cipher_suites ext : bytes) :
  let packet := record_layout v cipher_suites ext in
  let client_hello := client_hello_layout v cipher_suites ext in
  slice packet 0 1 = [x16]
  /\ slice packet 3 5 = be_bytes 2 (len ([x01] ++ be_bytes 3 (len client_hello) ++ client_hello))
  /\ slice packet 5 6 = [x01]
  /\ slice packet 6 9 = be_bytes 3 (len client_hello)
  /\ slice packet 11 43 = client_random
  /\ slice packet 43 44 = [x20]
  /\ slice packet 44 76 = legacy_session_id
  /\ slice packet 76 78 = be_bytes 2 (len cipher_suites)
  /\ skipn 78 packet
     = cipher_suites ++ [x01] ++ [x00] ++ be_bytes 2 (len ext) ++ ext.
Proof.
  cbv zeta. unfold record_layout.
  generalize (len ([x01] ++ be_bytes 3 (len (client_hello_layout v cipher_suites ext))
                   ++ client_hello_layout v cipher_suites ext)).
  generalize (len (client_hello_layout v cipher_suites ext)).
  intros n3 n2. unfold client_hello_layout.
  generalize (len cipher_suites). generalize (len ext). intros ne nc.
  destruct v; repeat split; reflexivity.
Qed.

Lemma slice_from_skipn {A : Type} (b mid rest : list A) (i : nat) (j : Z) :
  skipn i b = mid ++ rest ->
  j = Z.of_nat i + len mid ->
  slice b (Z.of_nat i) j = mid.
Proof.
  intros Hskip ->. unfold slice.
  rewrite Nat2Z.id, Hskip.
  replace (Z.to_nat (Z.of_nat i + len mid - Z.of_nat i)) with (length mid)
    by (unfold len; lia).
  apply firstn_length_app.
Qed.

(** X7: the record [make_packet] returns is well formed: it starts with
    the handshake record type 0x16 and the ClientHello handshake type 0x01,
    it carries the fixed random and session ID, and each of its length
    fields (record, handshake, cipher suites, extensions) counts exactly the
    bytes it covers. *)
Theorem make_packet_well_formed (self : ClientHello) (packet : bytes) :
  make_packet self = inr packet ->
  let c := 2 * len (allowed_cipher_suites self) in
  slice packet 0 1 = [x16]
  /\ from_uint16 (slice packet 3 5) = len packet - 5
  /\ slice packet 5 6 = [x01]
  /\ from_uint8 (slice packet 6 9) = len packet - 9
  /\ slice packet 11 43 = client_random
  /\ slice packet 43 44 = [x20]
  /\ slice packet 44 76 = legacy_session_id
  /\ from_uint16 (slice packet 76 78) = c
  /\ slice packet (78 + c) (80 + c) = [x01; x00]
  /\ from_uint16 (slice packet (80 + c) (82 + c)) = len packet - (82 + c).
Proof.
  intros E. cbv zeta.
  apply make_packet_inr in E as (v & _ & _ & _ & Hsize & _ & ->).
  pose proof (len_nonneg (allowed_cipher_suites self)) as Hc0.
  pose proof (len_nonneg (server_name self)) as Hn0.
  pose proof (supported_versions_size_nonneg self) as Hs0.
  destruct (record_layout_fields v (concat (map value (allowed_cipher_suites self)))
              (concat (map extension_block (extension_list self))))
    as (H0 & H3 & H5 & H6 & H11 & H43 & H44 & H76 & H78).
  cbv zeta in *.
  rewrite len_record_layout.
  rewrite H0, H3, H5, H6, H11, H43, H44, H76.
  rewrite len_handshake, len_client_hello_layout, len_extension_list in *.
  rewrite (len_values (allowed_cipher_suites self) CipherSuite_value_length) in *.
  unfold handshake_size in *.
  rewrite !from_uint16_be_bytes by lia.
  rewrite from_uint8_be_bytes, Z.mod_small by (simpl Z.pow; lia).
  assert (Hskip : skipn (Z.to_nat (78 + 2 * len (allowed_cipher_suites self)))
                    (record_layout v (concat (map value (allowed_cipher_suites self)))
                       (concat (map extension_block (extension_list self))))
                  = [x01; x00]
                    ++ be_bytes 2 (159 + len (server_name self)
                                   + supported_versions_size self)
                    ++ concat (map extension_block (extension_list self))).
  { replace (Z.to_nat (78 + 2 * len (allowed_cipher_suites self)))
      with (length (concat (map value (allowed_cipher_suites self))) + 78)%nat.
    - rewrite <- skipn_skipn, H78. apply skipn_length_app.
    - pose proof (len_values (allowed_cipher_suites self) CipherSuite_value_length) as Hl.
      unfold len in *. lia. }
  repeat split; try reflexivity; try lia.
  - unfold slice.
    replace (Z.to_nat (80 + 2 * len (allowed_cipher_suites self)
                       - (78 + 2 * len (allowed_cipher_suites self)))) with 2%nat by lia.
    now rewrite Hskip.
  - unfold slice.
    replace (Z.to_nat (80 + 2 * len (allowed_cipher_suites self)))
      with (2 + Z.to_nat (78 + 2 * len (allowed_cipher_suites self)))%nat by lia.
    rewrite <- skipn_skipn, Hskip.
    replace (Z.to_nat (82 + 2 * len (allowed_cipher_suites self)
                       - (80 + 2 * len (allowed_cipher_suites self)))) with 2%nat by lia.
    cbn [app skipn].
    change 2%nat with (length (be_bytes 2 (159 + len (server_name self)
                                           + supported_versions_size self))) at 1.
    rewrite firstn_length_app.
    rewrite from_uint16_be_bytes by lia. lia.
Qed.

Lemma make_packet_well_formed_witness :
  exists packet,
    make_packet (mkClientHello a_dot_b [TLS_1_3; TLS_1_2]
                               [TLS_AES_128_GCM_SHA256; TLS_AES_256_GCM_SHA384])
    = inr packet
    /\ from_uint16 (slice packet 3 5) = len packet - 5
    /\ from_uint16 (slice packet 76 78) = 4.
Proof.
  destruct (make_packet (mkClientHello a_dot_b [TLS_1_3; TLS_1_2]
                           [TLS_AES_128_GCM_SHA256; TLS_AES_256_GCM_SHA384]))
    as [e | packet] eqn:E; [vm_compute in E; discriminate |].
  destruct (make_packet_well_formed _ packet E)
    as (_ & Hrec & _ & _ & _ & _ & _ & Hcs & _).
  exists packet. split; [reflexivity |]. split; [exact Hrec | exact Hcs].
Defined.

Lemma decode_cipher_suites_values (l : list CipherSuite) :
  decode_cipher_suites (concat (map value l)) = inr l.
Proof.
  induction l as [| c l IH]; [reflexivity |].
  cbn [map concat].
  assert (Ec : exists b1 b2, value c = [b1; b2] /\ enum_call (A:=CipherSuite) [b1; b2] = inr c).
  { destruct (length_two _ (CipherSuite_value_length c)) as (b1 & b2 & E).
    exists b1, b2. split; [exact E |]. rewrite <- E. apply CipherSuite_call_value. }
  destruct Ec as (b1 & b2 & -> & Ec).
  cbn [app decode_cipher_suites]. rewrite Ec. cbn [bind]. now rewrite IH.
Qed.

(** X8: the cipher-suite list survives encoding: reading the uint16 length
    at offset 76 of the record [make_packet] returns and the two-byte codes
    after it gives back [allowed_cipher_suites], in order. *)
Theorem make_packet_offers_cipher_suites (self : ClientHello) (packet : bytes) :
  make_packet self = inr packet ->
  offered_cipher_suites packet = inr (allowed_cipher_suites self).
Proof.
  intros E.
  apply make_packet_inr in E as (v & _ & _ & _ & Hsize & _ & ->).
  pose proof (len_nonneg (allowed_cipher_suites self)) as Hc0.
  pose proof (len_nonneg (server_name self)) as Hn0.
  pose proof (supported_versions_size_nonneg self) as Hs0.
  destruct (record_layout_fields v (concat (map value (allowed_cipher_suites self)))
              (concat (map extension_block (extension_list self))))
    as (_ & _ & _ & _ & _ & _ & _ & H76 & H78).
  cbv zeta in *.
  unfold offered_cipher_suites. rewrite H76.
  rewrite from_uint16_be_bytes
    by (rewrite (len_values (allowed_cipher_suites self) CipherSuite_value_length);
        unfold handshake_size in Hsize; lia).
  rewrite (slice_from_skipn _ _ _ 78 _ H78) by reflexivity.
  apply decode_cipher_suites_values.
Qed.

Lemma make_packet_offers_cipher_suites_witness :
  exists packet,
    make_packet (mkClientHello example_com [TLS_1_2]
                   [TLS_ECDHE_RSA_WITH_AES_128_GCM_SHA256; TLS_RSA_WITH_AES_128_CBC_SHA])
    = inr packet
    /\ offered_cipher_suites packet
       = inr [TLS_ECDHE_RSA_WITH_AES_128_GCM_SHA256; TLS_RSA_WITH_AES_128_CBC_SHA].
Proof.
  destruct (make_packet (mkClientHello example_com [TLS_1_2]
                           [TLS_ECDHE_RSA_WITH_AES_128_GCM_SHA256;
                            TLS_RSA_WITH_AES_128_CBC_SHA]))
    as [e | packet] eqn:E; [vm_compute in E; discriminate |].
  exists packet. split; [reflexivity |].
  exact (make_packet_offers_cipher_suites _ packet E).
Defined.

Lemma record_layout_extensions (v : Protocol) (cipher_suites ext : bytes) :
  skipn (Z.to_nat (82 + len cipher_suites)) (record_layout v cipher_suites ext) = ext.
Proof.
  destruct (record_layout_suffix v cipher_suites ext) as (pre & -> & Hpre).
  replace (Z.to_nat (82 + len cipher_suites)) with (length pre)
    by (unfold len in *; lia).
  apply skipn_length_app.
Qed.

(** X9: the extensions block of the record [make_packet] returns is a
    sequence of {type, length, payload} blocks in which every length field
    is the length of its payload; read back, the server_name payload is the
    name list with the ASCII server name, the supported_versions payload
    (when TLS 1.3 is allowed) is the byte-counted list of the allowed
    protocols' codes in order, and the other payloads are the constants of
    the source. *)
Theorem make_packet_extensions_parse (self : ClientHello) (packet : bytes) :
  make_packet self = inr packet ->
  parse_extensions (skipn (Z.to_nat (82 + 2 * len (allowed_cipher_suites self))) packet)
  = Some (extension_list self).
Proof.
  intros E.
  apply make_packet_inr in E as (v & _ & _ & Hk & Hsize & _ & ->).
  rewrite <- (len_values (allowed_cipher_suites self) CipherSuite_value_length).
  rewrite record_layout_extensions.
  apply parse_extensions_blocks.
  apply extension_list_well_formed; [| assumption].
  pose proof (len_nonneg (allowed_cipher_suites self)).
  pose proof (supported_versions_size_nonneg self).
  unfold handshake_size in Hsize. lia.
Qed.

Lemma make_packet_extensions_parse_witness :
  exists packet,
    make_packet (mkClientHello a_dot_b [TLS_1_3; TLS_1_2] [TLS_AES_128_GCM_SHA256])
    = inr packet
    /\ option_map (fun exts => (nth 0 exts (0, []), nth 10 exts (0, [])))
         (parse_extensions (skipn 84 packet))
       = Some ((0, [x00; x06; x00; x00; x03; x61; x2e; x62]),
               (43, [x04; x03; x04; x03; x03])).
Proof.
  destruct (make_packet (mkClientHello a_dot_b [TLS_1_3; TLS_1_2]
                                       [TLS_AES_128_GCM_SHA256]))
    as [e | packet] eqn:E; [vm_compute in E; discriminate |].
  exists packet. split; [reflexivity |].
  pose proof (make_packet_extensions_parse _ packet E) as Hparse.
  change (Z.to_nat (82 + 2 * len (allowed_cipher_suites
            (mkClientHello a_dot_b [TLS_1_3; TLS_1_2] [TLS_AES_128_GCM_SHA256]))))
    with 84%nat in Hparse.
  rewrite Hparse. reflexivity.
Defined.







(** X11: a ClientHello is never taken for a ServerHello: on every record
    [make_packet] returns, [from_packet] fails with [AssertionError] (at the
    record version for an SSLv3 hello, else at the handshake type). *)
Theorem make_packet_is_no_ServerHello (self : ClientHello) (packet : bytes) :
  make_packet self = inr packet -> from_packet packet = inl AssertionError.
Proof.
  intros E.
  apply make_packet_inr in E as (v & _ & _ & _ & _ & _ & ->).
  pose proof (len_record_layout self v) as Hlen.
  pose proof (len_nonneg (allowed_cipher_suites self)) as Hc0.
  pose proof (len_nonneg (server_name self)) as Hn0.
  pose proof (supported_versions_size_nonneg self) as Hs0.
  unfold handshake_size in Hlen.
  destruct (record_layout_versions v (concat (map value (allowed_cipher_suites self)))
              (concat (map extension_block (extension_list self)))) as [Hr _].
  destruct (record_layout_fields v (concat (map value (allowed_cipher_suites self)))
              (concat (map extension_block (extension_list self))))
    as (_ & _ & H5 & _).
  cbv zeta in H5. unfold legacy_record_version_field in Hr.
  rewrite from_packet_handshake; [| reflexivity | unfold len in Hlen; lia].
  rewrite Hr, H5. unfold record_version.
  destruct (Protocol_eq_dec v SSLv3); reflexivity.
Qed.

Lemma make_packet_is_no_ServerHello_witness :
  exists packet,
    make_packet (mkClientHello a_dot_b [SSLv3] [TLS_RSA_WITH_3DES_EDE_CBC_SHA])
    = inr packet
    /\ from_packet packet = inl AssertionError.
Proof.
  destruct (make_packet (mkClientHello a_dot_b [SSLv3] [TLS_RSA_WITH_3DES_EDE_CBC_SHA]))
    as [e | packet] eqn:E; [vm_compute in E; discriminate |].
  exists packet. split; [reflexivity |].
  exact (make_packet_is_no_ServerHello _ packet E).
Defined.

(** ** The partition of the cipher suites among the workers *)

Lemma CipherSuite_members_NoDup : NoDup (members (A:=CipherSuite)).
Proof. nodup_members. Qed.

Lemma CipherSuite_members_all (c : CipherSuite) : In c members.
Proof. destruct c; simpl; tauto. Qed.

Lemma in_enumerate_from {A : Type} (l : list A) (s : nat) (i : Z) (c : A) :
  In (i, c) (combine (map Z.of_nat (seq s (length l))) l)
  <-> exists k, i = Z.of_nat (s + k) /\ nth_error l k = Some c.
Proof.
  revert s. induction l as [| x l IH]; intros s; cbn [length seq map combine In].
  - split; [intros [] | intros (k & _ & E); destruct k; discriminate].
  - rewrite IH. split.
    + intros [[= <- <-] | (k & -> & E)].
      * exists 0%nat. split; [f_equal; lia | reflexivity].
      * exists (S k). split; [f_equal; lia | exact E].
    + intros ([| k] & -> & E).
      * left. injection E as ->. f_equal. f_equal. lia.
      * right. exists k. split; [f_equal; lia | exact E].
Qed.

Lemma in_enumerate {A : Type} (l : list A) (i : Z) (c : A) :
  In (i, c) (enumerate l) <-> exists k, i = Z.of_nat k /\ nth_error l k = Some c.
Proof. unfold enumerate. now rewrite in_enumerate_from. Qed.

Lemma map_fst_combine {A B : Type} (a : list A) (b : list B) :
  length a = length b -> map fst (combine a b) = a.
Proof.
  revert b. induction a as [| x a IH]; intros [| y b] Hlen; try discriminate.
  - reflexivity.
  - cbn [combine map fst]. f_equal. apply IH. now injection Hlen.
Qed.

Lemma enumerate_NoDup {A : Type} (l : list A) : NoDup (enumerate l).
Proof.
  apply NoDup_map_inv with (f := fst). unfold enumerate.
  rewrite map_fst_combine by now rewrite length_map, length_seq.
  apply NoDup_map_NoDup_ForallPairs; [| apply seq_NoDup].
  intros x y _ _ E. lia.
Qed.

Lemma range_NoDup (n : Z) : NoDup (range n).
Proof.
  unfold range. apply NoDup_map_NoDup_ForallPairs; [| apply seq_NoDup].
  intros x y _ _ E. lia.
Qed.

Lemma in_range (n k : Z) : In k (range n) <-> 0 <= k < n.
Proof.
  unfold range. rewrite in_map_iff. split.
  - intros (x & <- & Hx). apply in_seq in Hx. lia.
  - intros Hk. exists (Z.to_nat k). split; [lia |]. apply in_seq. lia.
Qed.

Lemma NoDup_concat_filters {A N : Type} (p : N -> A -> bool) (l : list A) (ns : list N) :
  NoDup l -> NoDup ns ->
  (forall n n' x, p n x = true -> p n' x = true -> n = n') ->
  NoDup (concat (map (fun n => filter (p n) l) ns)).
Proof.
  intros Hl Hns Hp. induction Hns as [| n ns Hn _ IH]; [constructor |].
  cbn [map concat]. apply NoDup_app; [now apply NoDup_filter | exact IH |].
  intros x Hx Hx'.
  apply filter_In in Hx as [_ Hx].
  apply in_concat in Hx' as (part & Hpart & Hx').
  apply in_map_iff in Hpart as (n' & <- & Hn').
  apply filter_In in Hx' as [_ Hx'].
  now rewrite (Hp n n' x Hx Hx') in Hn.
Qed.

Lemma cipher_suite_parts_as_filters (max_workers : Z) :
  concat (cipher_suite_parts max_workers)
  = map snd (concat (map (fun n => filter (fun ic => fst ic mod max_workers =? n)
                                          (enumerate (members (A:=CipherSuite))))
                         (range max_workers))).
Proof.
  unfold cipher_suite_parts. now rewrite concat_map, map_map.
Qed.

Lemma in_cipher_suite_part (max_workers n : Z) (c : CipherSuite) :
  In c (map snd (filter (fun ic => fst ic mod max_workers =? n)
                        (enumerate (members (A:=CipherSuite)))))
  <-> exists i, nth_error members i = Some c /\ Z.of_nat i mod max_workers = n.
Proof.
  rewrite in_map_iff. split.
  - intros ([i c'] & Hc & Hin). cbn [snd] in Hc. subst c'.
    apply filter_In in Hin as [Hin Hmod]. cbn [fst] in Hmod.
    apply in_enumerate in Hin as (k & -> & Hk).
    exists k. split; [exact Hk | now apply Z.eqb_eq].
  - intros (i & Hi & Hmod).
    exists (Z.of_nat i, c). split; [reflexivity |].
    apply filter_In. split.
    + apply in_enumerate. now exists i.
    + cbn [fst]. now apply Z.eqb_eq.
Qed.

Lemma cipher_suite_parts_NoDup (max_workers : Z) :
  NoDup (concat (cipher_suite_parts max_workers)).
Proof.
  rewrite cipher_suite_parts_as_filters.
  apply NoDup_map_NoDup_ForallPairs.
  - intros [i c] [j c'] Hx Hy E. cbn [snd] in E. subst c'.
    apply in_concat in Hx as (px & Hpx & Hx).
    apply in_map_iff in Hpx as (nx & <- & _). apply filter_In in Hx as [Hx _].
    apply in_concat in Hy as (py & Hpy & Hy).
    apply in_map_iff in Hpy as (ny & <- & _). apply filter_In in Hy as [Hy _].
    apply in_enumerate in Hx as (kx & -> & Hkx).
    apply in_enumerate in Hy as (ky & -> & Hky).
    f_equal. f_equal.
    apply (proj1 (NoDup_nth_error _) CipherSuite_members_NoDup);
      [apply nth_error_Some; congruence | congruence].
  - apply NoDup_concat_filters with (p := fun n ic => fst ic mod max_workers =? n).
    + apply enumerate_NoDup.
    + apply range_NoDup.
    + intros n n' x Hn Hn'. apply Z.eqb_eq in Hn, Hn'. congruence.
Qed.

Lemma cipher_suite_parts_cover (max_workers : Z) (c : CipherSuite) :
  1 <= max_workers -> In c (concat (cipher_suite_parts max_workers)).
Proof.
  intros Hw.
  destruct (In_nth_error _ _ (CipherSuite_members_all c)) as [i Hi].
  apply in_concat.
  exists (map snd (filter (fun ic => fst ic mod max_workers
                                    =? Z.of_nat i mod max_workers)
                          (enumerate (members (A:=CipherSuite))))).
  split.
  - unfold cipher_suite_parts.
    apply in_map_iff. exists (Z.of_nat i mod max_workers). split; [reflexivity |].
    apply in_range. apply Z.mod_pos_bound. lia.
  - apply in_cipher_suite_part. now exists i.
Qed.

Lemma cipher_suite_parts_Permutation (max_workers : Z) :
  1 <= max_workers ->
  Permutation (concat (cipher_suite_parts max_workers)) (members (A:=CipherSuite)).
Proof.
  intros Hw. apply NoDup_Permutation.
  - apply cipher_suite_parts_NoDup.
  - apply CipherSuite_members_NoDup.
  - intros c. split; intros _;
      [apply CipherSuite_members_all | now apply cipher_suite_parts_cover].
Qed.

Lemma nth_range (n : nat) (k : Z) :
  (n < Z.to_nat k)%nat -> nth n (range k) 0 = Z.of_nat n.
Proof.
  intros Hn. unfold range.
  rewrite (nth_indep _ 0 (Z.of_nat 0)) by now rewrite length_map, length_seq.
  now rewrite map_nth, seq_nth.
Qed.

Lemma nth_map_lt {A B : Type} (f : A -> B) (l : list A) (n : nat) (d : B) (d' : A) :
  (n < length l)%nat -> nth n (map f l) d = f (nth n l d').
Proof.
  revert n. induction l as [| x l IH]; intros [| n] Hn; simpl in *; try lia; auto.
  apply IH. lia.
Qed.

(** X12: for a positive worker count, [cipher_suite_parts] splits the
    cipher suites into exactly that many parts; the parts together hold
    every cipher suite exactly once, and the cipher suite at index [i] of
    the enumeration is in part [i % max_workers] and in no other. *)
Theorem cipher_suite_parts_partition (max_workers : Z) :
  1 <= max_workers ->
  length (cipher_suite_parts max_workers) = Z.to_nat max_workers
  /\ Permutation (concat (cipher_suite_parts max_workers)) (members (A:=CipherSuite))
  /\ (forall (n i : nat) (c : CipherSuite),
        (n < Z.to_nat max_workers)%nat ->
        nth_error members i = Some c ->
        (In c (nth n (cipher_suite_parts max_workers) [])
         <-> Z.of_nat i mod max_workers = Z.of_nat n)).
Proof.
  intros Hw. split; [| split].
  - unfold cipher_suite_parts, range. now rewrite !length_map, length_seq.
  - now apply cipher_suite_parts_Permutation.
  - intros n i c Hn Hi.
    unfold cipher_suite_parts.
    rewrite (nth_map_lt _ _ _ _ 0)
      by (unfold range; now rewrite !length_map, length_seq).
    rewrite nth_range by assumption.
    rewrite in_cipher_suite_part. split.
    + intros (j & Hj & Hmod).
      replace i with j; [exact Hmod |].
      apply (proj1 (NoDup_nth_error _) CipherSuite_members_NoDup);
        [apply nth_error_Some; congruence | congruence].
    + intros Hmod. now exists i.
Qed.

Lemma cipher_suite_parts_partition_witness :
  length (cipher_suite_parts 3) = 3%nat
  /\ In TLS_AES_128_CCM_8_SHA256 (nth 1 (cipher_suite_parts 3) []).
Proof.
  destruct (cipher_suite_parts_partition 3 ltac:(lia)) as (Hlen & _ & Hpart).
  split; [exact Hlen |].
  apply (Hpart 1%nat 4%nat); [simpl; lia | reflexivity | reflexivity].
Defined.

(** ** Invariants of the pool *)

Lemma py_remove_inr (x : CipherSuite) (l l' : list CipherSuite) :
  py_remove x l = inr l' ->
  exists a b, l = a ++ x :: b /\ l' = a ++ b /\ ~ In x a.
Proof.
  revert l'. induction l as [| y l IH]; intros l'; [discriminate |].
  simpl. destruct (CipherSuite_eq_dec y x) as [-> | Hy].
  - intros [= <-]. exists [], l. repeat split. intros [].
  - intros E. apply bind_inr in E as (l'' & E & [= <-]).
    destruct (IH l'' E) as (a & b & -> & -> & Ha).
    exists (y :: a), b. repeat split.
    intros [Hx | Hx]; [congruence | contradiction].
Qed.

Lemma py_remove_In (x : CipherSuite) (l : list CipherSuite) :
  In x l -> exists l', py_remove x l = inr l'.
Proof.
  induction l as [| y l IH]; [intros [] |].
  simpl. destruct (CipherSuite_eq_dec y x) as [-> | Hy]; [eauto |].
  intros [Hx | Hx]; [congruence |].
  destruct (IH Hx) as [l' ->]. eexists. reflexivity.
Qed.

Lemma set_nth_split {A : Type} (l1 l2 : list A) (x y : A) :
  set_nth (length l1) y (l1 ++ x :: l2) = l1 ++ y :: l2.
Proof. induction l1 as [| z l1 IH]; simpl; congruence. Qed.

Section PoolInvariants.
Context `{Runtime}.
Variables (server_name : str) (protocol : Protocol) (port : Z) (timeout : Timeout).

Local Abbreviation body := (loop_body server_name protocol port timeout).
Local Abbreviation step1 := (step server_name protocol port timeout).
Local Abbreviation stepsN := (steps server_name protocol port timeout).
Local Abbreviation run := (run_schedule server_name protocol port timeout).
Local Abbreviation to_end := (run_to_end server_name protocol port timeout).
Local Abbreviation joined := (join server_name protocol port timeout).

(** How a pass of the loop body can end. *)
Lemma loop_body_cases (w w' : World) (accepted accepted' remaining : list CipherSuite)
    (out : outcome) :
  body w accepted remaining = (w', accepted', out) ->
  (out = Break /\ accepted' = accepted)
  \/ (exists e, out = Raise e)
  \/ (exists c remaining',
        out = Continue remaining' /\ accepted' = accepted ++ [c]
        /\ py_remove c remaining = inr remaining').
Proof.
  unfold loop_body.
  destruct (send _ port None timeout w) as [w1 [e | hello]].
  - destruct e; try (intros [= _ _ <-]; right; left; eauto; fail).
    destruct (AlertDescription_eq_dec alert handshake_failure); intros [= _ <- <-].
    + left. auto.
    + right. left. eauto.
  - destruct (py_remove (cipher_suite hello) remaining) as [e | r] eqn:E;
      intros [= _ <- <-].
    + right. left. eauto.
    + right. right. eauto.
Qed.

(** How a pass changes the pool. *)
Lemma step_cases (i : nat) (st : pool) :
  step1 i st = st
  \/ exists l1 remaining l2,
       workers st = l1 ++ Running remaining :: l2 /\ length l1 = i
       /\ ((accepted_cipher_suites (step1 i st) = accepted_cipher_suites st
            /\ workers (step1 i st) = l1 ++ Ended :: l2
            /\ first_raised (step1 i st) = first_raised st)
           \/ first_raised (step1 i st) <> None
           \/ exists c remaining',
                py_remove c remaining = inr remaining'
                /\ accepted_cipher_suites (step1 i st) = accepted_cipher_suites st ++ [c]
                /\ workers (step1 i st) = l1 ++ Running remaining' :: l2
                /\ first_raised (step1 i st) = first_raised st).
Proof.
  unfold step.
  destruct (nth_error (workers st) i) as [[remaining |] |] eqn:Hi; auto.
  right.
  destruct (nth_error_split _ _ Hi) as (l1 & l2 & Hw & Hlen).
  exists l1, remaining, l2. split; [exact Hw |]. split; [exact Hlen |].
  destruct (body (world st) (accepted_cipher_suites st) remaining)
    as [[w' accepted'] out] eqn:E.
  cbn [accepted_cipher_suites workers first_raised].
  rewrite Hw, <- Hlen, !set_nth_split.
  apply loop_body_cases in E
    as [[-> ->] | [[e ->] | (c & remaining' & -> & -> & Hrm)]].
  - left. now destruct (first_raised st).
  - right. left. now destruct (first_raised st).
  - right. right. exists c, remaining'. now destruct (first_raised st).
Qed.

(** A property every pass keeps holds when [map] returns. *)
Lemma pool_map_invariant (P : pool -> Prop) (schedule : list nat) (w : World)
    (accepted : list CipherSuite) (parts : list (list CipherSuite)) :
  (forall i st, P st -> P (step1 i st)) ->
  P (mkPool w accepted (map Running parts) None) ->
  P (pool_map server_name protocol port timeout schedule w accepted parts).
Proof.
  intros Hstep Hinit.
  assert (Hsteps : forall n i st, P st -> P (stepsN n i st)).
  { induction n as [| n IH]; intros i st Hst; [assumption |].
    cbn [steps]. auto. }
  assert (Hrun : forall s st, P st -> P (run s st)).
  { induction s as [| i s IH]; intros st Hst; [assumption |].
    cbn [run_schedule fold_left]. apply IH. auto. }
  assert (Hend : forall i st, P st -> P (to_end i st)).
  { intros i st Hst. unfold run_to_end.
    destruct (nth_error (workers st) i) as [[remaining |] |]; auto. }
  assert (Hjoin : forall st, P st -> P (joined st)).
  { intros st. unfold join. generalize (seq 0 (length (workers st))).
    intros js. revert st. induction js as [| i js IH]; intros st Hst; [assumption |].
    cbn [fold_left]. apply IH. auto. }
  unfold pool_map. auto.
Qed.

(** While nothing has been raised, the accepted cipher suites and the
    cipher suites still to offer are pairwise distinct. *)
Lemma step_keeps_distinct (i : nat) (st : pool) :
  (first_raised st = None ->
   NoDup (accepted_cipher_suites st ++ flat_map remaining_of (workers st))) ->
  first_raised (step1 i st) = None ->
  NoDup (accepted_cipher_suites (step1 i st)
         ++ flat_map remaining_of (workers (step1 i st))).
Proof.
  intros Hinv.
  destruct (step_cases i st)
    as [-> | (l1 & r & l2 & Hw & _ &
              [(Ha & Hw' & Hf) | [Hraised | (c & r' & Hrm & Ha & Hw' & Hf)]])];
    [exact Hinv | | intros Hnone; contradiction |].
  - rewrite Ha, Hw', Hf. intros Hnone. specialize (Hinv Hnone).
    rewrite Hw in Hinv.
    rewrite !flat_map_app in *. cbn [flat_map remaining_of app] in *.
    apply (Permutation_NoDup (l' := r ++ accepted_cipher_suites st
                                     ++ flat_map remaining_of l1
                                     ++ flat_map remaining_of l2)) in Hinv.
    + now apply NoDup_app_remove_l in Hinv.
    + rewrite (app_assoc (accepted_cipher_suites st) (flat_map remaining_of l1) (r ++ _)).
      rewrite (app_assoc (accepted_cipher_suites st) (flat_map remaining_of l1)
                 (flat_map remaining_of l2)).
      apply Permutation_app_swap_app.
  - rewrite Ha, Hw', Hf. intros Hnone. specialize (Hinv Hnone).
    rewrite Hw in Hinv.
    apply py_remove_inr in Hrm as (a & b & -> & -> & _).
    rewrite !flat_map_app in *. cbn [flat_map remaining_of] in *.
    revert Hinv. apply Permutation_NoDup.
    rewrite <- !app_assoc. apply Permutation_app_head.
    cbn [app].
    rewrite (app_assoc (flat_map remaining_of l1) a).
    rewrite (app_assoc (flat_map remaining_of l1) a (b ++ _)).
    symmetry. apply Permutation_middle.
Qed.
End PoolInvariants.

Lemma flat_map_remaining_of_Running (parts : list (list CipherSuite)) :
  flat_map remaining_of (map Running parts) = concat parts.
Proof.
  induction parts as [| part parts IH]; [reflexivity |].
  cbn [map flat_map remaining_of concat]. now rewrite IH.
Qed.

(** X13: whatever the server answers, a call of [enumerate_subset] ends
    after at most [len(remaining) + 1] passes of its loop, under every
    interleaving with the other calls: a pass that does not end the call
    removes one cipher suite from its list, and a ServerHello naming a
    cipher suite that is not in the list ends it with the [ValueError] of
    [list.remove]. *)
Theorem enumerate_subset_bounded `{Runtime} (server_name : str) (protocol : Protocol)
    (port : Z) (timeout : Timeout) (schedule : list nat) (st : pool) (i : nat)
    (remaining : list CipherSuite) :
  nth_error (workers st) i = Some (Running remaining) ->
  (length remaining < count_occ Nat.eq_dec schedule i)%nat ->
  nth_error (workers (run_schedule server_name protocol port timeout schedule st)) i
  = Some Ended.
Proof.
  revert st remaining.
  induction schedule as [| j schedule IH]; intros st remaining Hi Hcount;
    [simpl in Hcount; lia |].
  cbn [run_schedule fold_left].
  fold (run_schedule server_name protocol port timeout schedule
          (step server_name protocol port timeout j st)).
  destruct (Nat.eq_dec j i) as [-> | Hji].
  - rewrite count_occ_cons_eq in Hcount by reflexivity.
    destruct (step_progress server_name protocol port timeout i st remaining Hi)
      as [Hend | (remaining' & Hrun & Hlen)].
    + clear IH Hcount. revert Hend.
      generalize (step server_name protocol port timeout i st). clear.
      induction schedule as [| j schedule IH]; intros st Hend; [assumption |].
      cbn [run_schedule fold_left]. apply IH. now apply step_keeps_ended.
    + apply IH with (remaining := remaining'); [assumption | lia].
  - rewrite count_occ_cons_neq in Hcount by assumption.
    apply IH with (remaining := remaining); [| assumption].
    now rewrite step_other.
Qed.

Lemma enumerate_subset_bounded_witness :
  nth_error
    (workers
       (run_schedule (H:=scripted) example_com TLS_1_2 443 tt [0; 0]%nat
          (mkPool (H:=scripted)
             [server_hello_record TLS_RSA_WITH_AES_128_GCM_SHA256;
              server_hello_record TLS_RSA_WITH_AES_128_GCM_SHA256]
             [] [Running [TLS_RSA_WITH_AES_128_GCM_SHA256]] None))) 0
  = Some Ended.
Proof.
  apply (enumerate_subset_bounded (H:=scripted)) with
    (remaining := [TLS_RSA_WITH_AES_128_GCM_SHA256]).
  - reflexivity.
  - simpl. lia.
Defined.

(** X14: the list [enumerate_ciphers_suites] returns holds no cipher suite
    twice, whatever the servers answer and however the workers interleave:
    an accepted cipher suite is removed from its worker's list, the lists
    are disjoint, and a ServerHello that repeats a cipher suite makes the
    call raise. *)
Theorem enumerate_returns_distinct `{Runtime} (schedule : list nat) (w : World)
    (host : str) (protocol : Protocol) (port max_workers : Z) (timeout : Timeout)
    (accepted : list CipherSuite) :
  snd (enumerate_ciphers_suites schedule w host protocol port max_workers timeout)
  = inr accepted ->
  NoDup accepted.
Proof.
  unfold enumerate_ciphers_suites.
  destruct (_parse_host host port) as [e | [server_name port']]; [discriminate |].
  destruct (max_workers <? 1); [discriminate |].
  cbn [snd].
  pose proof (pool_map_invariant server_name protocol port' timeout
                (fun st => first_raised st = None ->
                           NoDup (accepted_cipher_suites st
                                  ++ flat_map remaining_of (workers st)))
                schedule w [] (cipher_suite_parts max_workers)) as Hinv.
  cbv beta in Hinv.
  set (st := pool_map server_name protocol port' timeout schedule w []
               (cipher_suite_parts max_workers)) in *.
  destruct (first_raised st) eqn:Hraised; [discriminate |].
  intros Hret.
  assert (Hacc : accepted = accepted_cipher_suites st)
    by (destruct (accepted_cipher_suites st); [discriminate | now injection Hret]).
  rewrite Hacc.
  eapply NoDup_app_remove_r. apply Hinv.
  - intros i st'. apply step_keeps_distinct.
  - intros _. cbn [accepted_cipher_suites workers app].
    rewrite flat_map_remaining_of_Running. apply cipher_suite_parts_NoDup.
  - reflexivity.
Qed.

Lemma enumerate_returns_distinct_witness :
  NoDup [TLS_AES_256_GCM_SHA384; TLS_AES_128_GCM_SHA256].
Proof.
  apply (enumerate_returns_distinct (H:=scripted) []
           [server_hello_record TLS_AES_256_GCM_SHA384;
            server_hello_record TLS_AES_128_GCM_SHA256;
            alert_record FATAL handshake_failure]
           example_com TLS_1_3 443 1 tt).
  vm_compute. reflexivity.
Defined.

(** ** The driver against a server that follows the protocol *)

Lemma offered_cipher_suites_make_packet (self : ClientHello) (packet : bytes) :
  make_packet self = inr packet ->
  offered_cipher_suites packet = inr (allowed_cipher_suites self).
Proof.
  intros E.
  apply make_packet_inr in E as (v & _ & _ & _ & Hsize & _ & ->).
  pose proof (len_nonneg (allowed_cipher_suites self)) as Hc0.
  pose proof (len_nonneg (server_name self)) as Hn0.
  pose proof (supported_versions_size_nonneg self) as Hs0.
  destruct (record_layout_fields v (concat (map value (allowed_cipher_suites self)))
              (concat (map extension_block (extension_list self))))
    as (_ & _ & _ & _ & _ & _ & _ & H76 & H78).
  cbv zeta in *.
  unfold offered_cipher_suites. rewrite H76.
  rewrite from_uint16_be_bytes
    by (rewrite (len_values (allowed_cipher_suites self) CipherSuite_value_length);
        unfold handshake_size in Hsize; lia).
  rewrite (slice_from_skipn _ _ _ 78 _ H78) by reflexivity.
  apply decode_cipher_suites_values.
Qed.

Lemma from_packet_server_hello_record (c : CipherSuite) :
  from_packet (server_hello_record c) = inr (mkServerHello TLS_1_2 c).
Proof. destruct c; reflexivity. Qed.

Lemma find_split {A : Type} (f : A -> bool) (l : list A) (x : A) :
  find f l = Some x ->
  exists a b, l = a ++ x :: b /\ f x = true /\ forall y, In y a -> f y = false.
Proof.
  induction l as [| z l IH]; [discriminate |].
  cbn [find]. destruct (f z) eqn:Ez.
  - intros [= <-]. exists [], l. repeat split; [assumption | intros y []].
  - intros E. destruct (IH E) as (a & b & -> & Hx & Ha).
    exists (z :: a), b. repeat split; [assumption |].
    intros y [<- | Hy]; auto.
Qed.

Lemma filter_none {A : Type} (f : A -> bool) (l : list A) :
  (forall y, In y l -> f y = false) -> filter f l = [].
Proof.
  induction l as [| z l IH]; intros Hl; [reflexivity |].
  cbn [filter]. rewrite (Hl z) by now left. apply IH. intros y Hy. apply Hl. now right.
Qed.

Lemma py_remove_first (c : CipherSuite) (a b : list CipherSuite) :
  ~ In c a -> py_remove c (a ++ c :: b) = inr (a ++ b).
Proof.
  induction a as [| y a IH]; intros Ha; cbn [app py_remove].
  - now destruct (CipherSuite_eq_dec c c).
  - destruct (CipherSuite_eq_dec y c) as [-> | _]; [destruct Ha; now left |].
    rewrite IH; [reflexivity |]. intros Hc. apply Ha. now right.
Qed.

Lemma labels_ok_chars (s : str) (current : nat) :
  labels_ok s current = true ->
  Forall (fun c => (c < 128)%N /\ c <> colon) s.
Proof.
  revert current. induction s as [| c s IH]; intros current Hs; [constructor |].
  cbn [labels_ok] in Hs.
  destruct (N.eqb_spec c dot) as [-> | Hdot].
  - apply andb_prop in Hs as [_ Hs].
    constructor; [split; [reflexivity | discriminate] | now apply IH in Hs].
  - apply andb_prop in Hs as [Hc Hs].
    constructor; [| now apply IH in Hs].
    unfold is_letter_digit_hyphen, colon in *.
    repeat (apply orb_prop in Hc as [Hc | Hc]);
      try (apply andb_prop in Hc as [Hlo Hhi];
           apply N.leb_le in Hlo, Hhi; split; lia).
    apply N.eqb_eq in Hc. subst c. split; [reflexivity | discriminate].
Qed.

(** A valid host name is ASCII, holds no ':' and is short. *)
Lemma valid_host_name_facts (host : str) :
  valid_host_name host = true ->
  ascii_encodable host /\ contains colon host = false /\ len host <= 253.
Proof.
  unfold valid_host_name. intros Hhost.
  apply andb_prop in Hhost as [Hlabels Hlen].
  apply labels_ok_chars in Hlabels. apply Nat.leb_le in Hlen.
  split; [| split].
  - unfold ascii_encodable. eapply Forall_impl; [| exact Hlabels]. now intros c [Hc _].
  - destruct (contains colon host) eqn:Hcolon; [| reflexivity].
    apply contains_In in Hcolon.
    rewrite Forall_forall in Hlabels. now destruct (Hlabels colon Hcolon).
  - unfold len. lia.
Qed.

Section HonestServer.
Variable supported : list CipherSuite.
Variables (host : str) (protocol : Protocol) (port : Z).
Hypothesis host_valid : valid_host_name host = true.
Hypothesis port_valid : valid_port port = true.

Local Abbreviation server := (honest_server supported).
Local Abbreviation step1 := (step (H:=server) host protocol port tt).
Local Abbreviation found := (filter (supports supported) (members (A:=CipherSuite))).
Local Abbreviation offer := (fun wk => filter (supports supported) (remaining_of wk)).

Lemma honest_send (w : nat) (remaining : list CipherSuite) :
  (length remaining <= 22)%nat ->
  send (H:=server) (mkClientHello host [protocol] remaining) port None tt w
  = (S w,
     match find (supports supported) remaining with
     | Some c => inr (mkServerHello TLS_1_2 c)
     | None => inl (ServerError TLS_1_2 FATAL handshake_failure)
     end).
Proof.
  intros Hlen.
  destruct (client_hello_version_nonempty (mkClientHello host [protocol] remaining))
    as [v Ev]; [discriminate |].
  assert (Epacket : make_packet (mkClientHello host [protocol] remaining)
                    = inr (record_layout v (concat (map value remaining))
                             (concat (map extension_block
                                (extension_list (mkClientHello host [protocol] remaining)))))).
  { destruct (valid_host_name_facts host host_valid) as (host_ascii & _ & host_short).
    apply (make_packet_ok _ v Ev); cbn [server_name allowed_protocols].
    - exact host_ascii.
    - intros _. unfold len. simpl. lia.
    - unfold handshake_size, supported_versions_size.
      cbn [server_name allowed_protocols allowed_cipher_suites].
      change (len [protocol]) with 1. unfold len at 1.
      destruct (offers_TLS_1_3 _); lia. }
  unfold send. cbn [create_connection send_recv close server_name honest_server].
  rewrite host_valid, port_valid. cbn [andb].
  rewrite Epacket.
  unfold server_reply.
  rewrite (offered_cipher_suites_make_packet _ _ Epacket).
  cbn [allowed_cipher_suites].
  destruct (find (supports supported) remaining) as [c |].
  - now rewrite from_packet_server_hello_record.
  - reflexivity.
Qed.

Lemma honest_step_found (i : nat) (st : pool (H:=server)) (remaining : list CipherSuite)
    (c : CipherSuite) :
  nth_error (workers st) i = Some (Running remaining) ->
  (length remaining <= 22)%nat ->
  find (supports supported) remaining = Some c ->
  exists a b,
    remaining = a ++ c :: b
    /\ supports supported c = true
    /\ (forall y, In y a -> supports supported y = false)
    /\ step1 i st
       = mkPool (H:=server) (S (world st)) (accepted_cipher_suites st ++ [c])
           (set_nth i (Running (a ++ b)) (workers st)) (first_raised st).
Proof.
  intros Hi Hlen Hfind.
  destruct (find_split _ _ _ Hfind) as (a & b & -> & Hc & Ha).
  exists a, b. repeat split; try assumption.
  assert (Hrm : py_remove c (a ++ c :: b) = inr (a ++ b)).
  { apply py_remove_first. intros Hin. specialize (Ha c Hin). congruence. }
  unfold step. rewrite Hi. unfold loop_body.
  rewrite honest_send by assumption. rewrite Hfind.
  cbn [cipher_suite]. rewrite Hrm.
  now destruct (first_raised st).
Qed.

Lemma honest_step_none (i : nat) (st : pool (H:=server)) (remaining : list CipherSuite) :
  nth_error (workers st) i = Some (Running remaining) ->
  (length remaining <= 22)%nat ->
  find (supports supported) remaining = None ->
  filter (supports supported) remaining = []
  /\ step1 i st
     = mkPool (H:=server) (S (world st)) (accepted_cipher_suites st)
         (set_nth i Ended (workers st)) (first_raised st).
Proof.
  intros Hi Hlen Hfind. split.
  - apply filter_none. now apply find_none.
  - unfold step. rewrite Hi. unfold loop_body.
    rewrite honest_send by assumption. rewrite Hfind.
    destruct (AlertDescription_eq_dec handshake_failure handshake_failure);
      [| congruence].
    now destruct (first_raised st).
Qed.

Lemma honest_step_invariant (n i : nat) (st : pool (H:=server)) :
  honest_invariant supported n st -> honest_invariant supported n (step1 i st).
Proof.
  intros (Hraised & Hn & Hlens & Hperm & Hworld).
  destruct (nth_error (workers st) i) as [[remaining |] |] eqn:Hi;
    [| unfold step; rewrite Hi; now repeat split
     | unfold step; rewrite Hi; now repeat split].
  destruct (nth_error_split _ _ Hi) as (l1 & l2 & Hw & Hl1).
  assert (Hlen : (length remaining <= 22)%nat).
  { rewrite Hw in Hlens. apply Forall_app in Hlens as [_ Hlens].
    now inversion Hlens. }
  rewrite Hw in Hlens, Hperm, Hworld.
  apply Forall_app in Hlens as [Hlens1 Hlens2].
  inversion Hlens2 as [| ? ? _ Hlens2' ]; subst.
  rewrite flat_map_app in Hperm. cbn [flat_map remaining_of] in Hperm.
  rewrite filter_app in Hworld. cbn [filter has_ended] in Hworld.
  destruct (find (supports supported) remaining) as [c |] eqn:Hfind.
  - destruct (honest_step_found _ _ _ _ Hi Hlen Hfind) as (a & b & -> & Hc & Ha & ->).
    rewrite Hw, set_nth_split.
    unfold honest_invariant.
    cbn [first_raised workers accepted_cipher_suites world].
    split; [exact Hraised |]. split; [| split; [| split]].
    + rewrite !length_app in *. cbn [length] in *. lia.
    + apply Forall_app. split; [exact Hlens1 |]. constructor; [| exact Hlens2'].
      cbn [remaining_of] in *. rewrite !length_app in *. cbn [length] in Hlen. lia.
    + rewrite flat_map_app. cbn [flat_map remaining_of].
      rewrite <- Hperm.
      rewrite !filter_app. cbn [filter]. rewrite Hc.
      rewrite <- !app_assoc. apply Permutation_app_head. cbn [app].
      rewrite (app_assoc (flat_map offer l1) (filter (supports supported) a)).
      rewrite (app_assoc (flat_map offer l1) (filter (supports supported) a)
                 (c :: _)).
      apply Permutation_middle.
    + rewrite filter_app. cbn [filter has_ended].
      rewrite !length_app in *. cbn [length]. lia.
  - destruct (honest_step_none _ _ _ Hi Hlen Hfind) as (Hnone & ->).
    rewrite Hnone in Hperm.
    rewrite Hw, set_nth_split.
    unfold honest_invariant.
    cbn [first_raised workers accepted_cipher_suites world].
    split; [exact Hraised |]. split; [| split; [| split]].
    + rewrite !length_app in *. cbn [length] in *. lia.
    + apply Forall_app. split; [exact Hlens1 |]. constructor; [| exact Hlens2'].
      cbn [remaining_of length]. lia.
    + rewrite flat_map_app. cbn [flat_map remaining_of filter]. exact Hperm.
    + rewrite filter_app. cbn [filter has_ended].
      rewrite !length_app in *. cbn [length]. lia.
Qed.

Lemma honest_step_invariant_single (i : nat) (st : pool (H:=server)) :
  honest_invariant_single supported st -> honest_invariant_single supported (step1 i st).
Proof.
  intros [(remaining & Hw & Hlen & Hacc) | [Hw Hacc]].
  - destruct i as [| i].
    + assert (Hi : nth_error (workers st) 0 = Some (Running remaining))
        by now rewrite Hw.
      destruct (find (supports supported) remaining) as [c |] eqn:Hfind.
      * destruct (honest_step_found _ _ _ _ Hi Hlen Hfind)
          as (a & b & -> & Hc & Ha & ->).
        left. exists (a ++ b). rewrite Hw.
        cbn [workers accepted_cipher_suites set_nth].
        split; [reflexivity |]. split.
        -- rewrite !length_app in *. cbn [length] in Hlen. lia.
        -- rewrite <- Hacc. rewrite !filter_app. cbn [filter]. rewrite Hc.
           rewrite (filter_none _ a Ha). cbn [app].
           now rewrite <- app_assoc.
      * destruct (honest_step_none _ _ _ Hi Hlen Hfind) as (Hnone & ->).
        right. rewrite Hw. cbn [workers accepted_cipher_suites set_nth].
        split; [reflexivity |]. rewrite Hnone, app_nil_r in Hacc. exact Hacc.
    + left. exists remaining.
      assert (Estep : step1 (S i) st = st)
        by (unfold step; rewrite Hw; now destruct i).
      rewrite Estep. auto.
  - right.
    assert (Estep : step1 i st = st)
      by (unfold step; rewrite Hw; now destruct i as [| [| i]]).
    rewrite Estep. auto.
Qed.
End HonestServer.

Lemma Permutation_filter {A : Type} (f : A -> bool) (l l' : list A) :
  Permutation l l' -> Permutation (filter f l) (filter f l').
Proof.
  induction 1 as [| x l l' _ IH | x y l | l l' l'' _ IH1 _ IH2]; cbn [filter].
  - constructor.
  - destruct (f x); [now constructor | assumption].
  - destruct (f x), (f y); try reflexivity. constructor.
  - now transitivity (filter f l').
Qed.

Lemma filter_concat {A : Type} (f : A -> bool) (l : list (list A)) :
  filter f (concat l) = concat (map (filter f) l).
Proof.
  induction l as [| x l IH]; [reflexivity |].
  cbn [concat map]. now rewrite filter_app, IH.
Qed.

Lemma flat_map_offer_Running (f : CipherSuite -> bool) (parts : list (list CipherSuite)) :
  flat_map (fun wk => filter f (remaining_of wk)) (map Running parts)
  = filter f (concat parts).
Proof.
  rewrite filter_concat.
  induction parts as [| part parts IH]; [reflexivity |].
  cbn [map flat_map remaining_of concat]. now rewrite IH.
Qed.

Lemma filter_has_ended_Running (parts : list (list CipherSuite)) :
  filter has_ended (map Running parts) = [].
Proof. induction parts as [| part parts IH]; [reflexivity | exact IH]. Qed.

Lemma cipher_suite_parts_short (max_workers : Z) :
  Forall (fun wk => (length (remaining_of wk) <= 22)%nat)
         (map Running (cipher_suite_parts max_workers)).
Proof.
  apply Forall_forall. intros wk Hwk.
  apply in_map_iff in Hwk as (part & <- & Hpart).
  unfold cipher_suite_parts in Hpart.
  apply in_map_iff in Hpart as (n & <- & _).
  cbn [remaining_of]. rewrite length_map.
  etransitivity; [apply filter_length_le |]. reflexivity.
Qed.

Lemma all_ended_Forall (l : list worker) :
  (forall j wk, nth_error l j = Some wk -> wk = Ended) ->
  Forall (fun wk => wk = Ended) l.
Proof.
  intros Hall. apply Forall_forall. intros wk Hwk.
  apply In_nth_error in Hwk as [j Hj]. eauto.
Qed.

Lemma all_ended_nothing_to_offer (f : CipherSuite -> bool) (l : list worker) :
  Forall (fun wk => wk = Ended) l ->
  flat_map (fun wk => filter f (remaining_of wk)) l = []
  /\ length (filter has_ended l) = length l.
Proof.
  induction 1 as [| wk l -> _ [IH1 IH2]]; [split; reflexivity |].
  cbn [flat_map remaining_of filter has_ended app length]. now rewrite IH1, IH2.
Qed.

(** X15: against a server, reachable at every valid host name (labels of 1
    to 63 letters, digits and hyphens, at most 253 characters) and port (1
    to 65535), that answers each ClientHello with the first offered cipher
    suite it supports, and with a handshake_failure alert when it supports
    none, [enumerate_ciphers_suites] called on such a host name and port
    finds exactly the cipher suites the server supports: for every worker
    count and every interleaving it returns them all, each once (in the
    order of the enumeration when there is one worker), or raises the
    [ValueError] 'Server did not accept any cipher suite' when the server
    supports none; and it makes one connection per supported cipher suite
    and one more per worker. *)
Theorem enumerate_finds_supported (supported : list CipherSuite) (schedule : list nat)
    (host : str) (protocol : Protocol) (port max_workers : Z) :
  valid_host_name host = true ->
  valid_port port = true ->
  1 <= max_workers ->
  let found := filter (supports supported) (members (A:=CipherSuite)) in
  let r := enumerate_ciphers_suites (H:=honest_server supported) schedule 0%nat
             host protocol port max_workers tt in
  fst r = (length found + Z.to_nat max_workers)%nat
  /\ (found = [] -> snd r = inl (ValueError (No_cipher_suite_accepted protocol)))
  /\ (found <> [] ->
      exists accepted,
        snd r = inr accepted
        /\ Permutation accepted found
        /\ (max_workers = 1 -> accepted = found)).
Proof.
  intros Hhost Hport Hw. cbv zeta.
  destruct (valid_host_name_facts host Hhost) as (_ & Hcolon & _).
  unfold enumerate_ciphers_suites.
  assert (Hparse : _parse_host (H:=honest_server supported) host port = inr (host, port))
    by (unfold _parse_host; now rewrite Hcolon).
  rewrite Hparse.
  destruct (Z.ltb_spec max_workers 1); [lia |].
  cbn [fst snd].
  set (st := pool_map (H:=honest_server supported) host protocol port tt schedule
               0%nat [] (cipher_suite_parts max_workers)).
  assert (Hended : Forall (fun wk => wk = Ended) (workers st)).
  { apply all_ended_Forall. intros j wk. apply join_all_ended. }
  assert (Hinv : honest_invariant supported (Z.to_nat max_workers) st).
  { apply pool_map_invariant.
    - intros i st'. now apply honest_step_invariant.
    - unfold honest_invariant. cbn [first_raised workers accepted_cipher_suites world app].
      split; [reflexivity |]. split; [| split; [| split]].
      + unfold cipher_suite_parts, range. now rewrite !length_map, length_seq.
      + apply cipher_suite_parts_short.
      + rewrite flat_map_offer_Running. apply Permutation_filter.
        now apply cipher_suite_parts_Permutation.
      + now rewrite filter_has_ended_Running. }
  destruct Hinv as (Hraised & Hn & _ & Hperm & Hworld).
  destruct (all_ended_nothing_to_offer (supports supported) _ Hended) as [Hnone Hcount].
  rewrite Hnone, app_nil_r in Hperm.
  rewrite Hcount, Hn in Hworld.
  rewrite Hraised.
  split; [| split].
  - rewrite Hworld. f_equal. now apply Permutation_length.
  - intros Hfound. rewrite Hfound in Hperm.
    apply Permutation_sym, Permutation_nil in Hperm. now rewrite Hperm.
  - intros Hfound. exists (accepted_cipher_suites st).
    split; [| split].
    + destruct (accepted_cipher_suites st) as [| c cs] eqn:Hacc; [| reflexivity].
      apply Permutation_nil in Hperm. now destruct Hfound.
    + exact Hperm.
    + intros ->.
      assert (Hsingle : honest_invariant_single supported st).
      { apply pool_map_invariant.
        - intros i st'. now apply honest_step_invariant_single.
        - left. exists members. repeat split. simpl. lia. }
      destruct Hsingle as [(remaining & Hrun & _) | [_ Hacc]]; [| exact Hacc].
      rewrite Hrun in Hended. inversion Hended as [| ? ? Hbad _]. discriminate Hbad.
Qed.

Lemma enumerate_finds_supported_witness :
  enumerate_ciphers_suites
    (H:=honest_server [TLS_ECDHE_RSA_WITH_AES_128_GCM_SHA256; TLS_AES_256_GCM_SHA384;
                       TLS_RSA_WITH_AES_128_CBC_SHA])
    [0; 0]%nat 0%nat example_com TLS_1_3 443 1 tt
  = (4%nat, inr [TLS_AES_256_GCM_SHA384; TLS_RSA_WITH_AES_128_CBC_SHA;
                 TLS_ECDHE_RSA_WITH_AES_128_GCM_SHA256]).
Proof.
  destruct (enumerate_finds_supported
              [TLS_ECDHE_RSA_WITH_AES_128_GCM_SHA256; TLS_AES_256_GCM_SHA384;
               TLS_RSA_WITH_AES_128_CBC_SHA]
              [0; 0]%nat example_com TLS_1_3 443 1) as (Hconn & _ & Hfound).
  - reflexivity.
  - reflexivity.
  - lia.
  - cbv zeta in Hfound.
    destruct Hfound as (accepted & Hret & _ & Horder); [discriminate |].
    rewrite (Horder eq_refl) in Hret.
    rewrite (surjective_pairing (enumerate_ciphers_suites _ _ _ _ _ _ _)).
    rewrite Hconn, Hret. reflexivity.
Defined.

(** ** Exceptions that leave the driver *)

Lemma loop_body_raises `{Runtime} (server_name : str) (protocol : Protocol) (port : Z)
    (timeout : Timeout) (w w' : World) (accepted accepted' remaining : list CipherSuite)
    (e : exn) :
  loop_body server_name protocol port timeout w accepted remaining
  = (w', accepted', Raise e) ->
  forall p l, e <> ServerError p l handshake_failure.
Proof.
  unfold loop_body.
  destruct (send _ port None timeout w) as [w1 [e' | hello]].
  - destruct e'; try (intros [= _ _ <-]; discriminate).
    destruct (AlertDescription_eq_dec alert handshake_failure) as [| Halert];
      intros [= _ _ <-]. congruence.
  - destruct (py_remove (cipher_suite hello) remaining) as [e' | r] eqn:E;
      intros [= _ _ <-].
    intros p l Heq. subst e'.
    clear -E. revert E. generalize (cipher_suite hello). intros c.
    induction remaining as [| y remaining IH]; [discriminate |].
    simpl. destruct (CipherSuite_eq_dec y c); [discriminate |].
    destruct (py_remove c remaining) as [e' | r]; [| discriminate].
    intros [= ->]. now apply IH.
Qed.

Lemma step_raises_no_handshake_failure `{Runtime} (server_name : str)
    (protocol : Protocol) (port : Z) (timeout : Timeout) (i : nat) (st : pool) :
  (forall p l, first_raised st <> Some (ServerError p l handshake_failure)) ->
  forall p l,
    first_raised (step server_name protocol port timeout i st)
    <> Some (ServerError p l handshake_failure).
Proof.
  intros Hst p l. unfold step.
  destruct (nth_error (workers st) i) as [[remaining |] |]; try apply Hst.
  destruct (loop_body _ _ _ _ _ _ _) as [[w' accepted'] out] eqn:E.
  cbn [first_raised].
  destruct (first_raised st) as [earlier |] eqn:Hearlier; [apply Hst |].
  destruct out as [remaining' | | e]; try discriminate.
  intros [= ->]. now apply (loop_body_raises _ _ _ _ _ _ _ _ _ _ E p l).
Qed.

(** X16: a handshake_failure alert never leaves the driver: whatever
    [enumerate_ciphers_suites] raises, it is not a [ServerError] whose alert
    is handshake_failure. *)
Theorem handshake_failure_stays_inside `{Runtime} (schedule : list nat) (w : World)
    (host : str) (protocol : Protocol) (port max_workers : Z) (timeout : Timeout)
    (e : exn) :
  snd (enumerate_ciphers_suites schedule w host protocol port max_workers timeout)
  = inl e ->
  forall p l, e <> ServerError p l handshake_failure.
Proof.
  unfold enumerate_ciphers_suites, _parse_host.
  destruct (contains colon host).
  - destruct (split_once colon host) as [| name [| port_str [| ? ?]]];
      try (intros [= <-]; discriminate).
    destruct (int port_str) as [n |]; [| intros [= <-]; discriminate].
    cbn [ret].
    destruct (max_workers <? 1); [intros [= <-]; discriminate |].
    cbn [snd].
    pose proof (pool_map_invariant name protocol n timeout
                  (fun st => forall p l,
                       first_raised st <> Some (ServerError p l handshake_failure))
                  schedule w [] (cipher_suite_parts max_workers)
                  (step_raises_no_handshake_failure name protocol n timeout)
                  ltac:(discriminate)) as Hinv.
    cbv beta in Hinv.
    destruct (first_raised _) as [e' |].
    + intros [= <-] p l ->. now apply (Hinv p l).
    + destruct (accepted_cipher_suites _); intros [= <-]; discriminate.
  - cbn [ret].
    destruct (max_workers <? 1); [intros [= <-]; discriminate |].
    cbn [snd].
    pose proof (pool_map_invariant host protocol port timeout
                  (fun st => forall p l,
                       first_raised st <> Some (ServerError p l handshake_failure))
                  schedule w [] (cipher_suite_parts max_workers)
                  (step_raises_no_handshake_failure host protocol port timeout)
                  ltac:(discriminate)) as Hinv.
    cbv beta in Hinv.
    destruct (first_raised _) as [e' |].
    + intros [= <-] p l ->. now apply (Hinv p l).
    + destruct (accepted_cipher_suites _); intros [= <-]; discriminate.
Qed.

Lemma handshake_failure_stays_inside_witness :
  ValueError (No_cipher_suite_accepted TLS_1_3)
  <> ServerError TLS_1_2 FATAL handshake_failure.
Proof.
  apply (handshake_failure_stays_inside (H:=scripted) [0%nat]
           [alert_record FATAL handshake_failure] example_com TLS_1_3 443 1 tt).
  vm_compute. reflexivity.
Defined.

(** X17: every exception of [ClientHello.send] other than a
    handshake_failure alert (a socket error, a decoding error of
    [from_packet], an encoding error of [make_packet], another alert) ends
    the enumeration: [enumerate_ciphers_suites] raises it, unless an
    exception was raised earlier in the run, which is then the one raised. *)
Theorem worker_exception_propagates `{Runtime} (schedule1 schedule2 : list nat) (i : nat)
    (w : World) (host : str) (protocol : Protocol) (port0 max_workers : Z)
    (timeout : Timeout) (server_name : str) (port : Z)
    (remaining : list CipherSuite) (w' : World) (e : exn) :
  _parse_host host port0 = inr (server_name, port) ->
  1 <= max_workers ->
  let st := run_schedule server_name protocol port timeout schedule1
              (mkPool w [] (map Running (cipher_suite_parts max_workers)) None) in
  nth_error (workers st) i = Some (Running remaining) ->
  send (mkClientHello server_name [protocol] remaining) port None timeout (world st)
  = (w', inl e) ->
  (forall p l, e <> ServerError p l handshake_failure) ->
  snd (enumerate_ciphers_suites (schedule1 ++ i :: schedule2) w host protocol
         port0 max_workers timeout)
  = inl (match first_raised st with
         | Some earlier => earlier
         | None => e
         end).
Proof.
  intros Hhost Hworkers st Hi Hsend He.
  assert (Hbody : loop_body server_name protocol port timeout (world st)
                    (accepted_cipher_suites st) remaining
                  = (w', accepted_cipher_suites st, Raise e)).
  { unfold loop_body. rewrite Hsend.
    destruct e; try reflexivity.
    destruct (AlertDescription_eq_dec alert handshake_failure) as [-> |];
      [now destruct (He protocol0 level) | reflexivity]. }
  assert (Hstep : first_raised (step server_name protocol port timeout i st)
                  = Some (match first_raised st with
                          | Some earlier => earlier
                          | None => e
                          end)).
  { unfold step. rewrite Hi, Hbody. cbn [first_raised].
    now destruct (first_raised st). }
  unfold enumerate_ciphers_suites. rewrite Hhost.
  destruct (Z.ltb_spec max_workers 1); [lia |].
  cbn [snd]. unfold pool_map.
  rewrite run_schedule_app. cbn [run_schedule fold_left].
  fold (run_schedule server_name protocol port timeout schedule1
          (mkPool w [] (map Running (cipher_suite_parts max_workers)) None)).
  fold st.
  fold (run_schedule server_name protocol port timeout schedule2
          (step server_name protocol port timeout i st)).
  erewrite join_first_raised; [reflexivity |].
  now apply run_schedule_first_raised.
Qed.

Lemma worker_exception_propagates_witness :
  snd (enumerate_ciphers_suites (H:=scripted) [0%nat] [] example_com TLS_1_3 443 1 tt)
  = inl OSError
  /\ snd (enumerate_ciphers_suites (H:=scripted) [0%nat] [[x16; x03; x03]]
            example_com TLS_1_3 443 1 tt)
     = inl struct_error.
Proof.
  split.
  - apply (worker_exception_propagates (H:=scripted) [] [] 0 [] example_com TLS_1_3
             443 1 tt example_com 443 members [] OSError).
    + reflexivity.
    + lia.
    + reflexivity.
    + vm_compute. reflexivity.
    + discriminate.
  - apply (worker_exception_propagates (H:=scripted) [] [] 0 [[x16; x03; x03]]
             example_com TLS_1_3 443 1 tt example_com 443 members [] struct_error).
    + reflexivity.
    + lia.
    + reflexivity.
    + vm_compute. reflexivity.
    + discriminate.
Defined.

(** ** Where the driver connects *)

(** [send] on the logged runtime is [send] with its address written down. *)
Lemma send_logged (R : Runtime) (self : ClientHello) (port : Z)
    (timeout : @Timeout R) (w : @World (logged R)) :
  send (H:=logged R) self port None timeout w
  = let (w', r) := send (H:=R) self port None timeout (fst w) in
    ((w', snd w ++ [(server_name self, port)]), r).
Proof.
  unfold send. cbn [create_connection send_recv close logged].
  destruct (@create_connection R (fst w) (server_name self) port timeout)
    as [w1 [|]]; [| reflexivity].
  cbn [fst snd].
  destruct (make_packet self) as [e | packet]; [reflexivity |].
  now destruct (@send_recv R w1 packet) as [w2 received].
Qed.

Lemma filter_has_ended_replace (l1 l2 : list worker) (remaining : list CipherSuite)
    (wk : worker) :
  (length (filter has_ended (l1 ++ wk :: l2))
   <= S (length (filter has_ended (l1 ++ Running remaining :: l2))))%nat.
Proof.
  rewrite !filter_app, !length_app. cbn [filter has_ended].
  destruct (has_ended wk); cbn [length]; lia.
Qed.

Lemma length_cipher_suite_parts (max_workers : Z) :
  length (cipher_suite_parts max_workers) = Z.to_nat max_workers.
Proof.
  unfold cipher_suite_parts, range. now rewrite !length_map, length_seq.
Qed.

Section Logged.
Variable R : Runtime.
Variables (name : str) (protocol : Protocol) (port : Z) (timeout : @Timeout R).

Local Abbreviation logged_pool := (pool (H:=logged R)).
Local Abbreviation logged_step := (step (H:=logged R) name protocol port timeout).
Local Abbreviation plain_step := (step (H:=R) name protocol port timeout).

(** A pass of the loop body makes one connection, to [(name, port)]. *)
Lemma loop_body_logged (w : @World (logged R))
    (accepted remaining : list CipherSuite) :
  loop_body (H:=logged R) name protocol port timeout w accepted remaining
  = let '(w', accepted', out) :=
      loop_body (H:=R) name protocol port timeout (fst w) accepted remaining in
    ((w', snd w ++ [(name, port)]), accepted', out).
Proof.
  unfold loop_body. rewrite send_logged. cbn [server_name].
  destruct (send (H:=R) _ port None timeout (fst w)) as [w' [e | hello]].
  - destruct e; try reflexivity.
    now destruct (AlertDescription_eq_dec alert handshake_failure).
  - now destruct (py_remove (cipher_suite hello) remaining).
Qed.

(** A pass of the logged pool is the pass of the pool, and it appends
    [(name, port)] to the log when the call is still running. *)
Lemma step_logged (i : nat) (st : logged_pool) :
  forget_log (logged_step i st) = plain_step i (forget_log st)
  /\ (logged_step i st = st
      \/ exists l1 remaining l2 wk,
           workers st = l1 ++ Running remaining :: l2
           /\ workers (logged_step i st) = l1 ++ wk :: l2
           /\ snd (world (logged_step i st)) = snd (world st) ++ [(name, port)]).
Proof.
  unfold step, forget_log. cbn [workers world accepted_cipher_suites first_raised].
  destruct (nth_error (workers st) i) as [[remaining |] |] eqn:Hi;
    try (split; [reflexivity | now left]).
  rewrite loop_body_logged.
  destruct (loop_body (H:=R) name protocol port timeout (fst (world st))
              (accepted_cipher_suites st) remaining) as [[w' accepted'] out].
  cbn [workers world accepted_cipher_suites first_raised fst snd].
  split; [reflexivity |]. right.
  destruct (nth_error_split _ _ Hi) as (l1 & l2 & Hw & Hlen).
  exists l1, remaining, l2. eexists.
  split; [exact Hw |]. split; [| reflexivity].
  rewrite Hw, <- Hlen. apply set_nth_split.
Qed.

Lemma steps_forget_log (n i : nat) (st : logged_pool) :
  forget_log (steps (H:=logged R) name protocol port timeout n i st)
  = steps (H:=R) name protocol port timeout n i (forget_log st).
Proof.
  revert st. induction n as [| n IH]; intros st; [reflexivity |].
  cbn [steps]. rewrite IH. f_equal. apply step_logged.
Qed.

Lemma run_schedule_forget_log (schedule : list nat) (st : logged_pool) :
  forget_log (run_schedule (H:=logged R) name protocol port timeout schedule st)
  = run_schedule (H:=R) name protocol port timeout schedule (forget_log st).
Proof.
  revert st. induction schedule as [| i schedule IH]; intros st; [reflexivity |].
  cbn [run_schedule fold_left].
  fold (run_schedule (H:=logged R) name protocol port timeout schedule (logged_step i st)).
  fold (run_schedule (H:=R) name protocol port timeout schedule
          (plain_step i (forget_log st))).
  rewrite IH. f_equal. apply step_logged.
Qed.

Lemma run_to_end_forget_log (i : nat) (st : logged_pool) :
  forget_log (run_to_end (H:=logged R) name protocol port timeout i st)
  = run_to_end (H:=R) name protocol port timeout i (forget_log st).
Proof.
  unfold run_to_end. change (workers (forget_log st)) with (workers st).
  destruct (nth_error (workers st) i) as [[remaining |] |]; try reflexivity.
  apply steps_forget_log.
Qed.

Lemma join_forget_log (st : logged_pool) :
  forget_log (join (H:=logged R) name protocol port timeout st)
  = join (H:=R) name protocol port timeout (forget_log st).
Proof.
  unfold join. change (workers (forget_log st)) with (workers st).
  generalize (seq 0 (length (workers st))). intros js. revert st.
  induction js as [| i js IH]; intros st; [reflexivity |].
  cbn [fold_left]. rewrite IH. f_equal. apply run_to_end_forget_log.
Qed.

(** The log changes nothing: the logged pool runs as the pool does. *)
Lemma pool_map_forget_log (schedule : list nat) (w : @World R)
    (log : list (str * Z)) (accepted : list CipherSuite)
    (parts : list (list CipherSuite)) :
  forget_log (pool_map (H:=logged R) name protocol port timeout schedule (w, log)
                accepted parts)
  = pool_map (H:=R) name protocol port timeout schedule w accepted parts.
Proof.
  unfold pool_map. now rewrite join_forget_log, run_schedule_forget_log.
Qed.

(** Every connection of the pool goes to [(name, port)], and every call
    that has ended has made one. *)
Lemma pool_map_log (schedule : list nat) (w : @World R)
    (parts : list (list CipherSuite)) :
  let st := pool_map (H:=logged R) name protocol port timeout schedule (w, [])
              [] parts in
  Forall (eq (name, port)) (snd (world st))
  /\ (length parts <= length (snd (world st)))%nat.
Proof.
  cbv zeta.
  pose (P := fun st : logged_pool =>
               Forall (eq (name, port)) (snd (world st))
               /\ length (workers st) = length parts
               /\ (length (filter has_ended (workers st))
                   <= length (snd (world st)))%nat).
  assert (HP : P (pool_map (H:=logged R) name protocol port timeout schedule (w, [])
                    [] parts)).
  { apply (pool_map_invariant (H:=logged R)).
    - intros i st (Hlog & Hlen & Hended).
      destruct (step_logged i st)
        as [_ [-> | (l1 & remaining & l2 & wk & Hw & Hw' & Hlog')]];
        [now repeat split |].
      unfold P. rewrite Hlog', Hw'. split; [| split].
      + apply Forall_app. split; [exact Hlog |]. now repeat constructor.
      + rewrite <- Hlen, Hw, !length_app. reflexivity.
      + rewrite length_app. cbn [length].
        pose proof (filter_has_ended_replace l1 l2 remaining wk).
        rewrite Hw in Hended. lia.
    - unfold P. cbn [world workers snd]. split; [constructor |].
      split; [apply length_map |].
      rewrite filter_has_ended_Running. cbn [length]. lia. }
  destruct HP as (Hlog & Hlen & Hended).
  split; [exact Hlog |].
  assert (Hall : Forall (fun wk => wk = Ended)
                   (workers (pool_map (H:=logged R) name protocol port timeout
                               schedule (w, []) [] parts))).
  { apply all_ended_Forall. intros j wk Hj. unfold pool_map in Hj.
    now apply (join_all_ended (H:=logged R)) in Hj. }
  apply (all_ended_nothing_to_offer (fun _ => true)) in Hall as [_ Hall].
  rewrite Hall, Hlen in Hended. exact Hended.
Qed.
End Logged.

(** The logged call is the call. *)
Lemma enumerate_logged (R : Runtime) (schedule : list nat) (w : @World R)
    (log : list (str * Z)) (host : str) (protocol : Protocol)
    (port max_workers : Z) (timeout : @Timeout R) :
  let r := enumerate_ciphers_suites (H:=logged R) schedule (w, log) host protocol
             port max_workers timeout in
  (fst (fst r), snd r)
  = enumerate_ciphers_suites (H:=R) schedule w host protocol port max_workers timeout.
Proof.
  cbv zeta. unfold enumerate_ciphers_suites.
  change (_parse_host (H:=logged R) host port) with (_parse_host (H:=R) host port).
  destruct (_parse_host (H:=R) host port) as [e | [name port1]]; [reflexivity |].
  destruct (max_workers <? 1); [reflexivity |].
  rewrite <- (pool_map_forget_log R name protocol port1 timeout schedule w log []
                (cipher_suite_parts max_workers)).
  reflexivity.
Qed.

(** What the call connects to, from what [_parse_host] returns. *)
Lemma connections_of_parse (R : Runtime) (schedule : list nat) (w : @World R)
    (host : str) (protocol : Protocol) (port max_workers : Z) (timeout : @Timeout R) :
  let log := connections schedule w host protocol port max_workers timeout in
  match _parse_host (H:=R) host port with
  | inr address =>
      Forall (eq address) log
      /\ (1 <= max_workers -> (Z.to_nat max_workers <= length log)%nat)
  | inl e =>
      log = []
      /\ snd (enumerate_ciphers_suites (H:=R) schedule w host protocol port
                max_workers timeout) = inl e
  end.
Proof.
  cbv zeta. unfold connections, enumerate_ciphers_suites.
  change (_parse_host (H:=logged R) host port) with (_parse_host (H:=R) host port).
  destruct (_parse_host (H:=R) host port) as [e | [name port1]];
    [split; reflexivity |].
  destruct (Z.ltb_spec max_workers 1) as [Hlt | Hge].
  - cbn [fst snd]. split; [constructor | lia].
  - cbn [fst snd].
    destruct (pool_map_log R name protocol port1 timeout schedule w
                (cipher_suite_parts max_workers)) as [Hlog Hlen].
    rewrite length_cipher_suite_parts in Hlen.
    split; [exact Hlog | intros _; exact Hlen].
Qed.

(** C10, counterexample: the host string [a:b] has a ':', and the call
    raises the [ValueError] of [int('b')] before it connects anywhere. *)
Lemma connects_to_port_of_host_counterexample :
  ~ connects_to_port_of_host scripted a_colon_b.
Proof.
  intros Hclaim.
  destruct (Hclaim eq_refl) as (name & port_str & n & _ & _ & Hlog).
  destruct (Hlog [] [] TLS_1_3 443 1 tt ltac:(lia)) as [Hconnected _].
  apply Hconnected. vm_compute. reflexivity.
Qed.

(** C10, amended: a host string [name:port_str], [name] without ':', is
    split at its first ':', and every host string with a ':' is of this
    form. When [int] accepts [port_str], every connection of the call goes
    to [name] and the port [int(port_str)], whatever the port argument is,
    and with [max_workers >= 1] each of the [max_workers] calls of
    [enumerate_subset] makes one. When [int] rejects [port_str] (as in
    [a:b] or [::1]), the call raises [ValueError] and connects nowhere.
    With a host string without ':', every connection goes to the host
    string and the port argument as they are. The connections are those the
    call makes on the network it runs against: recording them changes
    neither the network nor the result. *)
Theorem enumerate_connects_to_parsed_host (R : Runtime) (schedule : list nat)
    (w : @World R) (host : str) (protocol : Protocol) (port max_workers : Z)
    (timeout : @Timeout R) :
  let r := enumerate_ciphers_suites (H:=R) schedule w host protocol port max_workers
             timeout in
  let logged_r := enumerate_ciphers_suites (H:=logged R) schedule (w, []) host
                    protocol port max_workers timeout in
  let log := connections schedule w host protocol port max_workers timeout in
  (fst (fst logged_r), snd logged_r) = r
  /\ (forall name port_str : str,
        host = name ++ colon :: port_str ->
        contains colon name = false ->
        match @int R port_str with
        | Some n =>
            Forall (eq (name, n)) log
            /\ (1 <= max_workers -> (Z.to_nat max_workers <= length log)%nat)
        | None =>
            log = [] /\ snd r = inl (ValueError Invalid_literal_for_int)
        end)
  /\ (contains colon host = true ->
      exists name port_str : str,
        host = name ++ colon :: port_str /\ contains colon name = false)
  /\ (contains colon host = false ->
      Forall (eq (host, port)) log
      /\ (1 <= max_workers -> (Z.to_nat max_workers <= length log)%nat)).
Proof.
  cbv zeta. split; [apply enumerate_logged |]. split; [| split].
  - intros name port_str -> Hname.
    pose proof (connections_of_parse R schedule w (name ++ colon :: port_str)
                  protocol port max_workers timeout) as Hlog.
    cbv zeta in Hlog. rewrite (_parse_host_split (H:=R)) in Hlog by exact Hname.
    destruct (@int R port_str); exact Hlog.
  - apply host_split.
  - intros Hcolon.
    pose proof (connections_of_parse R schedule w host protocol port max_workers
                  timeout) as Hlog.
    cbv zeta in Hlog. rewrite (_parse_host_plain (H:=R)) in Hlog by exact Hcolon.
    exact Hlog.
Qed.

Lemma enumerate_connects_to_parsed_host_witness :
  (Forall (eq (example_com, 8443))
          (connections (R:=scripted) [] [] example_com_8443 TLS_1_3 443 2 tt)
   /\ (2 <= length (connections (R:=scripted) [] [] example_com_8443 TLS_1_3 443 2 tt))%nat)
  /\ connections (R:=scripted) [] [] a_colon_b TLS_1_3 443 2 tt = []
  /\ Forall (eq (example_com, 443))
            (connections (R:=scripted) [] [] example_com TLS_1_3 443 2 tt).
Proof.
  split; [| split].
  - destruct (enumerate_connects_to_parsed_host scripted [] [] example_com_8443
                TLS_1_3 443 2 tt) as (_ & Hsplit & _ & _).
    destruct (Hsplit example_com port_8443 eq_refl eq_refl) as [Hlog Hlen].
    split; [exact Hlog |]. apply Hlen. lia.
  - destruct (enumerate_connects_to_parsed_host scripted [] [] a_colon_b
                TLS_1_3 443 2 tt) as (_ & Hsplit & _ & _).
    destruct (Hsplit [97%N] [98%N] eq_refl eq_refl) as [Hlog _].
    exact Hlog.
  - destruct (enumerate_connects_to_parsed_host scripted [] [] example_com
                TLS_1_3 443 2 tt) as (_ & _ & _ & Hplain).
    destruct (Hplain eq_refl) as [Hlog _]. exact Hlog.
Defined.
